(** * Agent tool resolution and execution

    A shallow embedding of the agent tool pipeline of the engine
    (value reconciliation against dropdown options, schema synthesis,
    level-by-level property extraction, action execution, construction of
    the tool set), of the agent output builder that records the transcript
    of a run, and of the payload properties of the call-flow action.

    JavaScript values are modelled by the JSON fragment the pipeline
    exchanges with its collaborators; asynchronous calls are sequential in
    the sources (every promise is awaited) and are modelled as plain calls
    that either return or throw. *)

From Stdlib Require Import String Ascii List ZArith Bool Lia Arith.
From Stdlib Require Import DecimalString DecimalZ DecimalPos DecimalN DecimalFacts.
Import ListNotations.
Local Open Scope string_scope.

(* ================================================================== *)
(** * JavaScript values and built-ins used by the sources *)
(* ================================================================== *)

Module Js.

(** ** Strings

    Strings are sequences of code units; the model uses Rocq's byte
    strings.  [toLowerCase] maps the capitals A-Z to small letters and
    leaves every other unit unchanged: on a text of ASCII units
    ([ascii_text]) this is [String.prototype.toLowerCase]; on other texts
    the platform also folds capitals outside ASCII, which the model does
    not.  A statement whose truth depends on the case of a text carries
    [ascii_text] as a hypothesis. *)

Fixpoint ascii_text (s : string) : bool :=
  match s with
  | EmptyString => true
  | String c s' => (nat_of_ascii c <? 128)%nat && ascii_text s'
  end.

Definition lower_ascii (c : ascii) : ascii :=
  let n := nat_of_ascii c in
  if (65 <=? n)%nat && (n <=? 90)%nat then ascii_of_nat (n + 32) else c.

Fixpoint toLowerCase (s : string) : string :=
  match s with
  | EmptyString => EmptyString
  | String c s' => String (lower_ascii c) (toLowerCase s')
  end.

(** [startsWith s p] is [s.startsWith(p)]. *)
Fixpoint startsWith (s p : string) : bool :=
  match p, s with
  | EmptyString, _ => true
  | String c p', String d s' => Ascii.eqb c d && startsWith s' p'
  | String _ _, EmptyString => false
  end.

(** [drop n s] removes the first [n] units of [s]. *)
Fixpoint drop (n : nat) (s : string) : string :=
  match n, s with
  | O, _ => s
  | S n', String _ s' => drop n' s'
  | S _, EmptyString => EmptyString
  end.

(** [endsWith s p] is [s.endsWith(p)]. *)
Definition endsWith (s p : string) : bool :=
  (String.length p <=? String.length s)%nat
  && String.eqb (drop (String.length s - String.length p) s) p.

(** [includes s p] is [s.includes(p)]. *)
Fixpoint includes (s p : string) : bool :=
  startsWith s p ||
  match s with
  | EmptyString => false
  | String _ s' => includes s' p
  end.

(** [replace s pat rep] is [s.replace(pat, rep)] for a string pattern:
    only the first occurrence is replaced. *)
Fixpoint replace (s pat rep : string) : string :=
  if startsWith s pat then rep ++ drop (String.length pat) s
  else match s with
       | EmptyString => EmptyString
       | String c s' => String c (replace s' pat rep)
       end.

(** [slice_to s n] is [s.slice(0, n)] for [0 <= n]. *)
Fixpoint slice_to (s : string) (n : nat) : string :=
  match n, s with
  | O, _ => EmptyString
  | S n', String c s' => String c (slice_to s' n')
  | S _, EmptyString => EmptyString
  end.

(** [join sep l] is [l.join(sep)]. *)
Fixpoint join (sep : string) (l : list string) : string :=
  match l with
  | [] => EmptyString
  | [x] => x
  | x :: rest => x ++ sep ++ join sep rest
  end.

(** ** JSON values *)

Unset Elimination Schemes.
Inductive json : Type :=
| JNull
| JBool (b : bool)
| JNum (n : Z)
| JStr (s : string)
| JArr (items : list json)
| JObj (entries : list (string * json)).
Set Elimination Schemes.

(** Entries of an object are kept in property order, the order of
    [Object.keys]; keys are pairwise distinct. *)

Fixpoint lookup {A : Type} (k : string) (m : list (string * A)) : option A :=
  match m with
  | [] => None
  | (k', v) :: rest => if String.eqb k k' then Some v else lookup k rest
  end.

Definition has_key {A : Type} (k : string) (m : list (string * A)) : bool :=
  match lookup k m with Some _ => true | None => false end.

(** The members an object inherits from [Object.prototype]: they are
    functions, but for [__proto__], whose value is the prototype. *)
Definition Object_prototype_members : list string :=
  ["constructor"; "hasOwnProperty"; "isPrototypeOf"; "propertyIsEnumerable";
   "toLocaleString"; "toString"; "valueOf"; "__proto__";
   "__defineGetter__"; "__defineSetter__"; "__lookupGetter__";
   "__lookupSetter__"].

Definition inherited (k : string) : bool :=
  existsb (String.eqb k) Object_prototype_members.

(** [k in o] for an object [o] with the own entries [m] that was created by
    an object literal or a spread, so that its prototype is
    [Object.prototype]. *)
Definition in_object {A : Type} (k : string) (m : list (string * A)) : bool :=
  has_key k m || inherited k.

(** Decimal form of a number, as [String(n)] for an integer [n]. *)
Definition string_of_Z (n : Z) : string :=
  NilZero.string_of_int (Z.to_int n).

Definition string_of_nat (n : nat) : string := string_of_Z (Z.of_nat n).

(** The value of a string of decimal digits. *)
Definition digits_value (s : string) : option Z :=
  match NilEmpty.uint_of_string s with
  | Some d => Some (Z.of_uint d)
  | None => None
  end.

(** [array_index k] is the number a key stands for when the key is an
    array index: the canonical decimal form of an integer below 2^32 - 1. *)
Definition array_index (k : string) : option Z :=
  match k with
  | EmptyString => None
  | _ =>
      match digits_value k with
      | Some n =>
          if String.eqb (string_of_Z n) k && (n <=? 4294967294)%Z
          then Some n else None
      | None => None
      end
  end.

(** [update k v m] overwrites the value of the existing key [k]. *)
Fixpoint update {A : Type} (k : string) (v : A) (m : list (string * A))
  : list (string * A) :=
  match m with
  | [] => []
  | (k', v') :: rest =>
      if String.eqb k k' then (k', v) :: rest else (k', v') :: update k v rest
  end.

(** [insert_index i k v m] creates the index key [k], of number [i]:
    index keys come first, in ascending order. *)
Fixpoint insert_index {A : Type} (i : Z) (k : string) (v : A)
  (m : list (string * A)) : list (string * A) :=
  match m with
  | [] => [(k, v)]
  | (k', v') :: rest =>
      match array_index k' with
      | Some j =>
          if (j <? i)%Z then (k', v') :: insert_index i k v rest
          else (k, v) :: m
      | None => (k, v) :: m
      end
  end.

(** [set k v m] is the assignment [m[k] = v]: an existing key keeps its
    place; a new key goes among the index keys when it is one, and last
    otherwise. *)
Definition set {A : Type} (k : string) (v : A) (m : list (string * A))
  : list (string * A) :=
  if has_key k m then update k v m
  else match array_index k with
       | Some i => insert_index i k v m
       | None => m ++ [(k, v)]
       end.

Definition keys {A : Type} (m : list (string * A)) : list string :=
  map fst m.

(** [spread base extra] is the object literal [{...base, ...extra}]. *)
Definition spread {A : Type} (base extra : list (string * A))
  : list (string * A) :=
  fold_left (fun acc kv => set (fst kv) (snd kv) acc) extra base.

(** Own enumerable string-keyed properties of a value, as seen by
    [Object.keys], [Object.entries] and object spread. *)
Fixpoint index_entries (i : nat) (l : list json) : list (string * json) :=
  match l with
  | [] => []
  | x :: rest => (string_of_nat i, x) :: index_entries (S i) rest
  end.

Fixpoint char_entries (i : nat) (s : string) : list (string * json) :=
  match s with
  | EmptyString => []
  | String c s' =>
      (string_of_nat i, JStr (String c EmptyString)) :: char_entries (S i) s'
  end.

Definition own_entries (v : json) : list (string * json) :=
  match v with
  | JObj es => es
  | JArr l => index_entries 0 l
  | JStr s => char_entries 0 s
  | _ => []
  end.

(** The members of an object or an array that hold data: the own entries
    and, for an array, its [length].  Every other member that [in] finds
    on such a value is inherited and holds a function (or, for
    [__proto__], the prototype), which is strictly equal to no value
    parsed from a text. *)
Definition data_members (v : json) : list (string * json) :=
  match v with
  | JArr l => index_entries 0 l ++ [("length", JNum (Z.of_nat (length l)))]
  | _ => own_entries v
  end.

(** [typeof v === 'object' && v !== null]. *)
Definition is_object (v : json) : bool :=
  match v with
  | JArr _ | JObj _ => true
  | _ => false
  end.

(** ** JSON.stringify *)

(** The double-quote character. *)
Definition dquote : ascii := ascii_of_nat 34.

Definition hex_digit (n : nat) : ascii :=
  if (n <? 10)%nat then ascii_of_nat (48 + n) else ascii_of_nat (87 + n).

Definition escape_char (c : ascii) : string :=
  let n := nat_of_ascii c in
  if (n =? 34)%nat then String "\" (String dquote "")
  else if (n =? 92)%nat then "\\"
  else if (n =? 8)%nat then "\b"
  else if (n =? 12)%nat then "\f"
  else if (n =? 10)%nat then "\n"
  else if (n =? 13)%nat then "\r"
  else if (n =? 9)%nat then "\t"
  else if (n <? 32)%nat then
    "\u00" ++ String (hex_digit (n / 16)) (String (hex_digit (n mod 16)) "")
  else String c "".

Fixpoint escape (s : string) : string :=
  match s with
  | EmptyString => EmptyString
  | String c s' => escape_char c ++ escape s'
  end.

Definition quote (s : string) : string :=
  String dquote (escape s ++ String dquote "").

Fixpoint JSON_stringify (v : json) : string :=
  match v with
  | JNull => "null"
  | JBool true => "true"
  | JBool false => "false"
  | JNum n => string_of_Z n
  | JStr s => quote s
  | JArr l => "[" ++ join "," (map JSON_stringify l) ++ "]"
  | JObj es =>
      "{" ++ join ","
               (map (fun kv => quote (fst kv) ++ ":" ++ JSON_stringify (snd kv))
                    es)
          ++ "}"
  end.

(** [a === b] between a value parsed from the model's output and a value
    held by an option: primitives compare by value, while two arrays or
    objects are distinct allocations and never strictly equal. *)
Definition strict_equal (a b : json) : bool :=
  match a, b with
  | JNull, JNull => true
  | JBool x, JBool y => Bool.eqb x y
  | JNum x, JNum y => Z.eqb x y
  | JStr x, JStr y => String.eqb x y
  | _, _ => false
  end.

(** Truthiness of a value in a condition. *)
Definition truthy (v : json) : bool :=
  match v with
  | JNull => false
  | JBool b => b
  | JNum n => negb (Z.eqb n 0)
  | JStr s => negb (String.eqb s "")
  | JArr _ | JObj _ => true
  end.

(** ** JSON.parse

    The text grammar of JSON over byte strings.  Number literals are the
    integer literals; a literal with a fraction or an exponent denotes a
    number outside the model and is refused like a malformed text. *)

Definition is_ws (c : ascii) : bool :=
  let n := nat_of_ascii c in
  (n =? 32)%nat || (n =? 9)%nat || (n =? 10)%nat || (n =? 13)%nat.

Fixpoint skip_ws (s : string) : string :=
  match s with
  | EmptyString => EmptyString
  | String c s' => if is_ws c then skip_ws s' else s
  end.

Definition is_digit (c : ascii) : bool :=
  let n := nat_of_ascii c in (48 <=? n)%nat && (n <=? 57)%nat.

Definition hex_value (c : ascii) : option nat :=
  let n := nat_of_ascii c in
  if (48 <=? n)%nat && (n <=? 57)%nat then Some (n - 48)
  else if (97 <=? n)%nat && (n <=? 102)%nat then Some (n - 87)
  else if (65 <=? n)%nat && (n <=? 70)%nat then Some (n - 55)
  else None.

(** The character a two-character escape stands for. *)
Definition unescape (e : ascii) : option ascii :=
  let n := nat_of_ascii e in
  if (n =? 34)%nat then Some dquote
  else if (n =? 92)%nat then Some "\"%char
  else if (n =? 47)%nat then Some "/"%char
  else if (n =? 98)%nat then Some (ascii_of_nat 8)
  else if (n =? 102)%nat then Some (ascii_of_nat 12)
  else if (n =? 110)%nat then Some (ascii_of_nat 10)
  else if (n =? 114)%nat then Some (ascii_of_nat 13)
  else if (n =? 116)%nat then Some (ascii_of_nat 9)
  else None.

Definition cons_char (c : ascii) (r : option (string * string))
  : option (string * string) :=
  match r with
  | Some (str, rest) => Some (String c str, rest)
  | None => None
  end.

(** The characters of a string literal after its opening quote, up to the
    closing quote. *)
Fixpoint parse_chars (s : string) : option (string * string) :=
  match s with
  | EmptyString => None
  | String c s' =>
      if Ascii.eqb c dquote then Some (EmptyString, s')
      else if Ascii.eqb c "\" then
        match s' with
        | EmptyString => None
        | String e s'' =>
            match unescape e with
            | Some ch => cons_char ch (parse_chars s'')
            | None =>
                if Ascii.eqb e "u" then
                  match s'' with
                  | String h1 (String h2 (String h3 (String h4 rest))) =>
                      match hex_value h1, hex_value h2,
                            hex_value h3, hex_value h4 with
                      | Some 0%nat, Some 0%nat, Some a, Some b =>
                          cons_char (ascii_of_nat (16 * a + b))
                                    (parse_chars rest)
                      | _, _, _, _ => None
                      end
                  | _ => None
                  end
                else None
            end
        end
      else if (nat_of_ascii c <? 32)%nat then None
      else cons_char c (parse_chars s')
  end.

(** The longest prefix of digits and what follows it. *)
Fixpoint span_digits (s : string) : string * string :=
  match s with
  | EmptyString => (EmptyString, EmptyString)
  | String c s' =>
      if is_digit c
      then let (ds, rest) := span_digits s' in (String c ds, rest)
      else (EmptyString, s)
  end.

Definition continues_number (rest : string) : bool :=
  match rest with
  | String c _ =>
      Ascii.eqb c "." || Ascii.eqb c "e" || Ascii.eqb c "E"
  | EmptyString => false
  end.

Definition parse_unsigned (s : string) : option (Z * string) :=
  let (ds, rest) := span_digits s in
  match ds with
  | EmptyString => None
  | String c more =>
      if Ascii.eqb c "0" && negb (String.eqb more EmptyString) then None
      else if continues_number rest then None
      else match digits_value ds with
           | Some n => Some (n, rest)
           | None => None
           end
  end.

Definition parse_number (s : string) : option (Z * string) :=
  match s with
  | String c s' =>
      if Ascii.eqb c "-" then
        match parse_unsigned s' with
        | Some (n, rest) => Some ((- n)%Z, rest)
        | None => None
        end
      else parse_unsigned s
  | EmptyString => None
  end.

Definition expect (c : ascii) (s : string) : option string :=
  match skip_ws s with
  | String d rest => if Ascii.eqb c d then Some rest else None
  | EmptyString => None
  end.

(** The syntax tree of a JSON text: [parse_value] reads one value and
    returns what follows it; the entries of an object are those written,
    in the order written. *)
Fixpoint parse_value (fuel : nat) (s : string) {struct fuel}
  : option (json * string) :=
  match fuel with
  | O => None
  | S fuel' =>
      match skip_ws s with
      | EmptyString => None
      | String c s' =>
          if Ascii.eqb c "{" then
            match expect "}" s' with
            | Some rest => Some (JObj [], rest)
            | None =>
                match parse_members fuel' s' with
                | Some (es, rest) => Some (JObj es, rest)
                | None => None
                end
            end
          else if Ascii.eqb c "[" then
            match expect "]" s' with
            | Some rest => Some (JArr [], rest)
            | None =>
                match parse_elements fuel' s' with
                | Some (l, rest) => Some (JArr l, rest)
                | None => None
                end
            end
          else if Ascii.eqb c dquote then
            match parse_chars s' with
            | Some (str, rest) => Some (JStr str, rest)
            | None => None
            end
          else if startsWith (String c s') "true"
          then Some (JBool true, drop 4 (String c s'))
          else if startsWith (String c s') "false"
          then Some (JBool false, drop 5 (String c s'))
          else if startsWith (String c s') "null"
          then Some (JNull, drop 4 (String c s'))
          else
            match parse_number (String c s') with
            | Some (n, rest) => Some (JNum n, rest)
            | None => None
            end
      end
  end
with parse_elements (fuel : nat) (s : string) {struct fuel}
  : option (list json * string) :=
  match fuel with
  | O => None
  | S fuel' =>
      match parse_value fuel' s with
      | Some (v, rest) =>
          match skip_ws rest with
          | String c rest' =>
              if Ascii.eqb c "," then
                match parse_elements fuel' rest' with
                | Some (vs, r) => Some (v :: vs, r)
                | None => None
                end
              else if Ascii.eqb c "]" then Some ([v], rest')
              else None
          | EmptyString => None
          end
      | None => None
      end
  end
with parse_members (fuel : nat) (s : string) {struct fuel}
  : option (list (string * json) * string) :=
  match fuel with
  | O => None
  | S fuel' =>
      match expect dquote s with
      | Some afterQuote =>
          match parse_chars afterQuote with
          | Some (k, afterKey) =>
              match expect ":" afterKey with
              | Some afterColon =>
                  match parse_value fuel' afterColon with
                  | Some (v, rest) =>
                      match skip_ws rest with
                      | String c rest' =>
                          if Ascii.eqb c "," then
                            match parse_members fuel' rest' with
                            | Some (es, r) => Some ((k, v) :: es, r)
                            | None => None
                            end
                          else if Ascii.eqb c "}" then Some ([(k, v)], rest')
                          else None
                      | EmptyString => None
                      end
                  | None => None
                  end
              | None => None
              end
          | None => None
          end
      | None => None
      end
  end.

(** The object a syntax tree denotes: a repeated key keeps its first place
    and its last value, index keys come first. *)
Fixpoint normalize (v : json) : json :=
  match v with
  | JArr l => JArr (map normalize l)
  | JObj es =>
      JObj ((fix define (es : list (string * json))
                        (acc : list (string * json)) :=
               match es with
               | [] => acc
               | (k, x) :: rest => define rest (set k (normalize x) acc)
               end) es [])
  | other => other
  end.

(** The syntax tree of a whole text: one value, then nothing but blanks. *)
Definition parse_tree (s : string) : option json :=
  match parse_value (2 * String.length s + 2) s with
  | Some (v, rest) =>
      match skip_ws rest with
      | EmptyString => Some v
      | String _ _ => None
      end
  | None => None
  end.

Definition parse_text (s : string) : option json :=
  match parse_tree s with
  | Some v => Some (normalize v)
  | None => None
  end.

(** ** Exceptions

    A thrown value is an [Error] (with its class name and message), the
    structured-output failure of the model SDK, or a value that is not an
    [Error], of which only its [String(...)] form is observed. *)
Inductive thrown : Type :=
| JsError (name message : string)
| NoObjectGeneratedError (message : string) (cause_is_JSONParseError : bool)
                         (text : option string)
| NonError (string_form : string).

(** Outcome of a call: it returns, it throws, or the evaluation budget of
    the model ran out (the sources recurse on data supplied by a
    collaborator, so the recursion is bounded by a budget). *)
Inductive outcome (A : Type) : Type :=
| Returned (a : A)
| Thrown (e : thrown)
| OutOfFuel.
Arguments Returned {A} a.
Arguments Thrown {A} e.
Arguments OutOfFuel {A}.

Definition bind {A B : Type} (c : outcome A) (k : A -> outcome B)
  : outcome B :=
  match c with
  | Returned a => k a
  | Thrown e => Thrown e
  | OutOfFuel => OutOfFuel
  end.

(** [error instanceof Error ? error.message : String(error)]. *)
Definition error_message (e : thrown) : string :=
  match e with
  | JsError _ m => m
  | NoObjectGeneratedError m _ _ => m
  | NonError s => s
  end.

(** [JSON.parse(text)]. *)
Definition JSON_parse_text (s : string) : outcome json :=
  match parse_text s with
  | Some v => Returned v
  | None => Thrown (JsError "SyntaxError" "Unexpected token in JSON")
  end.

(** ** Promises and entry lists *)

(** [Promise.all]: the results in order when every promise is fulfilled;
    when one is rejected, a rejection (here that of the first rejected
    promise of the list). *)
Fixpoint Promise_all {A : Type} (l : list (outcome A)) : outcome (list A) :=
  match l with
  | [] => Returned []
  | p :: rest =>
      bind p (fun x => bind (Promise_all rest) (fun xs => Returned (x :: xs)))
  end.

(** [Object.fromEntries(entries)]. *)
Definition fromEntries {A : Type} (entries : list (string * A))
  : list (string * A) :=
  spread [] entries.

End Js.

Declare Scope js_scope.
Delimit Scope js_scope with js.
Notation "x <- c ;; k" := (Js.bind c (fun x => k))
  (at level 61, c at next level, right associativity) : js_scope.

(* ================================================================== *)
(** * Validation schemas (the part of zod the sources build) *)
(* ================================================================== *)

Module Zod.
Import Js.

(** How an object schema treats keys outside its shape: [z.object] strips
    them, [.strict()] rejects them, [.loose()] lets them through. *)
Inductive object_mode : Type := Strip | Strict | Loose.

Unset Elimination Schemes.
Inductive schema : Type :=
| ZString
| ZNumber
| ZBoolean
| ZUnknown
| ZEnum (labels : list string)
| ZArray (item : schema)
| ZUnion (alternatives : list schema)
| ZObject (shape : list (string * schema)) (mode : object_mode)
| ZNullable (inner : schema)
| ZDescribed (description : string) (inner : schema).
Set Elimination Schemes.

(** [schema.describe(d)]: the description of the schema becomes [d]. *)
Definition describe (d : string) (s : schema) : schema :=
  match s with
  | ZDescribed _ inner => ZDescribed d inner
  | _ => ZDescribed d s
  end.

(** [schema.nullable()]. *)
Definition nullable (s : schema) : schema := ZNullable s.

(** [z.object({}).loose()]. *)
Definition open_object : schema := ZObject [] Loose.

(** The description a schema carries, if any; a nullable wrapper shows the
    description of the schema it wraps. *)
Fixpoint description_of (s : schema) : option string :=
  match s with
  | ZDescribed d _ => Some d
  | ZNullable inner => description_of inner
  | _ => None
  end.

(** A schema is nullable when its outermost wrapper (under a description)
    is [ZNullable]. *)
Fixpoint is_nullable (s : schema) : bool :=
  match s with
  | ZNullable _ => true
  | ZDescribed _ inner => is_nullable inner
  | _ => false
  end.


(** [accepts s v]: parsing [v] with [s] succeeds; [None] stands for
    [undefined], an absent object key. *)
Fixpoint accepts (s : schema) (v : option json) {struct s} : bool :=
  match s with
  | ZString => match v with Some (JStr _) => true | _ => false end
  | ZNumber => match v with Some (JNum _) => true | _ => false end
  | ZBoolean => match v with Some (JBool _) => true | _ => false end
  | ZUnknown => true
  | ZEnum labels =>
      match v with
      | Some (JStr x) => existsb (String.eqb x) labels
      | _ => false
      end
  | ZArray item =>
      match v with
      | Some (JArr l) => forallb (fun x => accepts item (Some x)) l
      | _ => false
      end
  | ZUnion alternatives => existsb (fun a => accepts a v) alternatives
  | ZObject shape mode =>
      match v with
      | Some (JObj es) =>
          (fix fields (sh : list (string * schema)) : bool :=
             match sh with
             | [] => true
             | (k, fs) :: rest => accepts fs (lookup k es) && fields rest
             end) shape
          && match mode with
             | Strict => forallb (fun k => has_key k shape) (keys es)
             | Strip | Loose => true
             end
      | _ => false
      end
  | ZNullable inner =>
      match v with
      | Some JNull => true
      | _ => accepts inner v
      end
  | ZDescribed _ inner => accepts inner v
  end.

End Zod.

(* ================================================================== *)
(** * Agent tools: reconciliation, schema synthesis, resolution, execution *)
(* ================================================================== *)

Module AgentTools.
Import Js Zod.
Local Open Scope js_scope.

(** ** Declarations of the pieces framework used by the sources *)

Inductive PropertyType : Type :=
| SHORT_TEXT | LONG_TEXT | MARKDOWN | DATE_TIME | FILE | COLOR
| DROPDOWN | STATIC_DROPDOWN
| MULTI_SELECT_DROPDOWN | STATIC_MULTI_SELECT_DROPDOWN
| NUMBER | ARRAY | OBJECT | JSON | DYNAMIC | CHECKBOX | CUSTOM
| OAUTH2 | BASIC_AUTH | CUSTOM_AUTH | SECRET_TEXT.

Definition PropertyType_eqb (a b : PropertyType) : bool :=
  match a, b with
  | SHORT_TEXT, SHORT_TEXT | LONG_TEXT, LONG_TEXT | MARKDOWN, MARKDOWN
  | DATE_TIME, DATE_TIME | FILE, FILE | COLOR, COLOR
  | DROPDOWN, DROPDOWN | STATIC_DROPDOWN, STATIC_DROPDOWN
  | MULTI_SELECT_DROPDOWN, MULTI_SELECT_DROPDOWN
  | STATIC_MULTI_SELECT_DROPDOWN, STATIC_MULTI_SELECT_DROPDOWN
  | NUMBER, NUMBER | ARRAY, ARRAY | OBJECT, OBJECT | JSON, JSON
  | DYNAMIC, DYNAMIC | CHECKBOX, CHECKBOX | CUSTOM, CUSTOM
  | OAUTH2, OAUTH2 | BASIC_AUTH, BASIC_AUTH | CUSTOM_AUTH, CUSTOM_AUTH
  | SECRET_TEXT, SECRET_TEXT => true
  | _, _ => false
  end.

(** The string value of each member of the enumeration (every member is
    declared with its own name as value). *)
Definition PropertyType_name (t : PropertyType) : string :=
  match t with
  | SHORT_TEXT => "SHORT_TEXT" | LONG_TEXT => "LONG_TEXT"
  | MARKDOWN => "MARKDOWN" | DATE_TIME => "DATE_TIME" | FILE => "FILE"
  | COLOR => "COLOR" | DROPDOWN => "DROPDOWN"
  | STATIC_DROPDOWN => "STATIC_DROPDOWN"
  | MULTI_SELECT_DROPDOWN => "MULTI_SELECT_DROPDOWN"
  | STATIC_MULTI_SELECT_DROPDOWN => "STATIC_MULTI_SELECT_DROPDOWN"
  | NUMBER => "NUMBER" | ARRAY => "ARRAY" | OBJECT => "OBJECT"
  | JSON => "JSON" | DYNAMIC => "DYNAMIC" | CHECKBOX => "CHECKBOX"
  | CUSTOM => "CUSTOM" | OAUTH2 => "OAUTH2" | BASIC_AUTH => "BASIC_AUTH"
  | CUSTOM_AUTH => "CUSTOM_AUTH" | SECRET_TEXT => "SECRET_TEXT"
  end.

Record DropdownOption : Type := mkOption {
  label : string;
  value : json
}.

(** A property declaration, reduced to the members the sources read.
    [prop_options] is [property.options.options] when the declaration
    carries a static option list. *)
Record PieceProperty : Type := mkProperty {
  prop_type : PropertyType;
  prop_required : bool;
  prop_description : option string;
  prop_defaultValue : option json;
  prop_options : option (list DropdownOption)
}.

Record Action : Type := mkAction {
  action_description : string;
  action_props : list (string * PieceProperty)
}.

(** ** matchDropdownValue *)

(** The predicate of the inner [find] of the last rung:
    [k in optionObj && extractedObj[k] === optionObj[k]], on the own
    entries of the extracted value and the data members of the value of
    the option (a member without data is strictly equal to nothing the
    extracted value holds). *)
Definition shared_key (extractedObj optionObj : list (string * json))
  (k : string) : bool :=
  match lookup k optionObj with
  | Some ov =>
      match lookup k extractedObj with
      | Some ev => strict_equal ev ov
      | None => false
      end
  | None => false
  end.

(** The [for] loop over the options of the last rung; [None] when the
    loop ends without returning. *)
Fixpoint match_shared_key (extractedObj : list (string * json))
  (options : list DropdownOption) : option json :=
  match options with
  | [] => None
  | option :: rest =>
      if is_object (value option) then
        match find (shared_key extractedObj (data_members (value option)))
                   (keys extractedObj) with
        | Some sharedKey =>
            (* [if (sharedKey)]: the empty key is falsy *)
            if negb (String.eqb sharedKey "") then Some (value option)
            else match_shared_key extractedObj rest
        | None => match_shared_key extractedObj rest
        end
      else match_shared_key extractedObj rest
  end.

(** [typeof v === 'string' ? v : JSON.stringify(v)]. *)
Definition string_form (v : json) : string :=
  match v with
  | JStr s => s
  | _ => JSON_stringify v
  end.

Definition matchDropdownValue (extractedValue : json)
  (options : list DropdownOption) : json :=
  match options with
  | [] => extractedValue
  | first :: _ =>
      match find (fun o => String.eqb (JSON_stringify (value o))
                                      (JSON_stringify extractedValue))
                 options with
      | Some exact => value exact
      | None =>
          let extractedStr := string_form extractedValue in
          match find (fun o => String.eqb (toLowerCase (label o))
                                          (toLowerCase extractedStr))
                     options with
          | Some byLabel => value byLabel
          | None =>
              match find (fun o => includes (toLowerCase extractedStr)
                                            (toLowerCase (label o)))
                         options with
              | Some byLabelContains => value byLabelContains
              | None =>
                  match (if is_object extractedValue
                         then match_shared_key (own_entries extractedValue)
                                               options
                         else None) with
                  | Some v => v
                  | None => value first
                  end
              end
          end
      end
  end.

(** Equality of serializations as a test on values: the entries of two
    objects are compared in their order. *)
Fixpoint same_content (a b : json) {struct a} : bool :=
  match a, b with
  | JNull, JNull => true
  | JBool x, JBool y => Bool.eqb x y
  | JNum x, JNum y => Z.eqb x y
  | JStr x, JStr y => String.eqb x y
  | JArr l, JArr l' =>
      (fix items (l l' : list json) : bool :=
         match l, l' with
         | [], [] => true
         | x :: r, y :: r' => same_content x y && items r r'
         | _, _ => false
         end) l l'
  | JObj es, JObj es' =>
      (fix members (es es' : list (string * json)) : bool :=
         match es, es' with
         | [], [] => true
         | (k, x) :: r, (k', y) :: r' =>
             String.eqb k k' && same_content x y && members r r'
         | _, _ => false
         end) es es'
  | _, _ => false
  end.

(** ** The reconciliation ladder, as the specification words it

    First match wins: (1) exact structural equality between the extracted
    value and the value of an option, compared by content; (2) the
    extracted value equals, up to case, the label of an option; (3) the
    string form of the extracted value contains, up to case, the label of
    an option; (4) the extracted value and the value of an option are both
    keyed structures and share at least one key with an equal value;
    (5) the first option.  The ladder is for a non-empty option list. *)

(** Structural equality by content: two keyed structures are equal when
    they have the same keys with equal values, in whatever order; two
    sequences when they have equal items at every position. *)
Fixpoint structurally_equal (a b : json) {struct a} : bool :=
  match a, b with
  | JNull, JNull => true
  | JBool x, JBool y => Bool.eqb x y
  | JNum x, JNum y => Z.eqb x y
  | JStr x, JStr y => String.eqb x y
  | JArr l, JArr l' =>
      (fix items (l l' : list json) : bool :=
         match l, l' with
         | [], [] => true
         | x :: r, y :: r' => structurally_equal x y && items r r'
         | _, _ => false
         end) l l'
  | JObj es, JObj es' =>
      Nat.eqb (length es) (length es')
      && (fix members (es : list (string * json)) : bool :=
            match es with
            | [] => true
            | (k, x) :: r =>
                match lookup k es' with
                | Some y => structurally_equal x y
                | None => false
                end && members r
            end) es
  | _, _ => false
  end.

Definition rung_exact (extracted : json) (o : DropdownOption) : bool :=
  structurally_equal (value o) extracted.

(** A label is a text: only an extracted text can equal it. *)
Definition rung_label (extracted : json) (o : DropdownOption) : bool :=
  match extracted with
  | JStr s => String.eqb (toLowerCase s) (toLowerCase (label o))
  | _ => false
  end.

Definition rung_contains (extracted : json) (o : DropdownOption) : bool :=
  includes (toLowerCase (string_form extracted)) (toLowerCase (label o)).

(** Keyed structures are the objects. *)
Definition rung_shared (extracted : json) (o : DropdownOption) : bool :=
  match extracted, value o with
  | JObj es, JObj os =>
      existsb (fun kv =>
                 match lookup (fst kv) os with
                 | Some y => structurally_equal (snd kv) y
                 | None => false
                 end) es
  | _, _ => false
  end.

Definition first_of (rungs : list (DropdownOption -> bool))
  (options : list DropdownOption) : option DropdownOption :=
  fold_right
    (fun rung later =>
       match find rung options with
       | Some o => Some o
       | None => later
       end)
    None rungs.

Definition reconciliation_ladder (extracted : json)
  (options : list DropdownOption) : option json :=
  match options with
  | [] => None
  | first :: _ =>
      match first_of [rung_exact extracted; rung_label extracted;
                      rung_contains extracted; rung_shared extracted]
                     options with
      | Some o => Some (value o)
      | None => Some (value first)
      end
  end.

(** ** Operations, collaborators and results *)

Inductive FieldControlMode : Type :=
| AGENT_DECIDE | CHOOSE_YOURSELF | LEAVE_EMPTY.

Record PredefinedField : Type := mkField {
  field_mode : FieldControlMode;
  field_value : option json
}.

Record PredefinedInput : Type := mkPredefined {
  auth : option json;
  fields : list (string * PredefinedField)
}.

Record ExecuteToolOperation : Type := mkOperation {
  pieceName : string;
  pieceVersion : string;
  actionName : string;
  instruction : string;
  predefinedInput : option PredefinedInput
}.

(** The resolved-input accumulator, a [Record<string, unknown>]: a key may
    be present with the value [undefined], written [None]. *)
Definition resolved : Type := list (string * option json).

Record PropertyDetail : Type := mkDetail {
  detail_name : string;
  detail_type : PropertyType;
  detail_description : option string;
  detail_options : option (list DropdownOption);
  detail_defaultValue : option json
}.

(** The extraction prompt is a fixed template around four interpolated
    parts; the model keeps the parts.  The section of already filled values
    and the section of property details are left out of the text when they
    are empty. *)
Record Prompt : Type := mkPrompt {
  prompt_propertyNames : list string;
  prompt_instruction : string;
  prompt_existingValues : option resolved;
  prompt_propertyDetails : option (list PropertyDetail)
}.

(** One call of [generateText]: its prompt and the level schema. *)
Record ModelCall : Type := mkCall {
  call_prompt : Prompt;
  call_schema : schema
}.

Inductive ExecutionToolStatus : Type := SUCCESS | FAILED.

(** The step description handed to the flow executor. *)
Record PieceActionStep : Type := mkStep {
  step_name : string;
  step_displayName : string;
  step_input : resolved;
  step_actionName : string;
  step_pieceName : string;
  step_pieceVersion : string;
  step_propertySettings : list string;
  step_valid : bool
}.

(** What the runtime reports for a step; the status is the string value of
    a member of [StepOutputStatus]. *)
Record StepOutput : Type := mkStepOutput {
  so_output : option json;
  so_errorMessage : option string;
  so_status : string
}.

Definition StepOutputStatus_FAILED : string := "FAILED".

Record ExecuteToolResponse : Type := mkResponse {
  status : ExecutionToolStatus;
  output : option json;
  resolvedInput : resolved;
  errorMessage : option string
}.

(** A dynamic property answers with a map from sub-property names to
    declarations; [None] as an answer is a falsy or non-object [options],
    [None] as an entry is a value that is falsy, not an object or has no
    [type]. *)
Definition DynamicOptions : Type :=
  option (list (string * option PieceProperty)).

(** External collaborators: the piece loader, the dependency sorter, the
    two uses of [pieceHelper.executeProps] (option lists of dropdowns,
    property maps of dynamic properties), the language model behind
    [generateText], the platform's [JSON.parse] and the flow executor. *)
Record Collaborators : Type := mkCollaborators {
  getPieceAndActionOrThrow : string -> string -> string -> outcome Action;
  sortPropertiesByDependencies :
    list (string * PieceProperty) -> outcome (list (nat * list string));
  executeProps_dropdown :
    ExecuteToolOperation -> string -> resolved -> outcome (list DropdownOption);
  executeProps_dynamic :
    ExecuteToolOperation -> string -> resolved -> outcome DynamicOptions;
  generateText : Prompt -> schema -> outcome json;
  JSON_parse : string -> outcome json;
  handle :
    ExecuteToolOperation -> PieceActionStep -> outcome (list (string * StepOutput))
}.

(** A piece tool of the agent, as declared by the caller. *)
Record AgentPieceTool : Type := mkPieceTool {
  apt_toolName : string;
  apt_pieceName : string;
  apt_pieceVersion : string;
  apt_actionName : string;
  apt_predefinedInput : option PredefinedInput
}.

(** A tool as the model SDK takes it. *)
Record Tool : Type := mkAiTool {
  ai_name : string;
  ai_description : string;
  ai_inputSchema : schema;
  ai_execute : string -> outcome ExecuteToolResponse
}.

Definition TypeError (m : string) : thrown := JsError "TypeError" m.

Section Pipeline.

Variable C : Collaborators.

(** ** Option loading *)

Definition loadOptions (propertyName : string)
  (operation : ExecuteToolOperation) (input : resolved)
  : outcome (list DropdownOption) :=
  executeProps_dropdown C operation propertyName input.

Definition static_options (property : PieceProperty) : list DropdownOption :=
  match prop_options property with
  | Some l => l
  | None => []
  end.

Definition is_static_choice (t : PropertyType) : bool :=
  match t with
  | STATIC_DROPDOWN | STATIC_MULTI_SELECT_DROPDOWN => true
  | _ => false
  end.

(** The [try] of [loadDropdownLabels] turns every exception into the empty
    label list. *)
Definition loadDropdownLabels (propertyName : string)
  (property : PieceProperty) (operation : ExecuteToolOperation)
  (resolvedInput : resolved) : outcome (list string) :=
  let labels (options : list DropdownOption) :=
    filter (fun l => negb (String.eqb l "")) (map label options) in
  if is_static_choice (prop_type property)
  then Returned (labels (static_options property))
  else match loadOptions propertyName operation resolvedInput with
       | Returned options => Returned (labels options)
       | Thrown _ => Returned []
       | OutOfFuel => OutOfFuel
       end.

(** ** Schema synthesis *)

(** A description that is truthy. *)
Definition declared_description (d : option string) : option string :=
  match d with
  | Some s => if String.eqb s "" then None else Some s
  | None => None
  end.

Definition is_null (v : json) : bool :=
  match v with
  | JNull => true
  | _ => false
  end.

Definition is_JStr (x : string) (v : json) : bool :=
  match v with
  | JStr s => String.eqb s x
  | _ => false
  end.

(** The schema of one field of an object-schema descriptor. *)
Definition fieldSchema_of (requiredFields : list json) (fieldName : string)
  (fieldDef : json) : outcome schema :=
  match fieldDef with
  | JNull =>
      Thrown (TypeError "Cannot read properties of null (reading 'type')")
  | _ =>
      let base :=
        match lookup "type" (own_entries fieldDef) with
        | Some (JStr t) =>
            if String.eqb t "number" || String.eqb t "integer" then ZNumber
            else if String.eqb t "boolean" then ZBoolean
            else if String.eqb t "array" then ZArray ZUnknown
            else ZString
        | _ => ZString
        end in
      let described :=
        match lookup "description" (own_entries fieldDef) with
        | Some d => if truthy d then describe (string_form d) base else base
        | None => base
        end in
      Returned (if existsb (is_JStr fieldName) requiredFields
                then described else nullable described)
  end.

Fixpoint shape_of (requiredFields : list json)
  (properties : list (string * json)) (shape : list (string * schema))
  : outcome (list (string * schema)) :=
  match properties with
  | [] => Returned shape
  | (fieldName, fieldDef) :: rest =>
      fieldSchema <- fieldSchema_of requiredFields fieldName fieldDef ;;
      shape_of requiredFields rest (set fieldName fieldSchema shape)
  end.

(** [tryBuildSchemaFromDefault]; [Returned None] is the [null] result. *)
Definition tryBuildSchemaFromDefault (defaultValue : json)
  : outcome (option schema) :=
  if negb (is_object defaultValue) then Returned None
  else
    let schema := own_entries defaultValue in
    match lookup "type" schema, lookup "properties" schema with
    | Some (JStr t), Some properties =>
        if String.eqb t "object" && is_object properties then
          let requiredFields :=
            match lookup "required" schema with
            | Some (JArr l) => l
            | _ => []
            end in
          shape <- shape_of requiredFields (own_entries properties) [] ;;
          Returned (Some (ZObject shape Loose))
        else Returned None
    | _, _ => Returned None
    end.

Definition is_object_or_json (t : PropertyType) : bool :=
  match t with
  | OBJECT | JSON => true
  | _ => false
  end.

(** The loop of [buildDynamicSchema] over the discovered sub-properties;
    [synthesize] is [propertyToSchema] at the same operation and input. *)
Fixpoint dynamic_fields (synthesize : string -> PieceProperty -> outcome schema)
  (entries : list (string * option PieceProperty))
  (dynamicSchema : list (string * schema))
  : outcome (list (string * schema)) :=
  match entries with
  | [] => Returned dynamicSchema
  | (key, None) :: rest => dynamic_fields synthesize rest dynamicSchema
  | (key, Some value) :: rest =>
      schema <- synthesize key value ;;
      schema' <-
        match prop_defaultValue value with
        | Some dv =>
            if negb (is_null dv) && is_object_or_json (prop_type value)
            then
              schemaFromDefault <- tryBuildSchemaFromDefault dv ;;
              match schemaFromDefault with
              | Some s => Returned s
              | None =>
                  Returned (describe ("Expected structure: " ++ string_form dv)
                                     schema)
              end
            else Returned schema
        | None => Returned schema
        end ;;
      dynamic_fields synthesize rest (set key schema' dynamicSchema)
  end.

(** [buildDynamicSchema], over the synthesis of its sub-properties. *)
Definition buildDynamicSchema_with
  (synthesize : string -> PieceProperty -> outcome schema)
  (propertyName : string) (operation : ExecuteToolOperation)
  (resolvedInput : resolved) : outcome schema :=
  dynamicProperties <-
    executeProps_dynamic C operation propertyName resolvedInput ;;
  match dynamicProperties with
  | None => Returned open_object
  | Some entries =>
      if has_key "disabled" entries then Returned open_object
      else
        dynamicSchema <- dynamic_fields synthesize entries [] ;;
        Returned (ZObject dynamicSchema Loose)
  end.

(** The statements after the [switch] of [propertyToSchema]. *)
Definition post_process (property : PieceProperty) (schema : Zod.schema)
  : Zod.schema :=
  let described :=
    match declared_description (prop_description property) with
    | Some d => describe d schema
    | None => schema
    end in
  if prop_required property then described else nullable described.

(** [propertyToSchema].  A dynamic property synthesizes the schemas of the
    sub-properties its collaborator discovers, which may be dynamic again:
    [fuel] bounds that nesting. *)
Fixpoint propertyToSchema (fuel : nat) (propertyName : string)
  (property : PieceProperty) (operation : ExecuteToolOperation)
  (resolvedInput : resolved) {struct fuel} : outcome schema :=
  match fuel with
  | O => OutOfFuel
  | S fuel' =>
      match prop_type property with
      | SHORT_TEXT | LONG_TEXT | MARKDOWN | DATE_TIME | FILE | COLOR =>
          Returned (post_process property ZString)
      | DROPDOWN | STATIC_DROPDOWN =>
          optionsForSchema <-
            loadDropdownLabels propertyName property operation resolvedInput ;;
          Returned (post_process property
                      match optionsForSchema with
                      | _ :: _ => ZEnum optionsForSchema
                      | [] => ZUnion [ZString; ZNumber; open_object]
                      end)
      | MULTI_SELECT_DROPDOWN | STATIC_MULTI_SELECT_DROPDOWN =>
          Returned (post_process property
                      (ZUnion [ZArray ZString; ZArray open_object]))
      | NUMBER => Returned (post_process property ZNumber)
      | ARRAY => Returned (ZArray ZString)
      | OBJECT => Returned (post_process property open_object)
      | JSON => Returned (post_process property open_object)
      | DYNAMIC =>
          schema <-
            buildDynamicSchema_with
              (fun key value =>
                 propertyToSchema fuel' key value operation resolvedInput)
              propertyName operation resolvedInput ;;
          Returned (post_process property schema)
      | CHECKBOX => Returned (post_process property ZBoolean)
      | CUSTOM => Returned (post_process property ZString)
      | OAUTH2 | BASIC_AUTH | CUSTOM_AUTH | SECRET_TEXT =>
          Thrown (JsError "Error"
                    ("Unsupported property type: "
                       ++ PropertyType_name (prop_type property)))
      end
  end.

Definition buildDynamicSchema (fuel : nat) (propertyName : string)
  (operation : ExecuteToolOperation) (resolvedInput : resolved)
  : outcome schema :=
  buildDynamicSchema_with
    (fun key value => propertyToSchema fuel key value operation resolvedInput)
    propertyName operation resolvedInput.

(** ** Property details and the prompt *)

Definition buildPropertyDetail (propertyName : string)
  (property : PieceProperty) (operation : ExecuteToolOperation)
  (input : resolved) : outcome PropertyDetail :=
  let baseDetail (options : option (list DropdownOption)) :=
    mkDetail propertyName (prop_type property) (prop_description property)
             options (prop_defaultValue property) in
  match prop_type property with
  | STATIC_DROPDOWN | STATIC_MULTI_SELECT_DROPDOWN =>
      Returned (baseDetail (Some (static_options property)))
  | DROPDOWN | MULTI_SELECT_DROPDOWN =>
      options <- loadOptions propertyName operation input ;;
      Returned (baseDetail (Some options))
  | _ => Returned (baseDetail None)
  end.

Definition constructExtractionPrompt (instruction : string)
  (propertyToFill : list (string * schema))
  (propertyDetails : list PropertyDetail) (existingValues : resolved)
  : Prompt :=
  mkPrompt (keys propertyToFill) instruction
           match existingValues with
           | _ :: _ => Some existingValues
           | [] => None
           end
           match propertyDetails with
           | _ :: _ => Some propertyDetails
           | [] => None
           end.

(** ** resolveProperties *)

Definition skipTypes : list PropertyType :=
  [BASIC_AUTH; OAUTH2; CUSTOM_AUTH; CUSTOM; MARKDOWN].

(** The accumulator before the first level: the predefined [auth] when it
    is truthy, then the predefined fields the caller chose or left empty. *)
Definition seed (operation : ExecuteToolOperation) : resolved :=
  match predefinedInput operation with
  | None => []
  | Some predefined =>
      let withAuth : resolved :=
        match auth predefined with
        | Some a => if truthy a then [("auth", Some a)] else []
        | None => []
        end in
      fold_left
        (fun result entry =>
           match field_mode (snd entry) with
           | CHOOSE_YOURSELF => set (fst entry) (field_value (snd entry)) result
           | LEAVE_EMPTY => set (fst entry) None result
           | AGENT_DECIDE => result
           end)
        (fields predefined) withAuth
  end.

(** The loop over the properties of one level; it fills [propertyToFill]
    and [propertyDetails].  The declarations and the accumulator are
    objects whose prototype is [Object.prototype]: [action.props[name]]
    for a name that is not declared but inherited is a member without
    [type], and [name in result] holds for every inherited name, so a
    property of such a name is passed over, declared or not. *)
Fixpoint collect_level (fuel : nat) (operation : ExecuteToolOperation)
  (action : Action) (result : resolved) (properties : list string)
  (propertyToFill : list (string * schema))
  (propertyDetails : list PropertyDetail)
  : outcome (list (string * schema) * list PropertyDetail) :=
  match properties with
  | [] => Returned (propertyToFill, propertyDetails)
  | property :: rest =>
      match lookup property (action_props action) with
      | None =>
          if inherited property
          then collect_level fuel operation action result rest
                             propertyToFill propertyDetails
          else Thrown (TypeError
                         "Cannot read properties of undefined (reading 'type')")
      | Some propertyFromAction =>
          if existsb (PropertyType_eqb (prop_type propertyFromAction)) skipTypes
             || in_object property result
          then collect_level fuel operation action result rest
                             propertyToFill propertyDetails
          else
            propertySchema <-
              propertyToSchema fuel property propertyFromAction operation
                               result ;;
            propertyDetail <-
              buildPropertyDetail property propertyFromAction operation
                                  result ;;
            collect_level fuel operation action result rest
                          (set property propertySchema propertyToFill)
                          (propertyDetails ++ [propertyDetail])%list
      end
  end.

(** [generateText(...).catch(...)]: the one recovered failure is a
    [NoObjectGeneratedError] caused by a JSON parse error whose text starts
    with the json fence and ends with a fence. *)
Definition fence_json : string := "```json".
Definition fence : string := "```".

Definition recoverable (error : thrown) : option string :=
  match error with
  | NoObjectGeneratedError _ true (Some text) =>
      if startsWith text fence_json && endsWith text fence
      then Some text else None
  | _ => None
  end.

Definition strip_fences (text : string) : string :=
  replace (replace text fence_json "") fence "".

Definition generate (prompt : Prompt) (schemaObject : schema) : outcome json :=
  match generateText C prompt schemaObject with
  | Thrown error =>
      match recoverable error with
      | Some text => JSON_parse C (strip_fences text)
      | None => Thrown error
      end
  | r => r
  end.

(** [name in extracted]; the operator throws on a primitive.  On an object
    this is the test for an own key, which is the operator for every name
    that is no inherited member ([inherited]); the loop over a level only
    produces details with such names.  On an array the operator also finds
    [length] and the members arrays inherit: the statements about the loop
    are for extracted objects, or for names that are own keys. *)
Definition in_operator (name : string) (v : json) : outcome bool :=
  if is_object v then Returned (has_key name (own_entries v))
  else Thrown (TypeError
                 "Cannot use 'in' operator to search for a key in a primitive").

(** [extracted[name] = v] on an object or an array that has the key. *)
Definition assign (name : string) (v : json) (extracted : json) : json :=
  match extracted with
  | JObj es => JObj (set name v es)
  | JArr l => JArr (map snd (set name v (index_entries 0 l)))
  | other => other
  end.

(** The loop that passes the extracted values of choice properties through
    [matchDropdownValue]. *)
Fixpoint reconcile (propertyDetails : list PropertyDetail) (extracted : json)
  : outcome json :=
  match propertyDetails with
  | [] => Returned extracted
  | detail :: rest =>
      match detail_options detail with
      | Some ((_ :: _) as options) =>
          present <- in_operator (detail_name detail) extracted ;;
          if present : bool then
            match lookup (detail_name detail) (own_entries extracted) with
            | Some raw =>
                reconcile rest
                  (assign (detail_name detail)
                          (matchDropdownValue raw options) extracted)
            | None => reconcile rest extracted
            end
          else reconcile rest extracted
      | _ => reconcile rest extracted
      end
  end.

(** [{...result, ...extracted}]. *)
Definition merge (result : resolved) (extracted : json) : resolved :=
  spread result (map (fun kv => (fst kv, Some (snd kv))) (own_entries extracted)).

(** One iteration of the loop over the levels: the new accumulator and the
    model calls issued (none or one). *)
Definition resolve_level (fuel : nat) (operation : ExecuteToolOperation)
  (action : Action) (instruction : string) (result : resolved)
  (properties : list string) : outcome resolved * list ModelCall :=
  match collect_level fuel operation action result properties [] [] with
  | Returned (propertyToFill, propertyDetails) =>
      match propertyToFill with
      | [] => (Returned result, [])
      | _ :: _ =>
          let schemaObject := ZObject propertyToFill Strict in
          let extractionPrompt :=
            constructExtractionPrompt instruction propertyToFill
                                      propertyDetails result in
          (extracted <- generate extractionPrompt schemaObject ;;
           reconciled <- reconcile propertyDetails extracted ;;
           Returned (merge result reconciled),
           [mkCall extractionPrompt schemaObject])
      end
  | Thrown e => (Thrown e, [])
  | OutOfFuel => (OutOfFuel, [])
  end.

Fixpoint resolve_levels (fuel : nat) (operation : ExecuteToolOperation)
  (action : Action) (instruction : string)
  (levels : list (nat * list string)) (result : resolved)
  : outcome resolved * list ModelCall :=
  match levels with
  | [] => (Returned result, [])
  | (_, properties) :: rest =>
      match resolve_level fuel operation action instruction result
                          properties with
      | (Returned result', calls) =>
          let (final, calls') :=
            resolve_levels fuel operation action instruction rest result' in
          (final, (calls ++ calls')%list)
      | (stopped, calls) => (stopped, calls)
      end
  end.

Definition resolveProperties (fuel : nat)
  (depthToPropertyMap : list (nat * list string)) (instruction : string)
  (action : Action) (operation : ExecuteToolOperation)
  : outcome resolved * list ModelCall :=
  resolve_levels fuel operation action instruction depthToPropertyMap
                 (seed operation).

(** ** execute *)

Definition redaction_marker : json := JStr "Redacted".

Definition step_of (operation : ExecuteToolOperation)
  (resolvedInput : resolved) : PieceActionStep :=
  mkStep (actionName operation) (actionName operation) resolvedInput
         (actionName operation) (pieceName operation)
         (pieceVersion operation) (keys resolvedInput) true.

(** The body of the [try] block. *)
Definition execute_body (fuel : nat) (operation : ExecuteToolOperation)
  : outcome ExecuteToolResponse :=
  pieceAction <-
    getPieceAndActionOrThrow C (pieceName operation) (pieceVersion operation)
                             (actionName operation) ;;
  depthToPropertyMap <-
    sortPropertiesByDependencies C (action_props pieceAction) ;;
  resolvedInput <-
    fst (resolveProperties fuel depthToPropertyMap (instruction operation)
                           pieceAction operation) ;;
  steps <- handle C operation (step_of operation resolvedInput) ;;
  match lookup (actionName operation) steps with
  | None =>
      Thrown (TypeError
                "Cannot destructure property 'output' of undefined")
  | Some step =>
      Returned
        (mkResponse
           (if String.eqb (so_status step) StepOutputStatus_FAILED
            then FAILED else SUCCESS)
           (so_output step)
           (set "auth" (Some redaction_marker) resolvedInput)
           (so_errorMessage step))
  end.

(** The [catch] block. *)
Definition execute_catch (error : thrown) : ExecuteToolResponse :=
  mkResponse FAILED None []
             (Some ("Tool execution error: " ++ error_message error)).

Definition execute (fuel : nat) (operation : ExecuteToolOperation)
  : outcome ExecuteToolResponse :=
  match execute_body fuel operation with
  | Thrown error => Returned (execute_catch error)
  | r => r
  end.

(** ** agentTools.tools *)

(** The operation a tool runs on an instruction. *)
Definition operation_of (tool : AgentPieceTool) (instruction : string)
  : ExecuteToolOperation :=
  mkOperation (apt_pieceName tool) (apt_pieceVersion tool)
              (apt_actionName tool) instruction (apt_predefinedInput tool).

(** The callback of [tools.map]. *)
Definition piece_tool (fuel : nat) (tool : AgentPieceTool) : outcome Tool :=
  pieceAction <-
    getPieceAndActionOrThrow C (apt_pieceName tool) (apt_pieceVersion tool)
                             (apt_actionName tool) ;;
  Returned (mkAiTool (apt_toolName tool) (action_description pieceAction)
              (ZObject [("instruction",
                         describe "The instruction to the tool" ZString)]
                       Strip)
              (fun instruction =>
                 execute fuel (operation_of tool instruction))).

Definition tools (fuel : nat) (tools : list AgentPieceTool)
  : outcome (list (string * Tool)) :=
  piecesTools <- Promise_all (map (piece_tool fuel) tools) ;;
  Returned (spread [] (fromEntries (map (fun tool => (ai_name tool, tool))
                                        piecesTools))).

End Pipeline.

End AgentTools.

(* ================================================================== *)
(** * The agent output builder: the transcript of a run *)
(* ================================================================== *)

Module AgentOutputBuilder.
Import Js.
Local Open Scope js_scope.

Inductive AgentTaskStatus : Type :=
| TASK_IN_PROGRESS | TASK_COMPLETED | TASK_FAILED.

Inductive ToolCallStatus : Type := IN_PROGRESS | COMPLETED.

Inductive AgentToolType : Type := PIECE | FLOW | MCP.

Record PieceMetadata : Type := mkPieceMetadata {
  pm_pieceName : string;
  pm_pieceVersion : string;
  pm_actionName : string
}.

(** A declared tool; the members a kind of tool requires may be missing at
    run time, which the sources check with assertions. *)
Record AgentTool : Type := mkTool {
  tool_type : AgentToolType;
  tool_toolName : string;
  tool_pieceMetadata : option PieceMetadata;
  tool_externalFlowId : option string;
  tool_serverUrl : option string
}.

(** The members that depend on the kind of tool behind a call. *)
Inductive ToolCallKind : Type :=
| PieceCall (pieceName pieceVersion actionName : string)
| FlowCall (displayName externalFlowId : string)
| McpCall (displayName serverUrl : string).

Record ToolCallContentBlock : Type := mkToolCall {
  toolName : string;
  toolCallId : string;
  status : ToolCallStatus;
  input : json;
  output : option json;
  startTime : string;
  endTime : option string;
  kind : ToolCallKind
}.

Inductive AgentStepBlock : Type :=
| MarkdownBlock (markdown : string)
| ToolCallBlock (tool : ToolCallContentBlock).

(** The variables the builder closes over. *)
Record Builder : Type := mkBuilder {
  task_status : AgentTaskStatus;
  steps : list AgentStepBlock;
  structuredOutput : option (list (string * json));
  prompt : string
}.

Definition agentOutputBuilder (prompt : string) : Builder :=
  mkBuilder TASK_IN_PROGRESS [] None prompt.

(** Modelled from the spec: [assertNotNullOrUndefined] of the shared
    package is not among the sources; a call on an absent value fails hard,
    by throwing an error that names the asserted field. *)
Definition assertNotNullOrUndefined {A : Type} (v : option A)
  (fieldName : string) : outcome A :=
  match v with
  | Some a => Returned a
  | None => Thrown (JsError "Error" (fieldName ++ " is null or undefined"))
  end.

Definition setStatus (s : AgentTaskStatus) (b : Builder) : Builder :=
  mkBuilder s (steps b) (structuredOutput b) (prompt b).

Definition setStructuredOutput (o : list (string * json)) (b : Builder)
  : Builder :=
  mkBuilder (task_status b) (steps b) (Some o) (prompt b).

(** [[...(structuredOutput.errors || []), errorDetails]]. *)
Definition appendErrorToStructuredOutput (errorDetails : json) (b : Builder)
  : outcome Builder :=
  match structuredOutput b with
  | None => Returned b
  | Some so =>
      previous <-
        match lookup "errors" so with
        | None => Returned []
        | Some e =>
            if negb (truthy e) then Returned []
            else match e with
                 | JArr l => Returned l
                 | JStr str => Returned (map snd (char_entries 0 str))
                 | _ => Thrown (JsError "TypeError" "value is not iterable")
                 end
        end ;;
      Returned (mkBuilder (task_status b) (steps b)
                  (Some (set "errors" (JArr (previous ++ [errorDetails])) so))
                  (prompt b))
  end.

Fixpoint append_to_last (markdown : string) (l : list AgentStepBlock)
  : list AgentStepBlock :=
  match l with
  | [] => [MarkdownBlock markdown]
  | [MarkdownBlock m] => [MarkdownBlock (m ++ markdown)]
  | [ToolCallBlock t] => [ToolCallBlock t; MarkdownBlock markdown]
  | x :: rest => x :: append_to_last markdown rest
  end.

Definition addMarkdown (markdown : string) (b : Builder) : Builder :=
  mkBuilder (task_status b) (append_to_last markdown (steps b))
            (structuredOutput b) (prompt b).

Definition fail (message : option string) (b : Builder) : outcome Builder :=
  let failed := setStatus TASK_FAILED b in
  match message with
  | None => Returned failed
  | Some m =>
      appendErrorToStructuredOutput (JObj [("message", JStr m)])
                                    (addMarkdown m failed)
  end.

(** ** Tool calls *)

Definition AgentToolType_eqb (a b : AgentToolType) : bool :=
  match a, b with
  | PIECE, PIECE | FLOW, FLOW | MCP, MCP => true
  | _, _ => false
  end.

Definition findMatchingTool (toolName : string) (tools : list AgentTool)
  : option AgentTool :=
  match find (fun tool => String.eqb (tool_toolName tool) toolName) tools with
  | Some exactMatch => Some exactMatch
  | None =>
      find (fun tool =>
              AgentToolType_eqb (tool_type tool) MCP
              && endsWith toolName ("_" ++ tool_toolName tool))
           tools
  end.

(** The members every kind of record shares, as [startToolCall] sets them. *)
Definition baseTool (now toolName toolCallId : string) (input : json)
  (kind : ToolCallKind) : ToolCallContentBlock :=
  mkToolCall toolName toolCallId IN_PROGRESS input None now None kind.

Definition getToolMetadata (now toolName toolCallId : string) (input : json)
  (tools : list AgentTool) : outcome ToolCallContentBlock :=
  tool <-
    assertNotNullOrUndefined (findMatchingTool toolName tools)
      ("Tool " ++ toolName ++ " not found in agent tools: ["
         ++ join ", " (map tool_toolName tools) ++ "]") ;;
  match tool_type tool with
  | PIECE =>
      pieceMetadata <-
        assertNotNullOrUndefined (tool_pieceMetadata tool)
                                 "Piece metadata is required" ;;
      Returned (baseTool now toolName toolCallId input
                  (PieceCall (pm_pieceName pieceMetadata)
                             (pm_pieceVersion pieceMetadata)
                             (pm_actionName pieceMetadata)))
  | FLOW =>
      externalFlowId <-
        assertNotNullOrUndefined (tool_externalFlowId tool)
                                 "Flow ID is required" ;;
      Returned (baseTool now toolName toolCallId input
                  (FlowCall (tool_toolName tool) externalFlowId))
  | MCP =>
      serverUrl <-
        assertNotNullOrUndefined (tool_serverUrl tool)
                                 "Mcp server URL is required" ;;
      let mcpToolDisplayName :=
        if endsWith toolName ("_" ++ tool_toolName tool)
        then slice_to toolName
               (String.length toolName
                  - (String.length (tool_toolName tool) + 1))
        else toolName in
      Returned (baseTool now toolName toolCallId input
                  (McpCall mcpToolDisplayName serverUrl))
  end.

(** [now] is the value of [new Date().toISOString()] at the call. *)
Definition startToolCall (now toolName toolCallId : string) (input : json)
  (agentTools : list AgentTool) (b : Builder) : outcome Builder :=
  metadata <- getToolMetadata now toolName toolCallId input agentTools ;;
  Returned (mkBuilder (task_status b) (steps b ++ [ToolCallBlock metadata])
                      (structuredOutput b) (prompt b)).

(** The predicate of [findIndex] in [finishToolCall] and [failToolCall]. *)
Definition is_call (id : string) (block : AgentStepBlock) : bool :=
  match block with
  | ToolCallBlock t => String.eqb (toolCallId t) id
  | MarkdownBlock _ => false
  end.

(** [steps.findIndex(p)]; [None] is the result [-1]. *)
Fixpoint findIndex {A : Type} (p : A -> bool) (l : list A) : option nat :=
  match l with
  | [] => None
  | x :: rest =>
      if p x then Some O
      else match findIndex p rest with
           | Some i => Some (S i)
           | None => None
           end
  end.

(** [steps[i] = x] for an index inside the array. *)
Fixpoint replace_at {A : Type} (i : nat) (x : A) (l : list A) : list A :=
  match l, i with
  | [], _ => []
  | _ :: rest, O => x :: rest
  | y :: rest, S i' => y :: replace_at i' x rest
  end.

(** The block [steps[toolIdx]], cast to a tool call; [None] when the
    index is [-1]. *)
Definition tool_at (toolIdx : option nat) (l : list AgentStepBlock)
  : option ToolCallContentBlock :=
  match toolIdx with
  | Some i =>
      match nth_error l i with
      | Some (ToolCallBlock t) => Some t
      | _ => None
      end
  | None => None
  end.

Definition complete (now : string) (o : json) (tool : ToolCallContentBlock)
  : ToolCallContentBlock :=
  mkToolCall (toolName tool) (toolCallId tool) COMPLETED (input tool)
             (Some o) (startTime tool) (Some now) (kind tool).

(** The statements shared by [finishToolCall] and [failToolCall]. *)
Definition complete_call (now id : string) (o : json) (b : Builder)
  : outcome Builder :=
  let toolIdx := findIndex (is_call id) (steps b) in
  tool <- assertNotNullOrUndefined (tool_at toolIdx (steps b))
                                   "Last block must be a tool call" ;;
  match toolIdx with
  | Some i =>
      Returned (mkBuilder (task_status b)
                  (replace_at i (ToolCallBlock (complete now o tool)) (steps b))
                  (structuredOutput b) (prompt b))
  | None => Returned b
  end.

Definition finishToolCall (now toolCallId : string) (output : json)
  (b : Builder) : outcome Builder :=
  complete_call now toolCallId output b.

(** The output of a failed call: [{ status: ExecutionToolStatus.FAILED }]. *)
Definition failure_output : json := JObj [("status", JStr "FAILED")].

Definition failToolCall (now toolCallId : string) (b : Builder)
  : outcome Builder :=
  complete_call now toolCallId failure_output b.

Definition build (b : Builder) : Builder := b.

(** The ids of the tool-call blocks of a transcript, in order. *)
Fixpoint call_ids (l : list AgentStepBlock) : list string :=
  match l with
  | [] => []
  | ToolCallBlock t :: rest => toolCallId t :: call_ids rest
  | MarkdownBlock _ :: rest => call_ids rest
  end.

(** Worked transcript: one declared piece tool, called twice under the
    same call id. *)
Definition send_tool : AgentTool :=
  mkTool PIECE "send" (Some (mkPieceMetadata "mail" "1.0.0" "send_mail"))
         None None.

Definition first_call : ToolCallContentBlock :=
  mkToolCall "send" "call-1" IN_PROGRESS (JObj [("to", JStr "ann")]) None
             "09:00" None (PieceCall "mail" "1.0.0" "send_mail").

Definition second_call : ToolCallContentBlock :=
  mkToolCall "send" "call-1" IN_PROGRESS (JObj [("to", JStr "bob")]) None
             "09:02" None (PieceCall "mail" "1.0.0" "send_mail").

(** ** Views of a transcript *)

(** No two markdown blocks follow each other. *)
Fixpoint coalesced (l : list AgentStepBlock) : bool :=
  match l with
  | [] => true
  | MarkdownBlock _ :: rest =>
      match rest with
      | MarkdownBlock _ :: _ => false
      | _ => coalesced rest
      end
  | ToolCallBlock _ :: rest => coalesced rest
  end.

(** The text of the markdown blocks of a transcript, in order. *)
Fixpoint markdown_text (l : list AgentStepBlock) : string :=
  match l with
  | [] => ""
  | MarkdownBlock m :: rest => m ++ markdown_text rest
  | ToolCallBlock _ :: rest => markdown_text rest
  end.

(** The tool-call blocks of a transcript, in order. *)
Fixpoint tool_calls (l : list AgentStepBlock) : list ToolCallContentBlock :=
  match l with
  | [] => []
  | ToolCallBlock t :: rest => t :: tool_calls rest
  | MarkdownBlock _ :: rest => tool_calls rest
  end.

(** A tool answers to a name when it is registered under it, or when it is
    an MCP tool and the name ends with an underscore and the name of the
    tool. *)
Definition exact_match (toolName : string) (tool : AgentTool) : bool :=
  String.eqb (tool_toolName tool) toolName.

Definition mcp_match (toolName : string) (tool : AgentTool) : bool :=
  AgentToolType_eqb (tool_type tool) MCP
  && endsWith toolName ("_" ++ tool_toolName tool).

(** The member a kind of tool must carry. *)
Definition has_required_member (tool : AgentTool) : bool :=
  match tool_type tool with
  | PIECE =>
      match tool_pieceMetadata tool with Some _ => true | None => false end
  | FLOW =>
      match tool_externalFlowId tool with Some _ => true | None => false end
  | MCP =>
      match tool_serverUrl tool with Some _ => true | None => false end
  end.

(** An MCP server registered under its own name. *)
Definition zendesk_tool : AgentTool :=
  mkTool MCP "zendesk" None None (Some "https://mcp.example/zendesk").

(** A builder with a structured output that holds no error yet, and one
    that holds one. *)
Definition reporting : Builder :=
  mkBuilder TASK_IN_PROGRESS [MarkdownBlock "Sending."]
            (Some [("sent", JBool false)]) "mail ann".

Definition reporting_again : Builder :=
  mkBuilder TASK_IN_PROGRESS [MarkdownBlock "Sending."]
            (Some [("sent", JBool false);
                   ("errors", JArr [JStr "timeout"])]) "mail ann".

End AgentOutputBuilder.

(* ================================================================== *)
(** * The call-flow action: the properties of its payload *)
(* ================================================================== *)

Module CallFlow.
Import Js Zod AgentTools.

(** [castedFlowValue.exampleData?.sampleData]; [None] is [undefined]. *)
Definition sampleData_of (castedFlowValue : json) : option json :=
  match lookup "exampleData" (own_entries castedFlowValue) with
  | Some JNull | None => None
  | Some exampleData => lookup "sampleData" (own_entries exampleData)
  end.

(** The [defaultValue] member of the payload declaration:
    [...(sampleData != null ? { defaultValue: sampleData } : {})]. *)
Definition payload_default (sampleData : option json) : option json :=
  match sampleData with
  | Some JNull | None => None
  | Some d => Some d
  end.

(** [mode === 'simple']. *)
Definition is_simple (mode : option json) : bool :=
  match mode with
  | Some (JStr m) => String.eqb m "simple"
  | _ => false
  end.

(** The [props] function of the [flowProps] property of the call-flow
    action, on the values of the properties [flow] and [mode]. *)
Definition flowProps_props (flow mode : option json)
  : list (string * PieceProperty) :=
  match flow with
  | None | Some JNull => []
  | Some castedFlowValue =>
      let sampleData := sampleData_of castedFlowValue in
      if is_simple mode then
        [("payload",
          mkProperty OBJECT true None (payload_default sampleData) None)]
      else
        [("payload",
          mkProperty JSON true
                     (Some "Provide the data to be passed to the flow")
                     (payload_default sampleData) None)]
  end.

(** The answer of the engine for a dynamic property whose [props]
    function returned [fields]. *)
Definition discovered (fields : list (string * PieceProperty))
  : DynamicOptions :=
  Some (map (fun kv => (fst kv, Some (snd kv))) fields).

(** The schema of the payload before its default value is looked at. *)
Definition payload_base (mode : option json) : schema :=
  if is_simple mode then open_object
  else ZDescribed "Provide the data to be passed to the flow" open_object.

End CallFlow.

(* ================================================================== *)
(** * Worked inputs *)
(* ================================================================== *)

Module Worked.
Import Js Zod AgentTools.

(** The option list of the specification's reconciliation examples. *)
Definition cities : list DropdownOption :=
  [mkOption "Paris" (JStr "PAR"); mkOption "London" (JStr "LON")].

(** An extracted object and an option that share the empty key. *)
Definition plain_option : DropdownOption := mkOption "First" (JStr "zzz").
Definition keyed_option : DropdownOption :=
  mkOption "Second" (JObj [("", JNum 1); ("y", JNum 3)]).
Definition empty_key_extracted : json := JObj [("", JNum 1); ("x", JNum 2)].

(** Collaborators for worked runs: the loader answers [action], the sorter
    puts every declared property in one level, dropdowns have no loaded
    options, dynamic properties discover nothing, the model answers with
    [answer] and the runtime with [run]. *)
Definition collaborators_with (action : outcome Action)
  (answer : Prompt -> schema -> outcome json)
  (run : PieceActionStep -> outcome (list (string * StepOutput)))
  : Collaborators :=
  mkCollaborators (fun _ _ _ => action)
                  (fun props => Returned [(0%nat, keys props)])
                  (fun _ _ _ => Returned [])
                  (fun _ _ _ => Returned None)
                  answer JSON_parse_text (fun _ step => run step).

(** An action with a free-text note and a static dropdown of cities. *)
Definition note_action : Action :=
  mkAction "Leave a note"
    [("note", mkProperty SHORT_TEXT true None None None);
     ("city", mkProperty STATIC_DROPDOWN true None None (Some cities))].

Definition note_operation : ExecuteToolOperation :=
  mkOperation "notes" "0.1.0" "leave_note" "leave a note about paris" None.

Definition succeeded (o : json) : PieceActionStep ->
  outcome (list (string * StepOutput)) :=
  fun step => Returned [(step_name step, mkStepOutput (Some o) None "SUCCEEDED")].

Definition note_answer : json :=
  JObj [("note", JStr "paris"); ("city", JStr "paris")].

Definition note_world : Collaborators :=
  collaborators_with (Returned note_action)
                     (fun _ _ => Returned note_answer)
                     (succeeded JNull).

(** The same operation with a predefined connection secret. *)
Definition secret : json := JStr "sk-live-1234".

Definition secret_operation : ExecuteToolOperation :=
  mkOperation "notes" "0.1.0" "leave_note" "leave a note about paris"
              (Some (mkPredefined (Some secret) [])).

(** A loader that does not find the piece. *)
Definition lost_world : Collaborators :=
  collaborators_with (Thrown (JsError "Error" "piece notes not found"))
                     (fun _ _ => Returned note_answer)
                     (succeeded JNull).

(** A runtime whose action returns the connection it was given. *)
Definition echo_world : Collaborators :=
  collaborators_with (Returned note_action)
    (fun _ _ => Returned note_answer)
    (fun step =>
       Returned [(step_name step,
                  mkStepOutput
                    match lookup "auth" (step_input step) with
                    | Some v => v
                    | None => None
                    end
                    None "SUCCEEDED")]).

(** An object-schema descriptor, as a default value. *)
Definition descriptor : json :=
  JObj [("type", JStr "object");
        ("properties",
         JObj [("amount", JObj [("type", JStr "number")]);
               ("memo", JObj [("type", JStr "string")])]);
        ("required", JArr [JStr "amount"])].

Definition payload_property (t : PropertyType) (default : json)
  : PieceProperty :=
  mkProperty t true None (Some default) None.

(** A dynamic property that discovers one payload sub-property, whose
    default value is [default]. *)
Definition flow_world (t : PropertyType) (default : json) : Collaborators :=
  mkCollaborators (fun _ _ _ => Returned (mkAction "Call a flow" []))
                  (fun props => Returned [(0%nat, keys props)])
                  (fun _ _ _ => Returned [])
                  (fun _ _ _ =>
                     Returned (Some [("payload",
                                      Some (payload_property t default))]))
                  (fun _ _ => Returned (JObj []))
                  JSON_parse_text
                  (fun _ _ => Returned []).

Definition flowProps : PieceProperty :=
  mkProperty DYNAMIC true None None None.

(** An optional array property with a description, and a number property
    declared with the same flags. *)
Definition tags_property : PieceProperty :=
  mkProperty ARRAY false (Some "Tags to attach") None None.

Definition count_property : PieceProperty :=
  mkProperty NUMBER false (Some "Tags to attach") None None.

(** An action that declares a secret text among its properties. *)
Definition token_action : Action :=
  mkAction "Call a service"
    [("token", mkProperty SECRET_TEXT true None None None);
     ("query", mkProperty SHORT_TEXT true None None None)].

Definition token_world : Collaborators :=
  collaborators_with (Returned token_action)
                     (fun _ _ => Returned (JObj [("query", JStr "paris")]))
                     (succeeded JNull).

Definition token_operation : ExecuteToolOperation :=
  mkOperation "service" "0.1.0" "call" "look up paris" None.

(** The predefined input fixes the city; the model's answer cannot be
    parsed by the SDK because it is wrapped in a json fence, and the fenced
    object names the city again. *)
Definition chosen_operation : ExecuteToolOperation :=
  mkOperation "notes" "0.1.0" "leave_note" "leave a note about berlin"
    (Some (mkPredefined None
             [("city", mkField CHOOSE_YOURSELF (Some (JStr "LON")))])).

(** A model that answers with the note alone. *)
Definition polite_world : Collaborators :=
  collaborators_with (Returned note_action)
                     (fun _ _ => Returned (JObj [("note", JStr "hi")]))
                     (succeeded JNull).

Definition newline : string := String (ascii_of_nat 10) EmptyString.

Definition fenced_text : string :=
  "```json" ++ newline
  ++ "{" ++ quote "city" ++ ":" ++ quote "Berlin" ++ ","
  ++ quote "note" ++ ":" ++ quote "hi" ++ "}"
  ++ newline ++ "```".

(** The two failures of the specification's recovery examples. *)
Definition fenced_a1 : string :=
  "```json" ++ newline ++ "{" ++ quote "a" ++ ":1}" ++ newline ++ "```".

Definition failing_with (text : string) : Collaborators :=
  collaborators_with (Returned note_action)
    (fun _ _ =>
       Thrown (NoObjectGeneratedError "No object generated" true (Some text)))
    (succeeded JNull).

Definition fenced_world : Collaborators :=
  collaborators_with (Returned note_action)
    (fun _ _ =>
       Thrown (NoObjectGeneratedError "No object generated" true
                                      (Some fenced_text)))
    (succeeded JNull).

(** A dropdown whose options cannot be loaded. *)
Definition region_property : PieceProperty :=
  mkProperty DROPDOWN true None None None.

Definition region_action : Action :=
  mkAction "Pick a region" [("region", region_property)].

Definition offline : thrown := JsError "Error" "options unavailable".

Definition offline_world : Collaborators :=
  mkCollaborators (fun _ _ _ => Returned region_action)
                  (fun props => Returned [(0%nat, keys props)])
                  (fun _ _ _ => Thrown offline)
                  (fun _ _ _ => Returned None)
                  (fun _ _ => Returned (JObj []))
                  JSON_parse_text
                  (fun _ _ => Returned []).

Definition city_property : PieceProperty :=
  mkProperty STATIC_DROPDOWN true None None (Some cities).

(** A descriptor that defines a field as [null]. *)
Definition null_descriptor : json :=
  JObj [("type", JStr "object");
        ("properties", JObj [("amount", JNull)])].

(** A callable flow whose trigger carries a descriptor as sample data. *)
Definition callable_flow : json :=
  JObj [("externalId", JStr "flow-1");
        ("exampleData", JObj [("sampleData", descriptor)])].

Definition callFlow_world : Collaborators :=
  mkCollaborators (fun _ _ _ => Returned (mkAction "Call a flow" []))
                  (fun props => Returned [(0%nat, keys props)])
                  (fun _ _ _ => Returned [])
                  (fun _ _ _ =>
                     Returned (CallFlow.discovered
                                 (CallFlow.flowProps_props (Some callable_flow)
                                                  (Some (JStr "simple")))))
                  (fun _ _ => Returned (JObj []))
                  JSON_parse_text
                  (fun _ _ => Returned []).

(** A single fenced block whose object holds a fence inside a text. *)
Definition noted_inner : string :=
  newline ++ "{" ++ quote "note" ++ ":" ++ quote "use ```code``` here" ++ "}"
  ++ newline.

Definition noted_block : string := "```json" ++ noted_inner ++ "```".

(** An answer with two fenced blocks. *)
Definition two_blocks : string :=
  newline ++ "{}" ++ newline ++ "```" ++ newline
  ++ "```json" ++ newline ++ "{}" ++ newline.

Definition note_tool : AgentPieceTool :=
  mkPieceTool "leave_note_tool" "notes" "0.1.0" "leave_note" None.

(** A static multi-select over the cities. *)
Definition stops_property : PieceProperty :=
  mkProperty STATIC_MULTI_SELECT_DROPDOWN true None None (Some cities).

End Worked.

(* ================================================================== *)
(** * Predicates used in the statements *)
(* ================================================================== *)

Module Statements.
Import Js Zod AgentTools.

(** A property of a level is fillable when it is declared, its type is not
    skipped and it is not in the accumulator: besides what was there, the
    loop over a level puts only such properties in [propertyToFill] and in
    [propertyDetails]. *)
Definition fillable (action : Action) (result : resolved)
  (properties : list string) (name : string) : Prop :=
  In name properties
  /\ has_key name result = false
  /\ exists property,
       lookup name (action_props action) = Some property
       /\ existsb (PropertyType_eqb (prop_type property)) skipTypes = false.

(** A model call asks for [name] when the name is a key of the call's
    schema, one of the property names of its prompt, or the name of one of
    the property details of its prompt. *)
Definition asks_for (call : ModelCall) (name : string) : Prop :=
  In name (prompt_propertyNames (call_prompt call))
  \/ (exists shape mode,
        call_schema call = ZObject shape mode /\ has_key name shape = true)
  \/ (exists details d,
        prompt_propertyDetails (call_prompt call) = Some details
        /\ In d details /\ detail_name d = name).

(** The object a call ended with (the model's output or the object
    recovered from a fenced text) honours the schema of the call when it
    is an object whose keys are all keys of the schema. *)
Definition honours_schema (C : Collaborators) (call : ModelCall) : Prop :=
  forall extracted,
    generate C (call_prompt call) (call_schema call) = Returned extracted ->
    exists entries shape mode,
      extracted = JObj entries
      /\ call_schema call = ZObject shape mode
      /\ forall k, has_key k entries = true -> has_key k shape = true.



(** What may follow a value in a text: not a character that would extend
    a number literal. *)
Definition ends_number (rest : string) : Prop :=
  match rest with
  | EmptyString => True
  | String c _ => is_digit c = false /\ continues_number rest = false
  end.

(** The first character of a printed value. *)
Definition value_start (c : ascii) : bool :=
  is_digit c || Ascii.eqb c "-" || Ascii.eqb c dquote || Ascii.eqb c "["
  || Ascii.eqb c "{" || Ascii.eqb c "n" || Ascii.eqb c "t" || Ascii.eqb c "f".

(** A printed value is read back, whatever follows it that does not
    extend a number. *)
Definition reads_back (v : json) : Prop :=
  forall fuel rest,
    ends_number rest ->
    (String.length (JSON_stringify v) < fuel)%nat ->
    parse_value fuel (JSON_stringify v ++ rest) = Some (v, rest).

(** The text of the members of an object, as [JSON_stringify] joins them. *)
Definition member_text (kv : string * json) : string :=
  quote (fst kv) ++ ":" ++ JSON_stringify (snd kv).

(** The last character of a text. *)
Fixpoint last_char (s : string) : option ascii :=
  match s with
  | EmptyString => None
  | String c s' =>
      match last_char s' with
      | Some x => Some x
      | None => Some c
      end
  end.

(** [consumed s rest]: [rest] is what is left of [s] after a prefix whose
    last character is not a backquote. *)
Definition consumed (s rest : string) : Prop :=
  exists pre c, s = pre ++ String c rest /\ c <> "`"%char.

Definition suffix (s rest : string) : Prop := exists pre, s = pre ++ rest.

(** Collaborators that answer every call: none of their answers is the
    exhausted budget. *)
Definition responsive (C : Collaborators) : Prop :=
  (forall piece version action,
      getPieceAndActionOrThrow C piece version action <> OutOfFuel)
  /\ (forall props, sortPropertiesByDependencies C props <> OutOfFuel)
  /\ (forall operation name input,
        executeProps_dropdown C operation name input <> OutOfFuel)
  /\ (forall operation name input,
        executeProps_dynamic C operation name input <> OutOfFuel)
  /\ (forall prompt schema, generateText C prompt schema <> OutOfFuel)
  /\ (forall text, JSON_parse C text <> OutOfFuel)
  /\ (forall operation step, handle C operation step <> OutOfFuel).

(** An action without dynamic property. *)
Definition static_action (action : Action) : Prop :=
  forall name property,
    lookup name (action_props action) = Some property ->
    prop_type property <> DYNAMIC.

(** The labels a static dropdown enumerates in its schema: the labels of
    its options that are not empty. *)
Definition choice_labels (property : PieceProperty) : list string :=
  filter (fun l => negb (String.eqb l ""))
         (map label (static_options property)).

End Statements.

(* ================================================================== *)
(** * Facts about objects as ordered entry lists *)
(* ================================================================== *)

Import Js Zod AgentTools CallFlow Statements.
Local Open Scope js_scope.

Section ObjectFacts.

Context {A : Type}.
Implicit Types (k : string) (v : A) (m base extra : list (string * A)).

Lemma has_key_lookup k m :
  has_key k m = true <-> exists v, lookup k m = Some v.
Proof.
  unfold has_key. destruct (lookup k m) as [v|].
  - split; [eauto | reflexivity].
  - split; [discriminate | intros [v H]; discriminate].
Qed.

Lemma has_key_false_lookup k m : has_key k m = false <-> lookup k m = None.
Proof.
  unfold has_key. destruct (lookup k m); split; congruence.
Qed.

Lemma has_key_In k m : has_key k m = true <-> In k (keys m).
Proof.
  induction m as [|[k' v'] rest IH]; simpl.
  - unfold has_key; simpl. split; [discriminate | tauto].
  - unfold has_key in *; simpl. destruct (String.eqb_spec k k') as [->|Hne].
    + split; auto.
    + rewrite IH. split; [auto | intros [H|H]; [congruence | exact H]].
Qed.

Lemma lookup_app k m m' :
  lookup k (m ++ m') =
  match lookup k m with Some v => Some v | None => lookup k m' end.
Proof.
  induction m as [|[k' v'] rest IH]; simpl; [reflexivity|].
  destruct (String.eqb k k'); [reflexivity | exact IH].
Qed.

Lemma keys_update k v m : keys (update k v m) = keys m.
Proof.
  induction m as [|[k' v'] rest IH]; simpl; [reflexivity|].
  destruct (String.eqb k k'); simpl; [reflexivity | now rewrite IH].
Qed.

Lemma lookup_update_same k v m :
  has_key k m = true -> lookup k (update k v m) = Some v.
Proof.
  unfold has_key.
  induction m as [|[k' v'] rest IH]; simpl; [discriminate|].
  destruct (String.eqb k k') eqn:E; simpl; rewrite E; auto.
Qed.

Lemma lookup_update_other k k' v m :
  k' <> k -> lookup k' (update k v m) = lookup k' m.
Proof.
  intros Hne.
  induction m as [|[k0 v0] rest IH]; simpl; [reflexivity|].
  destruct (String.eqb_spec k k0) as [->|Hk]; simpl.
  - apply String.eqb_neq in Hne. now rewrite Hne.
  - destruct (String.eqb k' k0); [reflexivity | exact IH].
Qed.

Lemma lookup_insert_index_same i k v m :
  has_key k m = false -> lookup k (insert_index i k v m) = Some v.
Proof.
  unfold has_key.
  induction m as [|[k' v'] rest IH]; simpl.
  - now rewrite String.eqb_refl.
  - destruct (String.eqb k k') eqn:E; [discriminate|]. intros H.
    destruct (array_index k') as [j|]; [destruct (j <? i)%Z|]; simpl;
      rewrite ?E, ?String.eqb_refl; auto.
Qed.

Lemma lookup_insert_index_other i k k' v m :
  k' <> k -> lookup k' (insert_index i k v m) = lookup k' m.
Proof.
  intros Hne. apply String.eqb_neq in Hne.
  induction m as [|[k0 v0] rest IH]; simpl.
  - now rewrite Hne.
  - destruct (array_index k0) as [j|]; [destruct (j <? i)%Z|]; simpl;
      rewrite ?Hne; try reflexivity.
    destruct (String.eqb k' k0); [reflexivity | exact IH].
Qed.

Lemma lookup_set_same k v m : lookup k (set k v m) = Some v.
Proof.
  unfold set. destruct (has_key k m) eqn:E.
  - now apply lookup_update_same.
  - destruct (array_index k).
    + now apply lookup_insert_index_same.
    + rewrite lookup_app. apply has_key_false_lookup in E. rewrite E.
      simpl. now rewrite String.eqb_refl.
Qed.

Lemma lookup_set_other k k' v m :
  k' <> k -> lookup k' (set k v m) = lookup k' m.
Proof.
  intros Hne. unfold set. destruct (has_key k m).
  - now apply lookup_update_other.
  - destruct (array_index k).
    + now apply lookup_insert_index_other.
    + rewrite lookup_app. destruct (lookup k' m); [reflexivity|].
      simpl. apply String.eqb_neq in Hne. now rewrite Hne.
Qed.

Lemma has_key_set k k' v m :
  has_key k' (set k v m) = String.eqb k' k || has_key k' m.
Proof.
  unfold has_key at 1. destruct (String.eqb_spec k' k) as [->|Hne].
  - now rewrite lookup_set_same.
  - rewrite lookup_set_other by assumption. reflexivity.
Qed.

Lemma set_present k v m : has_key k m = true -> set k v m = update k v m.
Proof. unfold set. now intros ->. Qed.

Lemma lookup_spread k base extra :
  lookup k (spread base extra) =
  match lookup k (rev extra) with
  | Some v => Some v
  | None => lookup k base
  end.
Proof.
  unfold spread. revert base.
  induction extra as [|[k' v'] rest IH]; intros base; simpl; [reflexivity|].
  rewrite IH, lookup_app. destruct (lookup k (rev rest)); [reflexivity|].
  simpl. destruct (String.eqb_spec k k') as [->|Hne].
  - apply lookup_set_same.
  - now apply lookup_set_other.
Qed.

Lemma lookup_rev_none k m : lookup k m = None -> lookup k (rev m) = None.
Proof.
  induction m as [|[k' v'] rest IH]; simpl; [reflexivity|].
  destruct (String.eqb k k') eqn:E; [discriminate|]. intros H.
  rewrite lookup_app, (IH H). simpl. now rewrite E.
Qed.

Lemma has_key_spread_base k base extra :
  has_key k base = true -> has_key k (spread base extra) = true.
Proof.
  intros H. apply has_key_lookup in H as [v Hv].
  apply has_key_lookup. rewrite lookup_spread, Hv.
  destruct (lookup k (rev extra)); eauto.
Qed.

Lemma lookup_spread_absent k base extra :
  has_key k extra = false ->
  lookup k (spread base extra) = lookup k base.
Proof.
  intros H. apply has_key_false_lookup in H.
  now rewrite lookup_spread, (lookup_rev_none _ _ H).
Qed.

End ObjectFacts.

(* ================================================================== *)
(** * Facts about strings *)
(* ================================================================== *)

Lemma startsWith_empty s : startsWith s "" = true.
Proof. destruct s; reflexivity. Qed.

Lemma startsWith_app s rest : startsWith (s ++ rest) s = true.
Proof.
  induction s as [|c s IH]; simpl; [apply startsWith_empty|].
  now rewrite Ascii.eqb_refl.
Qed.

Lemma drop_app s rest : drop (String.length s) (s ++ rest) = rest.
Proof. induction s as [|c s IH]; simpl; auto. Qed.

Lemma string_length_app (s t : string) :
  String.length (s ++ t) = (String.length s + String.length t)%nat.
Proof. induction s as [|c s IH]; simpl; auto. Qed.

Lemma endsWith_app s suffix : endsWith (s ++ suffix) suffix = true.
Proof.
  unfold endsWith. rewrite string_length_app.
  replace (String.length s + String.length suffix - String.length suffix)%nat
    with (String.length s) by lia.
  rewrite drop_app, String.eqb_refl, Bool.andb_true_r.
  apply Nat.leb_le. lia.
Qed.

Lemma replace_unfold s pat rep :
  replace s pat rep =
  if startsWith s pat then rep ++ drop (String.length pat) s
  else match s with
       | EmptyString => EmptyString
       | String c s' => String c (replace s' pat rep)
       end.
Proof. destruct s; reflexivity. Qed.

Lemma replace_prefix s rest : replace (s ++ rest) s "" = rest.
Proof. rewrite replace_unfold, startsWith_app. apply drop_app. Qed.

Lemma append_assoc (a b c : string) : (a ++ b) ++ c = a ++ (b ++ c).
Proof. induction a as [|x a IH]; simpl; [reflexivity | now rewrite IH]. Qed.

Lemma append_empty_r (a : string) : a ++ "" = a.
Proof. induction a as [|x a IH]; simpl; [reflexivity | now rewrite IH]. Qed.

(* ================================================================== *)
(** * JSON texts: parsing what stringify prints *)
(* ================================================================== *)

Section RoundTrip.

Lemma span_digits_stop rest :
  ends_number rest -> span_digits rest = (EmptyString, rest).
Proof.
  destruct rest as [|c r]; [reflexivity|]. simpl. now intros [-> _].
Qed.

Lemma span_digits_uint d rest :
  ends_number rest ->
  span_digits (NilEmpty.string_of_uint d ++ rest)
  = (NilEmpty.string_of_uint d, rest).
Proof.
  intros Hrest.
  induction d; simpl; try (rewrite IHd; reflexivity).
  destruct rest as [|c r]; [reflexivity|].
  simpl in *. destruct Hrest as [-> _]. reflexivity.
Qed.

Lemma to_uint_no_leading_zero p :
  forall d, Pos.to_uint p <> Decimal.D0 d.
Proof.
  intros d Hd.
  assert (Hnorm : Decimal.unorm (Pos.to_uint p) = Pos.to_uint p).
  { rewrite <- DecimalPos.Unsigned.to_of, DecimalPos.Unsigned.of_to.
    reflexivity. }
  rewrite Hd, unorm_D0 in Hnorm.
  destruct d as [| | | | | | | | | |];
    try (match type of Hnorm with
         | Decimal.unorm ?x = _ =>
             assert (Hx : x <> Decimal.Nil) by discriminate;
             pose proof (nb_digits_unorm x Hx) as Hn
         end;
         rewrite Hnorm in Hn; simpl in Hn; lia).
  exact (Unsigned.to_uint_nonzero p Hd).
Qed.

Lemma parse_unsigned_pos p rest :
  ends_number rest ->
  parse_unsigned (NilEmpty.string_of_uint (Pos.to_uint p) ++ rest)
  = Some (Z.pos p, rest).
Proof.
  intros Hrest. unfold parse_unsigned.
  rewrite (span_digits_uint _ _ Hrest).
  assert (Hval : digits_value (NilEmpty.string_of_uint (Pos.to_uint p))
                 = Some (Z.pos p)).
  { unfold digits_value. rewrite NilEmpty.usu. unfold Z.of_uint.
    now rewrite DecimalPos.Unsigned.of_to. }
  assert (Hcont : continues_number rest = false).
  { destruct rest; [reflexivity | apply Hrest]. }
  pose proof (to_uint_no_leading_zero p) as Hlead.
  pose proof (Unsigned.to_uint_nonnil p) as Hnil.
  destruct (Pos.to_uint p) as [|d|d|d|d|d|d|d|d|d|d]; try congruence;
    try (exfalso; apply (Hlead d); reflexivity);
    cbn [NilEmpty.string_of_uint] in *; cbv beta iota;
    (replace (Ascii.eqb _ "0") with false by reflexivity);
    cbn [andb]; rewrite Hcont, Hval; reflexivity.
Qed.

Lemma string_of_Z_starts n :
  exists c s, string_of_Z n = String c s
              /\ (is_digit c = true \/ c = "-"%char).
Proof.
  unfold string_of_Z. destruct n as [|p|p]; simpl.
  - do 2 eexists. split; [reflexivity | left; reflexivity].
  - pose proof (Unsigned.to_uint_nonnil p) as Hnil.
    unfold NilZero.string_of_uint.
    destruct (Pos.to_uint p); try congruence; simpl;
      do 2 eexists; (split; [reflexivity | left; reflexivity]).
  - do 2 eexists. split; [reflexivity | right; reflexivity].
Qed.

Lemma NilZero_string_of_uint_pos p :
  NilZero.string_of_uint (Pos.to_uint p)
  = NilEmpty.string_of_uint (Pos.to_uint p).
Proof.
  pose proof (Unsigned.to_uint_nonnil p) as Hnil.
  unfold NilZero.string_of_uint. destruct (Pos.to_uint p); congruence.
Qed.

Lemma parse_number_string_of_Z n rest :
  ends_number rest ->
  parse_number (string_of_Z n ++ rest) = Some (n, rest).
Proof.
  intros Hrest. unfold string_of_Z.
  assert (Hcont : continues_number rest = false).
  { destruct rest; [reflexivity | apply Hrest]. }
  destruct n as [|p|p]; cbn [Z.to_int NilZero.string_of_int].
  - change (parse_number (String "0" rest) = Some (0%Z, rest)).
    unfold parse_number.
    replace (Ascii.eqb "0" "-") with false by reflexivity.
    unfold parse_unsigned.
    change (span_digits (String "0" rest))
      with (let (ds, r) := span_digits rest in (String "0"%char ds, r)).
    rewrite (span_digits_stop _ Hrest). cbv beta iota.
    replace (Ascii.eqb "0" "0" && negb (String.eqb "" "")) with false
      by reflexivity.
    rewrite Hcont. reflexivity.
  - rewrite NilZero_string_of_uint_pos.
    pose proof (parse_unsigned_pos p rest Hrest) as Hp.
    pose proof (to_uint_no_leading_zero p) as Hlead.
    pose proof (Unsigned.to_uint_nonnil p) as Hnil.
    unfold parse_number.
    destruct (Pos.to_uint p) as [|d|d|d|d|d|d|d|d|d|d]; try congruence;
      cbn [NilEmpty.string_of_uint append] in *;
      (replace (Ascii.eqb _ "-") with false by reflexivity);
      exact Hp.
  - rewrite NilZero_string_of_uint_pos.
    cbn [append]. unfold parse_number.
    replace (Ascii.eqb "-" "-") with true by reflexivity.
    rewrite (parse_unsigned_pos p rest Hrest). reflexivity.
Qed.


Lemma parse_chars_escape_char c rest :
  parse_chars (escape_char c ++ rest) = cons_char c (parse_chars rest).
Proof.
  destruct c as [[] [] [] [] [] [] [] []]; reflexivity.
Qed.

Lemma parse_chars_escape s rest :
  parse_chars (escape s ++ String dquote rest) = Some (s, rest).
Proof.
  induction s as [|c s IH]; [reflexivity|].
  cbn [escape]. rewrite append_assoc, parse_chars_escape_char, IH.
  reflexivity.
Qed.

Lemma quote_app s rest :
  quote s ++ rest = String dquote (escape s ++ String dquote rest).
Proof.
  unfold quote. cbn [append]. now rewrite append_assoc.
Qed.

Lemma stringify_starts v :
  exists c s, JSON_stringify v = String c s /\ value_start c = true.
Proof.
  destruct v as [|[]|n|s|l|es]; try (do 2 eexists; split; reflexivity).
  destruct (string_of_Z_starts n) as (c & s & Hs & [Hd| ->]).
  - exists c, s. split; [exact Hs|]. unfold value_start. now rewrite Hd.
  - exists "-"%char, s. split; [exact Hs | reflexivity].
Qed.

Lemma stringify_nonempty v : (1 <= String.length (JSON_stringify v))%nat.
Proof.
  destruct (stringify_starts v) as (c & s & -> & _). simpl. lia.
Qed.

Lemma expect_value_start closing c s :
  value_start c = true ->
  (closing = "]"%char \/ closing = "}"%char) ->
  expect closing (String c s) = None.
Proof.
  intros Hc Hclosing. unfold expect.
  destruct c as [[] [] [] [] [] [] [] []]; try discriminate;
    destruct Hclosing as [-> | ->]; reflexivity.
Qed.

Lemma parse_value_number fuel c s :
  is_digit c = true \/ c = "-"%char ->
  parse_value (S fuel) (String c s)
  = match parse_number (String c s) with
    | Some (n, rest) => Some (JNum n, rest)
    | None => None
    end.
Proof.
  intros Hc.
  destruct c as [[] [] [] [] [] [] [] []];
    destruct Hc as [Hc|Hc]; try discriminate; reflexivity.
Qed.


(** Induction over JSON values, through arrays and objects. *)
Lemma json_induction (P : json -> Prop) :
  P JNull -> (forall b, P (JBool b)) -> (forall n, P (JNum n)) ->
  (forall s, P (JStr s)) ->
  (forall l, Forall P l -> P (JArr l)) ->
  (forall es, Forall (fun kv => P (snd kv)) es -> P (JObj es)) ->
  forall v, P v.
Proof.
  intros Hnull Hbool Hnum Hstr Harr Hobj.
  fix go 1. intros [|b|n|s|l|es].
  - exact Hnull.
  - apply Hbool.
  - apply Hnum.
  - apply Hstr.
  - apply Harr. induction l as [|x r IH]; constructor; [apply go | exact IH].
  - apply Hobj. induction es as [|kv r IH]; constructor;
      [apply go | exact IH].
Qed.

Lemma skip_ws_not_ws c s : is_ws c = false -> skip_ws (String c s) = String c s.
Proof. intros H. simpl. now rewrite H. Qed.

Lemma parse_elements_S fuel s :
  parse_elements (S fuel) s
  = match parse_value fuel s with
    | Some (v, rest) =>
        match skip_ws rest with
        | String c rest' =>
            if Ascii.eqb c "," then
              match parse_elements fuel rest' with
              | Some (vs, r) => Some (v :: vs, r)
              | None => None
              end
            else if Ascii.eqb c "]" then Some ([v], rest')
            else None
        | EmptyString => None
        end
    | None => None
    end.
Proof. reflexivity. Qed.

Lemma parse_members_S fuel s :
  parse_members (S fuel) s
  = match expect dquote s with
    | Some afterQuote =>
        match parse_chars afterQuote with
        | Some (k, afterKey) =>
            match expect ":" afterKey with
            | Some afterColon =>
                match parse_value fuel afterColon with
                | Some (v, rest) =>
                    match skip_ws rest with
                    | String c rest' =>
                        if Ascii.eqb c "," then
                          match parse_members fuel rest' with
                          | Some (es, r) => Some ((k, v) :: es, r)
                          | None => None
                          end
                        else if Ascii.eqb c "}" then Some ([(k, v)], rest')
                        else None
                    | EmptyString => None
                    end
                | None => None
                end
            | None => None
            end
        | None => None
        end
    | None => None
    end.
Proof. reflexivity. Qed.

Lemma parse_value_array fuel c s :
  value_start c = true ->
  parse_value (S fuel) (String "[" (String c s))
  = match parse_elements fuel (String c s) with
    | Some (l, rest) => Some (JArr l, rest)
    | None => None
    end.
Proof.
  intros Hc.
  change (parse_value (S fuel) (String "[" (String c s)))
    with (match expect "]" (String c s) with
          | Some rest => Some (JArr [], rest)
          | None =>
              match parse_elements fuel (String c s) with
              | Some (l, rest) => Some (JArr l, rest)
              | None => None
              end
          end).
  rewrite (expect_value_start "]" c s Hc); auto.
Qed.

Lemma parse_value_object fuel s :
  parse_value (S fuel) (String "{" (String dquote s))
  = match parse_members fuel (String dquote s) with
    | Some (es, rest) => Some (JObj es, rest)
    | None => None
    end.
Proof. reflexivity. Qed.

Lemma join_cons2 sep a b l :
  join sep (a :: b :: l) = a ++ sep ++ join sep (b :: l).
Proof. reflexivity. Qed.

Lemma parse_elements_printed l :
  forall x fuel rest,
    Forall reads_back (x :: l) ->
    (String.length (join "," (map JSON_stringify (x :: l))) + 1 < fuel)%nat ->
    parse_elements fuel
      (join "," (map JSON_stringify (x :: l)) ++ String "]" rest)
    = Some (x :: l, rest).
Proof.
  induction l as [|y l IH]; intros x fuel rest Hall Hfuel;
    destruct fuel as [|fuel]; try lia;
    inversion Hall as [|? ? Hx Hrest]; subst; rewrite parse_elements_S.
  - cbn [map join] in *. rewrite (Hx fuel (String "]" rest)).
    + rewrite skip_ws_not_ws by reflexivity. reflexivity.
    + split; reflexivity.
    + lia.
  - cbn [map] in *. rewrite join_cons2 in *.
    rewrite !string_length_app in Hfuel. cbn [String.length] in Hfuel.
    pose proof (stringify_nonempty x) as Hlen.
    rewrite !append_assoc. cbn [append].
    rewrite (Hx fuel); [|split; reflexivity|lia].
    rewrite skip_ws_not_ws by reflexivity. cbv beta iota.
    rewrite Ascii.eqb_refl.
    pose proof (IH y fuel rest Hrest) as IH'. cbn [map] in IH'.
    rewrite IH'; [reflexivity | lia].
Qed.


Lemma expect_here c s : is_ws c = false -> expect c (String c s) = Some s.
Proof.
  intros H. unfold expect. rewrite (skip_ws_not_ws _ _ H).
  now rewrite Ascii.eqb_refl.
Qed.

Lemma member_text_app k v rest :
  member_text (k, v) ++ rest
  = String dquote (escape k ++ String dquote
                     (String ":" (JSON_stringify v ++ rest))).
Proof.
  unfold member_text. cbn [fst snd].
  rewrite append_assoc, quote_app. cbn [append]. reflexivity.
Qed.

Lemma member_text_length k v :
  (String.length (JSON_stringify v) + 3 <= String.length (member_text (k, v)))%nat.
Proof.
  unfold member_text. cbn [fst snd]. rewrite !string_length_app.
  unfold quote. cbn [String.length]. rewrite string_length_app.
  cbn [String.length]. lia.
Qed.

Lemma parse_members_printed es :
  forall kv fuel rest,
    Forall (fun kv => reads_back (snd kv)) (kv :: es) ->
    (String.length (join "," (map member_text (kv :: es))) + 1 < fuel)%nat ->
    parse_members fuel
      (join "," (map member_text (kv :: es)) ++ String "}" rest)
    = Some (kv :: es, rest).
Proof.
  induction es as [|kv' es IH]; intros [k v] fuel rest Hall Hfuel;
    destruct fuel as [|fuel]; try lia;
    inversion Hall as [|? ? Hx Hrest]; subst; cbn [snd] in Hx;
    rewrite parse_members_S.
  - cbn [map join] in *. pose proof (member_text_length k v) as Hlen.
    rewrite member_text_app, expect_here by reflexivity.
    rewrite parse_chars_escape, expect_here by reflexivity.
    rewrite (Hx fuel (String "}" rest)); [|split; reflexivity|lia].
    rewrite skip_ws_not_ws by reflexivity. reflexivity.
  - cbn [map] in *. rewrite join_cons2 in *.
    rewrite !string_length_app in Hfuel. cbn [String.length] in Hfuel.
    pose proof (member_text_length k v) as Hlen.
    rewrite append_assoc, member_text_app, expect_here by reflexivity.
    rewrite parse_chars_escape, expect_here by reflexivity.
    cbn [append].
    rewrite (Hx fuel); [|split; reflexivity|lia].
    rewrite skip_ws_not_ws by reflexivity. cbv beta iota.
    rewrite Ascii.eqb_refl.
    pose proof (IH kv' fuel rest Hrest) as IH'. cbn [map] in IH'.
    rewrite IH'; [reflexivity | lia].
Qed.


Lemma join_starts sep a l :
  exists tail, join sep (a :: l) = a ++ tail.
Proof.
  destruct l as [|b l].
  - exists EmptyString. cbn [join]. clear.
    induction a as [|c a IH]; simpl; [reflexivity | now rewrite <- IH].
  - eexists. apply join_cons2.
Qed.

Lemma parse_value_string fuel s :
  parse_value (S fuel) (String dquote s)
  = match parse_chars s with
    | Some (str, rest) => Some (JStr str, rest)
    | None => None
    end.
Proof. reflexivity. Qed.

Lemma stringify_array l :
  JSON_stringify (JArr l) = "[" ++ join "," (map JSON_stringify l) ++ "]".
Proof. reflexivity. Qed.

Lemma stringify_object es :
  JSON_stringify (JObj es) = "{" ++ join "," (map member_text es) ++ "}".
Proof. reflexivity. Qed.

Theorem printed_value_reads_back : forall v, reads_back v.
Proof.
  induction v using json_induction; intros fuel rest Hrest Hfuel;
    (destruct fuel as [|fuel]; [inversion Hfuel|]).
  - destruct rest; reflexivity.
  - destruct b, rest; reflexivity.
  - cbn [JSON_stringify].
    destruct (string_of_Z_starts n) as (c & s & Hs & Hc).
    pose proof (parse_number_string_of_Z n rest Hrest) as Hnum.
    rewrite Hs in Hnum |- *. cbn [append] in Hnum |- *.
    rewrite (parse_value_number fuel c _ Hc), Hnum. reflexivity.
  - cbn [JSON_stringify]. rewrite quote_app, parse_value_string.
    now rewrite parse_chars_escape.
  - destruct l as [|x l]; [destruct rest; reflexivity|].
    rewrite stringify_array in *.
    rewrite !string_length_app in Hfuel. cbn [String.length] in Hfuel.
    rewrite !append_assoc. cbn [append].
    destruct (join_starts "," (JSON_stringify x) (map JSON_stringify l))
      as [tail Htail].
    destruct (stringify_starts x) as (c & sx & Hsx & Hc).
    pose proof (parse_elements_printed l x fuel rest H) as Hel.
    cbn [map] in Hel, Hfuel |- *.
    assert (Hshape : exists s', join "," (JSON_stringify x :: map JSON_stringify l)
                         ++ String "]" rest = String c s').
    { rewrite Htail, Hsx. cbn [append]. eauto. }
    destruct Hshape as [s' Hs']. rewrite Hs' in *.
    rewrite (parse_value_array fuel c s' Hc), Hel; [reflexivity | lia].
  - destruct es as [|[k x] es]; [destruct rest; reflexivity|].
    rewrite stringify_object in *.
    rewrite !string_length_app in Hfuel. cbn [String.length] in Hfuel.
    rewrite !append_assoc. cbn [append].
    pose proof (parse_members_printed es (k, x) fuel rest H) as Hmem.
    destruct (join_starts "," (member_text (k, x)) (map member_text es))
      as [tail Htail].
    cbn [map] in Hmem, Hfuel |- *.
    assert (Hshape : exists s', join "," (member_text (k, x) :: map member_text es)
                         ++ String "}" rest = String dquote s').
    { rewrite Htail. unfold member_text, quote. cbn [append fst]. eauto. }
    destruct Hshape as [s' Hs']. rewrite Hs' in *.
    rewrite parse_value_object, Hmem; [reflexivity | lia].
Qed.

End RoundTrip.


(** [JSON.parse] reads back the syntax tree of what [JSON.stringify]
    prints. *)
Theorem parse_tree_stringify v : parse_tree (JSON_stringify v) = Some v.
Proof.
  unfold parse_tree.
  pose proof (printed_value_reads_back v
                (2 * String.length (JSON_stringify v) + 2) "" I) as H.
  rewrite append_empty_r in H. rewrite H; [reflexivity | lia].
Qed.

Corollary JSON_parse_stringify v :
  JSON_parse_text (JSON_stringify v) = Returned (normalize v).
Proof.
  unfold JSON_parse_text, parse_text. now rewrite parse_tree_stringify.
Qed.

(** Two values with the same serialization are the same value. *)
Corollary JSON_stringify_injective a b :
  JSON_stringify a = JSON_stringify b -> a = b.
Proof.
  intros H. pose proof (parse_tree_stringify a) as Ha.
  rewrite H, parse_tree_stringify in Ha. congruence.
Qed.

Lemma same_content_refl a : same_content a a = true.
Proof.
  induction a using json_induction; simpl;
    try reflexivity.
  - apply Bool.eqb_reflx.
  - apply Z.eqb_refl.
  - apply String.eqb_refl.
  - induction H as [|x l Hx Hl IH]; [reflexivity|]. now rewrite Hx, IH.
  - induction H as [|[k x] l Hx Hl IH]; [reflexivity|].
    simpl in Hx. now rewrite String.eqb_refl, Hx, IH.
Qed.

Lemma same_content_eq a : forall b, same_content a b = true -> a = b.
Proof.
  induction a using json_induction; intros [] Hs; simpl in Hs;
    try discriminate; try reflexivity.
  - f_equal. now apply Bool.eqb_prop.
  - f_equal. now apply Z.eqb_eq.
  - f_equal. now apply String.eqb_eq.
  - f_equal. revert items Hs.
    induction H as [|x l Hx Hl IH]; intros [|y r] Hs;
      try discriminate; [reflexivity|].
    apply Bool.andb_true_iff in Hs as [Hxy Hr].
    f_equal; [now apply Hx | now apply IH].
  - f_equal. revert entries Hs.
    induction H as [|[k x] l Hx Hl IH]; intros [|[k' y] r] Hs;
      try discriminate; [reflexivity|].
    apply Bool.andb_true_iff in Hs as [Hs Hr].
    apply Bool.andb_true_iff in Hs as [Hk Hxy].
    apply String.eqb_eq in Hk. simpl in Hx.
    f_equal; [f_equal; [exact Hk | now apply Hx] | now apply IH].
Qed.

(** Comparing serializations, as [matchDropdownValue] does, is comparing
    contents. *)
Lemma stringify_eqb_same_content a b :
  String.eqb (JSON_stringify a) (JSON_stringify b) = same_content a b.
Proof.
  destruct (same_content a b) eqn:Hs.
  - apply same_content_eq in Hs as ->. apply String.eqb_refl.
  - apply String.eqb_neq. intros H.
    apply JSON_stringify_injective in H as ->.
    now rewrite same_content_refl in Hs.
Qed.

(* ================================================================== *)
(** * The value reconciler *)
(* ================================================================== *)

(** C1 (the ladder misses a shared empty key).  The extracted object, with
    the empty key at 1 and the key x at 2, matches neither option by
    content, by label or by label containment; the second option is a keyed
    structure sharing the empty key with the equal value 1, so the ladder
    of the specification
    returns its value.  [matchDropdownValue] tests the shared key it found
    for truthiness, the empty key is falsy, and the first option's value is
    returned instead.  With the shared key renamed to [k] both agree. *)
Theorem matchDropdownValue_empty_shared_key :
  let options := [Worked.plain_option; Worked.keyed_option] in
  shared_key (own_entries Worked.empty_key_extracted)
             (own_entries (value Worked.keyed_option)) "" = true
  /\ reconciliation_ladder Worked.empty_key_extracted options
     = Some (value Worked.keyed_option)
  /\ matchDropdownValue Worked.empty_key_extracted options
     = value Worked.plain_option
  /\ matchDropdownValue (JObj [("k", JNum 1); ("x", JNum 2)])
       [Worked.plain_option;
        mkOption "Second" (JObj [("k", JNum 1); ("y", JNum 3)])]
     = JObj [("k", JNum 1); ("y", JNum 3)].
Proof. repeat split. Qed.

(** ** The ladder, on text answers *)

Lemma find_ext {A : Type} (p q : A -> bool) l :
  (forall x, p x = q x) -> find p l = find q l.
Proof.
  intros H. induction l as [|x l IH]; simpl; [reflexivity|].
  now rewrite H, IH.
Qed.

Lemma structurally_equal_text v s :
  structurally_equal v (JStr s) = same_content v (JStr s).
Proof. destruct v; reflexivity. Qed.

Lemma find_never {A : Type} (l : list A) : find (fun _ => false) l = None.
Proof. induction l; simpl; auto. Qed.

(** On an extracted text, [matchDropdownValue] is the ladder of the
    specification: the first option of the first rung that matches, and
    the first option when no rung does.  The extracted text and the labels
    are ASCII texts, on which folding case is what [toLowerCase] does; the
    values of the options are arbitrary. *)
Theorem matchDropdownValue_is_ladder s options :
  ascii_text s = true ->
  Forall (fun o => ascii_text (label o) = true) options ->
  options <> [] ->
  reconciliation_ladder (JStr s) options
  = Some (matchDropdownValue (JStr s) options).
Proof.
  intros _ _ Hne. destruct options as [|first rest]; [congruence|].
  unfold reconciliation_ladder, matchDropdownValue, first_of.
  cbn [fold_right string_form is_object].
  rewrite (find_ext (rung_exact (JStr s))
             (fun o => String.eqb (JSON_stringify (value o))
                                  (JSON_stringify (JStr s))))
    by (intros o; unfold rung_exact;
        now rewrite structurally_equal_text, stringify_eqb_same_content).
  destruct (find _ (first :: rest)) as [exact|]; [reflexivity|].
  rewrite (find_ext (rung_label (JStr s))
             (fun o => String.eqb (toLowerCase (label o)) (toLowerCase s)))
    by (intros o; unfold rung_label; apply String.eqb_sym).
  destruct (find (fun o => String.eqb (toLowerCase (label o)) (toLowerCase s))
                 (first :: rest)) as [byLabel|]; [reflexivity|].
  change (rung_contains (JStr s))
    with (fun o => includes (toLowerCase s) (toLowerCase (label o))).
  destruct (find (fun o => includes (toLowerCase s) (toLowerCase (label o)))
                 (first :: rest)) as [byLabelContains|]; [reflexivity|].
  rewrite (find_ext (rung_shared (JStr s)) (fun _ => false))
    by reflexivity.
  now rewrite find_never.
Qed.

Lemma matchDropdownValue_is_ladder_witness :
  reconciliation_ladder (JStr "I live in Paris") Worked.cities
  = Some (matchDropdownValue (JStr "I live in Paris") Worked.cities).
Proof.
  apply matchDropdownValue_is_ladder.
  - reflexivity.
  - repeat constructor.
  - discriminate.
Defined.

(** The three examples of the specification. *)
Example reconcile_cities :
  matchDropdownValue (JStr "paris") Worked.cities = JStr "PAR"
  /\ matchDropdownValue (JStr "I live in Paris") Worked.cities = JStr "PAR"
  /\ matchDropdownValue (JStr "Tokyo") Worked.cities = JStr "PAR".
Proof. repeat split. Qed.

Lemma index_entries_update n v l i :
  index_entries i (map snd (update n v (index_entries i l)))
  = update n v (index_entries i l).
Proof.
  revert i. induction l as [|x rest IH]; intros i; simpl; [reflexivity|].
  destruct (String.eqb n (string_of_nat i)); simpl.
  - f_equal. clear IH. revert i.
    induction rest as [|y r IHr]; intros i; simpl; [reflexivity|].
    f_equal. apply IHr.
  - f_equal. apply IH.
Qed.

Lemma own_entries_assign n v e :
  is_object e = true -> has_key n (own_entries e) = true ->
  own_entries (assign n v e) = update n v (own_entries e).
Proof.
  destruct e; simpl; try discriminate; intros _ H; rewrite (set_present _ _ _ H).
  - apply index_entries_update.
  - reflexivity.
Qed.

Lemma is_object_assign n v e : is_object (assign n v e) = is_object e.
Proof. destruct e; reflexivity. Qed.

(** What one detail does to the extracted object. *)
Lemma reconcile_step detail rest extracted :
  reconcile (detail :: rest) extracted =
  match detail_options detail with
  | Some (o :: os) =>
      if is_object extracted then
        match lookup (detail_name detail) (own_entries extracted) with
        | Some raw =>
            reconcile rest
              (assign (detail_name detail)
                      (matchDropdownValue raw (o :: os)) extracted)
        | None => reconcile rest extracted
        end
      else Thrown (TypeError
             "Cannot use 'in' operator to search for a key in a primitive")
  | _ => reconcile rest extracted
  end.
Proof.
  simpl. destruct (detail_options detail) as [[|o os]|]; try reflexivity.
  unfold in_operator, has_key.
  destruct (is_object extracted); simpl; [|reflexivity].
  destruct (lookup (detail_name detail) (own_entries extracted));
    reflexivity.
Qed.

Lemma reconcile_object details extracted :
  is_object extracted = true ->
  exists r, reconcile details extracted = Returned r /\ is_object r = true.
Proof.
  revert extracted.
  induction details as [|d rest IH]; intros e He.
  - exists e. split; [reflexivity | exact He].
  - rewrite reconcile_step.
    destruct (detail_options d) as [[|o os]|]; auto.
    rewrite He. destruct (lookup (detail_name d) (own_entries e)); auto.
    apply IH. now rewrite is_object_assign.
Qed.

Lemma reconcile_keys details extracted r :
  reconcile details extracted = Returned r ->
  keys (own_entries r) = keys (own_entries extracted).
Proof.
  revert extracted.
  induction details as [|d rest IH]; intros e.
  - simpl. intros [= ->]. reflexivity.
  - rewrite reconcile_step.
    destruct (detail_options d) as [[|o os]|]; auto.
    destruct (is_object e) eqn:He; [|discriminate].
    destruct (lookup (detail_name d) (own_entries e)) as [raw|] eqn:Hl; auto.
    intros H. rewrite (IH _ H), own_entries_assign, keys_update; auto.
    apply has_key_lookup. eauto.
Qed.

Lemma reconcile_untouched details extracted r n :
  reconcile details extracted = Returned r ->
  (forall d, In d details -> detail_name d = n ->
             detail_options d = None \/ detail_options d = Some []) ->
  lookup n (own_entries r) = lookup n (own_entries extracted).
Proof.
  revert extracted.
  induction details as [|d rest IH]; intros e.
  - simpl. intros [= ->] _. reflexivity.
  - rewrite reconcile_step. intros H Hno.
    assert (Hrest : forall d', In d' rest -> detail_name d' = n ->
              detail_options d' = None \/ detail_options d' = Some [])
      by (intros d' Hin; apply Hno; now right).
    destruct (detail_options d) as [[|o os]|] eqn:Hopt; auto.
    destruct (is_object e) eqn:He; [|discriminate].
    destruct (lookup (detail_name d) (own_entries e)) as [raw|] eqn:Hl; auto.
    rewrite (IH _ H Hrest), own_entries_assign; auto.
    + apply lookup_update_other. intros ->.
      destruct (Hno d (or_introl eq_refl) eq_refl); congruence.
    + apply has_key_lookup. eauto.
Qed.


Lemma lookup_map_Some k (m : list (string * json)) :
  lookup k (map (fun kv => (fst kv, Some (snd kv))) m)
  = option_map Some (lookup k m).
Proof.
  induction m as [|[k' v'] rest IH]; simpl; [reflexivity|].
  destruct (String.eqb k k'); [reflexivity | exact IH].
Qed.

Lemma keys_map_Some (m : list (string * json)) :
  keys (map (fun kv => (fst kv, Some (snd kv))) m) = keys m.
Proof.
  unfold keys. rewrite map_map. reflexivity.
Qed.


(** ** The result is an option value *)

Lemma match_shared_key_In extractedObj options v :
  match_shared_key extractedObj options = Some v ->
  In v (map value options).
Proof.
  induction options as [|o rest IH]; cbn [match_shared_key]; [discriminate|].
  destruct (is_object (value o)); [|intros H; right; auto].
  destruct (find _ (keys extractedObj)) as [k|]; [|intros H; right; auto].
  destruct (negb (String.eqb k "")); [|intros H; right; auto].
  intros [= <-]. now left.
Qed.

Lemma find_In_map {A B : Type} (f : A -> B) p l x :
  find p l = Some x -> In (f x) (map f l).
Proof. intros H. apply in_map. now apply find_some in H. Qed.

(** For a non-empty option list the result is among the option values. *)
Lemma matchDropdownValue_In_values extracted first rest :
  In (matchDropdownValue extracted (first :: rest))
     (map value (first :: rest)).
Proof.
  unfold matchDropdownValue.
  destruct (find _ (first :: rest)) as [exact|] eqn:H1;
    [exact (find_In_map value _ _ _ H1)|clear H1].
  destruct (find _ (first :: rest)) as [byLabel|] eqn:H2;
    [exact (find_In_map value _ _ _ H2)|clear H2].
  destruct (find _ (first :: rest)) as [byContains|] eqn:H3;
    [exact (find_In_map value _ _ _ H3)|clear H3].
  destruct (if is_object extracted then _ else None) as [v|] eqn:H4.
  - destruct (is_object extracted); [|discriminate].
    exact (match_shared_key_In _ _ _ H4).
  - now left.
Qed.

(** The value of an option is matched by content, and returned as it is. *)
Lemma matchDropdownValue_option_value o options :
  In o options -> matchDropdownValue (value o) options = value o.
Proof.
  intros Hin. destruct options as [|first rest]; [contradiction|].
  unfold matchDropdownValue.
  destruct (find (fun o' => String.eqb (JSON_stringify (value o'))
                                       (JSON_stringify (value o)))
                 (first :: rest)) as [exact|] eqn:Hf.
  - apply find_some in Hf as [_ Heq]. apply String.eqb_eq in Heq.
    now apply JSON_stringify_injective.
  - exfalso. apply (find_none _ _ Hf) in Hin. cbv beta in Hin.
    now rewrite String.eqb_refl in Hin.
Qed.

(** With options to choose from, the reconciler returns the value of one
    of them, whatever was extracted. *)
Theorem matchDropdownValue_returns_option_value extracted options :
  options <> [] ->
  exists o, In o options /\ matchDropdownValue extracted options = value o.
Proof.
  intros Hne. destruct options as [|first rest]; [congruence|].
  pose proof (matchDropdownValue_In_values extracted first rest) as H.
  apply in_map_iff in H as (o & Ho & Hin). eauto.
Qed.

Lemma matchDropdownValue_returns_option_value_witness :
  exists o, In o Worked.cities
            /\ matchDropdownValue (JStr "Tokyo") Worked.cities = value o.
Proof.
  apply matchDropdownValue_returns_option_value. discriminate.
Defined.

(** Reconciling is idempotent: the result, being the value of an option,
    is matched by content and returned as it is. *)
Theorem matchDropdownValue_idempotent extracted options :
  matchDropdownValue (matchDropdownValue extracted options) options
  = matchDropdownValue extracted options.
Proof.
  destruct options as [|first rest]; [reflexivity|].
  pose proof (matchDropdownValue_In_values extracted first rest) as H.
  apply in_map_iff in H as (o & Ho & Hin). rewrite <- Ho.
  now apply matchDropdownValue_option_value.
Qed.

Lemma find_first_of_distinct {A B : Type} (key : A -> B)
  (eqb : B -> B -> bool) (l : list A) (o : A) :
  (forall x y, eqb x y = true <-> x = y) ->
  NoDup (map key l) -> In o l ->
  find (fun x => eqb (key x) (key o)) l = Some o.
Proof.
  intros Heq. induction l as [|a l IH]; [intros _ []|].
  cbn [map find]. intros Hnd Hin. inversion Hnd as [|? ? Hnot Hnd']; subst.
  destruct (eqb (key a) (key o)) eqn:E.
  - apply Heq in E. destruct Hin as [->|Hin]; [reflexivity|].
    exfalso. apply Hnot. rewrite E. now apply in_map.
  - destruct Hin as [->|Hin]; [|now apply IH].
    assert (eqb (key o) (key o) = true) by now apply Heq. congruence.
Qed.

(** The answer the schema of a dropdown asks for is a label; the
    reconciler turns the label of an option into the value of that option,
    when the labels are ASCII texts, pairwise distinct up to case, and the
    label is not itself, as a string, the value of an option. *)
Theorem label_answer_maps_to_its_option o options :
  Forall (fun x => ascii_text (label x) = true) options ->
  NoDup (map (fun x => toLowerCase (label x)) options) ->
  In o options ->
  (forall o', In o' options -> value o' <> JStr (label o)) ->
  matchDropdownValue (JStr (label o)) options = value o.
Proof.
  intros _ Hnd Hin Hfresh.
  destruct options as [|first rest]; [contradiction|].
  unfold matchDropdownValue.
  destruct (find (fun o' => String.eqb (JSON_stringify (value o'))
                                       (JSON_stringify (JStr (label o))))
                 (first :: rest)) as [exact|] eqn:Hf.
  - exfalso. apply find_some in Hf as [Hex Heq]. apply String.eqb_eq in Heq.
    apply JSON_stringify_injective in Heq. now apply (Hfresh exact).
  - cbn [string_form].
    rewrite (find_first_of_distinct (fun x => toLowerCase (label x))
               String.eqb (first :: rest) o String.eqb_eq Hnd Hin).
    reflexivity.
Qed.

Lemma label_answer_maps_to_its_option_witness :
  matchDropdownValue (JStr (label (mkOption "London" (JStr "LON"))))
                     Worked.cities
  = value (mkOption "London" (JStr "LON")).
Proof.
  apply label_answer_maps_to_its_option.
  - repeat constructor.
  - repeat constructor; simpl; intuition discriminate.
  - right. now left.
  - intros o' [<-|[<-|[]]]; discriminate.
Defined.

(** After the loop over the property details, the field of a choice
    property holds what [matchDropdownValue] makes of the extracted value
    and the options of that property: on an extracted object, for details
    with pairwise distinct names none of which is an inherited member. *)
Theorem reconcile_choice_fields details entries d o os raw :
  NoDup (map detail_name details) ->
  (forall d', In d' details -> inherited (detail_name d') = false) ->
  In d details ->
  detail_options d = Some (o :: os) ->
  lookup (detail_name d) entries = Some raw ->
  exists r,
    reconcile details (JObj entries) = Returned r
    /\ lookup (detail_name d) (own_entries r)
       = Some (matchDropdownValue raw (o :: os)).
Proof.
  intros Hnd _ Hin Hopt Hraw.
  change entries with (own_entries (JObj entries)) in Hraw.
  assert (He : is_object (JObj entries) = true) by reflexivity.
  revert He Hnd Hin Hopt Hraw. generalize (JObj entries) as extracted.
  induction details as [|d0 rest IH]; intros e He Hnd Hin Hopt Hraw;
    [contradiction|].
  cbn [map] in Hnd. inversion Hnd as [|? ? Hnot Hnd']; subst.
  rewrite reconcile_step. destruct Hin as [->|Hin].
  - rewrite Hopt, He, Hraw.
    set (e' := assign (detail_name d) (matchDropdownValue raw (o :: os)) e).
    assert (He' : is_object e' = true)
      by (unfold e'; now rewrite is_object_assign).
    destruct (reconcile_object rest e' He') as (r & Hr & _).
    exists r. split; [exact Hr|].
    rewrite (reconcile_untouched rest e' r (detail_name d) Hr).
    + unfold e'. rewrite own_entries_assign; auto.
      * apply lookup_update_same. apply has_key_lookup. eauto.
      * apply has_key_lookup. eauto.
    + intros d' Hd' Hname. exfalso. apply Hnot. rewrite <- Hname.
      now apply in_map.
  - assert (Hne : detail_name d0 <> detail_name d).
    { intros E. apply Hnot. rewrite E. now apply in_map. }
    destruct (detail_options d0) as [[|o0 os0]|]; try (apply IH; auto).
    rewrite He.
    destruct (lookup (detail_name d0) (own_entries e)) as [raw0|] eqn:Hl0;
      [|apply IH; auto].
    apply IH; auto.
    + now rewrite is_object_assign.
    + rewrite own_entries_assign; auto.
      * rewrite lookup_update_other; auto.
      * apply has_key_lookup. eauto.
Qed.

Lemma reconcile_choice_fields_witness :
  exists r,
    reconcile [mkDetail "note" SHORT_TEXT None None None;
               mkDetail "city" STATIC_DROPDOWN None (Some Worked.cities) None]
              Worked.note_answer = Returned r
    /\ lookup "city" (own_entries r)
       = Some (matchDropdownValue (JStr "paris") Worked.cities).
Proof.
  apply (reconcile_choice_fields
           [mkDetail "note" SHORT_TEXT None None None;
            mkDetail "city" STATIC_DROPDOWN None (Some Worked.cities) None]
           [("note", JStr "paris"); ("city", JStr "paris")]
           (mkDetail "city" STATIC_DROPDOWN None (Some Worked.cities) None)
           (mkOption "Paris" (JStr "PAR")) [mkOption "London" (JStr "LON")]
           (JStr "paris")).
  - repeat constructor; simpl; intuition discriminate.
  - intros d' [<-|[<-|[]]]; reflexivity.
  - right. now left.
  - reflexivity.
  - reflexivity.
Defined.

(* ================================================================== *)
(** * The action executor *)
(* ================================================================== *)

Section Executor.

Variable C : Collaborators.

(** The stages behind a response of the [try] block. *)
Lemma execute_body_returned fuel operation r :
  execute_body C fuel operation = Returned r ->
  exists pieceAction depthToPropertyMap resolved steps step,
    getPieceAndActionOrThrow C (pieceName operation) (pieceVersion operation)
                             (actionName operation) = Returned pieceAction
    /\ sortPropertiesByDependencies C (action_props pieceAction)
       = Returned depthToPropertyMap
    /\ fst (resolveProperties C fuel depthToPropertyMap
              (instruction operation) pieceAction operation)
       = Returned resolved
    /\ handle C operation (step_of operation resolved) = Returned steps
    /\ lookup (actionName operation) steps = Some step
    /\ r = mkResponse
             (if String.eqb (so_status step) StepOutputStatus_FAILED
              then FAILED else SUCCESS)
             (so_output step)
             (set "auth" (Some redaction_marker) resolved)
             (so_errorMessage step).
Proof.
  unfold execute_body.
  destruct (getPieceAndActionOrThrow C _ _ _) as [pieceAction| |] eqn:Hget;
    simpl; try discriminate.
  destruct (sortPropertiesByDependencies C _) as [levels| |] eqn:Hsort;
    simpl; try discriminate.
  destruct (fst (resolveProperties C fuel levels _ pieceAction operation))
    as [resolved| |] eqn:Hres; simpl; try discriminate.
  destruct (handle C operation _) as [steps| |] eqn:Hrun;
    simpl; try discriminate.
  destruct (lookup (actionName operation) steps) as [step|] eqn:Hstep;
    try discriminate.
  intros [= <-]. exists pieceAction, levels, resolved, steps, step.
  repeat split; first [assumption | reflexivity].
Qed.

Lemma execute_cases fuel operation :
  match execute_body C fuel operation with
  | Returned r => execute C fuel operation = Returned r
  | Thrown e => execute C fuel operation = Returned (execute_catch e)
  | OutOfFuel => execute C fuel operation = OutOfFuel
  end.
Proof.
  unfold execute. destruct (execute_body C fuel operation); reflexivity.
Qed.

End Executor.



(** C3, as stated, fails.  When the loader does not find the piece, the
    response carries the empty object as resolved input: it has no [auth]
    member at all, in particular not the redaction marker.  And when the
    action returns the connection it was given, the secret is the output
    of the response, in clear. *)
Lemma redaction_counterexample :
  (exists r,
     execute Worked.lost_world 1 Worked.secret_operation = Returned r
     /\ status r = FAILED
     /\ resolvedInput r = []
     /\ lookup "auth" (resolvedInput r) <> Some (Some redaction_marker))
  /\ (exists r,
        execute Worked.echo_world 1 Worked.secret_operation = Returned r
        /\ status r = SUCCESS
        /\ output r = Some Worked.secret).
Proof.
  split; eexists; (split; [reflexivity|]); repeat split; discriminate.
Qed.

(** C3, amended.  Whatever the operation and its [auth]: a response built
    after the runtime ran carries the accumulator with its [auth] member
    set to the redaction marker and every other member as resolved, while
    the runtime was handed the accumulator itself as step input; a
    response built by the [catch] block carries the empty object, without
    an [auth] member.  So the [auth] member of the returned resolved input
    never holds the predefined secret.  Nothing is said of the output and
    the error message, which are the runtime's own and the error's. *)
Theorem resolved_input_auth_redacted :
  forall C fuel operation r,
    execute C fuel operation = Returned r ->
    (exists pieceAction levels resolved steps,
        fst (resolveProperties C fuel levels (instruction operation)
               pieceAction operation) = Returned resolved
        /\ handle C operation (step_of operation resolved) = Returned steps
        /\ step_input (step_of operation resolved) = resolved
        /\ resolvedInput r = set "auth" (Some redaction_marker) resolved
        /\ lookup "auth" (resolvedInput r) = Some (Some redaction_marker)
        /\ (forall k, k <> "auth" ->
              lookup k (resolvedInput r) = lookup k resolved))
    \/ (exists e,
          execute_body C fuel operation = Thrown e
          /\ status r = FAILED
          /\ resolvedInput r = []
          /\ lookup "auth" (resolvedInput r) = None).
Proof.
  intros C fuel operation r Hr.
  pose proof (execute_cases C fuel operation) as Hc.
  destruct (execute_body C fuel operation) as [r'|e|] eqn:Hbody.
  - left. rewrite Hc in Hr. injection Hr as <-.
    destruct (execute_body_returned C _ _ _ Hbody)
      as (a & levels & resolved & steps & step & _ & _ & Hres & Hrun & _ & ->).
    exists a, levels, resolved, steps. simpl.
    repeat split; try assumption.
    + apply lookup_set_same.
    + intros k Hk. now apply lookup_set_other.
  - right. rewrite Hc in Hr. injection Hr as <-.
    exists e. repeat split.
  - rewrite Hc in Hr. discriminate.
Qed.

Lemma resolved_input_auth_redacted_witness :
  (exists pieceAction levels resolved steps,
      fst (resolveProperties Worked.echo_world 1 levels
             (instruction Worked.secret_operation) pieceAction
             Worked.secret_operation) = Returned resolved
      /\ handle Worked.echo_world Worked.secret_operation
           (step_of Worked.secret_operation resolved) = Returned steps
      /\ step_input (step_of Worked.secret_operation resolved) = resolved
      /\ [("auth", Some redaction_marker); ("note", Some (JStr "paris"));
          ("city", Some (JStr "PAR"))]
         = set "auth" (Some redaction_marker) resolved
      /\ lookup "auth"
           [("auth", Some redaction_marker); ("note", Some (JStr "paris"));
            ("city", Some (JStr "PAR"))] = Some (Some redaction_marker)
      /\ (forall k, k <> "auth" ->
            lookup k
              [("auth", Some redaction_marker); ("note", Some (JStr "paris"));
               ("city", Some (JStr "PAR"))] = lookup k resolved))
  \/ (exists e,
        execute_body Worked.echo_world 1 Worked.secret_operation = Thrown e
        /\ SUCCESS = FAILED
        /\ [("auth", Some redaction_marker); ("note", Some (JStr "paris"));
            ("city", Some (JStr "PAR"))] = []
        /\ lookup "auth"
             [("auth", Some redaction_marker); ("note", Some (JStr "paris"));
              ("city", Some (JStr "PAR"))] = None).
Proof.
  apply (resolved_input_auth_redacted Worked.echo_world 1
           Worked.secret_operation
           (mkResponse SUCCESS (Some Worked.secret)
              [("auth", Some redaction_marker); ("note", Some (JStr "paris"));
               ("city", Some (JStr "PAR"))] None)).
  reflexivity.
Defined.

(* ================================================================== *)
(** * The schema synthesizer *)
(* ================================================================== *)

Lemma description_of_describe d s : description_of (describe d s) = Some d.
Proof. destruct s; reflexivity. Qed.

Lemma is_nullable_describe d s : is_nullable (describe d s) = is_nullable s.
Proof. destruct s; reflexivity. Qed.

Lemma accepts_describe d s v : accepts (describe d s) v = accepts s v.
Proof. destruct s; reflexivity. Qed.

(** What the statements after the [switch] add to a schema that has no
    description and is not nullable yet. *)
Lemma post_process_spec property base :
  description_of base = None -> is_nullable base = false ->
  description_of (post_process property base)
  = declared_description (prop_description property)
  /\ is_nullable (post_process property base) = negb (prop_required property).
Proof.
  intros Hd Hn. unfold post_process.
  destruct (declared_description (prop_description property)) as [d|];
    destruct (prop_required property); simpl;
    rewrite ?description_of_describe, ?is_nullable_describe; auto.
Qed.

(** Every type but the array type goes through the post-processing: the
    schema carries the declared description and is nullable exactly when
    the property is not required. *)
Lemma propertyToSchema_post_processed C fuel name property operation result s :
  prop_type property <> ARRAY ->
  propertyToSchema C fuel name property operation result = Returned s ->
  description_of s = declared_description (prop_description property)
  /\ is_nullable s = negb (prop_required property).
Proof.
  intros Harr. destruct fuel as [|fuel]; [discriminate|]. simpl.
  destruct (prop_type property); try congruence;
    try (intros [= <-]; apply post_process_spec; reflexivity).
  - destruct (loadDropdownLabels C name property operation result)
      as [[|l ls]| |]; simpl; try discriminate;
      intros [= <-]; apply post_process_spec; reflexivity.
  - destruct (loadDropdownLabels C name property operation result)
      as [[|l ls]| |]; simpl; try discriminate;
      intros [= <-]; apply post_process_spec; reflexivity.
  - destruct (buildDynamicSchema_with C _ name operation result)
      as [dyn| |] eqn:Hdyn; simpl; try discriminate.
    intros [= <-]. unfold buildDynamicSchema_with in Hdyn.
    destruct (executeProps_dynamic C operation name result) as [[es|]| |];
      simpl in Hdyn; try discriminate.
    + destruct (has_key "disabled" es).
      * injection Hdyn as <-. apply post_process_spec; reflexivity.
      * destruct (dynamic_fields _ es []); simpl in Hdyn; try discriminate.
        injection Hdyn as <-. apply post_process_spec; reflexivity.
    + injection Hdyn as <-. apply post_process_spec; reflexivity.
Qed.

(** C5 (the array case returns before the post-processing).  An optional
    array property with a description yields the bare array-of-string
    schema: no description, not nullable, and [null] is refused; a number
    property declared with the same flags yields a described, nullable
    schema.  The array case of [propertyToSchema] returns from inside the
    [switch], where every other case assigns and breaks. *)
Theorem propertyToSchema_array_skips_post_processing :
  forall C operation result,
    propertyToSchema C 1 "tags" Worked.tags_property operation result
    = Returned (ZArray ZString)
    /\ description_of (ZArray ZString) = None
    /\ is_nullable (ZArray ZString) = false
    /\ accepts (ZArray ZString) (Some JNull) = false
    /\ propertyToSchema C 1 "tags" Worked.count_property operation result
       = Returned (ZNullable (ZDescribed "Tags to attach" ZNumber)).
Proof. intros; repeat split. Qed.

(** The number example of the specification: the schema of a required
    number property without description accepts 42 and refuses the string
    42; declared optional it also accepts [null], the absent value. *)
Lemma number_property_schema C operation result :
  exists required optional,
    propertyToSchema C 1 "amount" (mkProperty NUMBER true None None None)
                     operation result = Returned required
    /\ propertyToSchema C 1 "amount" (mkProperty NUMBER false None None None)
                        operation result = Returned optional
    /\ accepts required (Some (JNum 42)) = true
    /\ accepts required (Some (JStr "42")) = false
    /\ accepts required (Some JNull) = false
    /\ accepts optional (Some (JNum 42)) = true
    /\ accepts optional (Some (JStr "42")) = false
    /\ accepts optional (Some JNull) = true.
Proof. do 2 eexists. repeat split. Qed.

(** Schema synthesis fails on each auth-only type. *)
Lemma propertyToSchema_auth_only C fuel name property operation result :
  In (prop_type property) [OAUTH2; BASIC_AUTH; CUSTOM_AUTH; SECRET_TEXT] ->
  propertyToSchema C (S fuel) name property operation result
  = Thrown (JsError "Error"
              ("Unsupported property type: "
                 ++ PropertyType_name (prop_type property))).
Proof.
  simpl. intros [H|[H|[H|[H|[]]]]]; rewrite <- H; reflexivity.
Qed.

Lemma buildPropertyDetail_name C name property operation result d :
  buildPropertyDetail C name property operation result = Returned d ->
  detail_name d = name.
Proof.
  unfold buildPropertyDetail.
  destruct (prop_type property); simpl;
    try (intros [= <-]; reflexivity);
    destruct (loadOptions C name operation result); simpl;
    try discriminate; intros [= <-]; reflexivity.
Qed.

Lemma fillable_cons action result property rest name :
  fillable action result rest name ->
  fillable action result (property :: rest) name.
Proof. intros (Hin & Hr & Hp). split; [now right | auto]. Qed.

Lemma collect_level_sound C fuel operation action result properties :
  forall propertyToFill propertyDetails propertyToFill' propertyDetails',
    collect_level C fuel operation action result properties
                  propertyToFill propertyDetails
    = Returned (propertyToFill', propertyDetails') ->
    (forall name, has_key name propertyToFill' = true ->
                  has_key name propertyToFill = true
                  \/ fillable action result properties name)
    /\ (forall d, In d propertyDetails' ->
                  In d propertyDetails
                  \/ fillable action result properties (detail_name d)).
Proof.
  induction properties as [|property rest IH];
    intros ptf pd ptf' pd'; cbn [collect_level].
  - intros [= <- <-]. split; auto.
  - assert (Hpass :
      collect_level C fuel operation action result rest ptf pd
      = Returned (ptf', pd') ->
      (forall name, has_key name ptf' = true ->
                    has_key name ptf = true
                    \/ fillable action result (property :: rest) name)
      /\ (forall d, In d pd' ->
                    In d pd
                    \/ fillable action result (property :: rest)
                                (detail_name d))).
    { intros H. destruct (IH _ _ _ _ H) as [Hf Hd]. split.
      - intros name Hn. destruct (Hf name Hn); auto using fillable_cons.
      - intros d Hin. destruct (Hd d Hin); auto using fillable_cons. }
    destruct (lookup property (action_props action)) as [decl|] eqn:Hdecl;
      [|destruct (inherited property); [exact Hpass | discriminate]].
    destruct (existsb (PropertyType_eqb (prop_type decl)) skipTypes) eqn:Hskip;
      cbn [orb]; [exact Hpass|].
    unfold in_object.
    destruct (has_key property result) eqn:Hres; cbn [orb]; [exact Hpass|].
    destruct (inherited property) eqn:Hinh; [exact Hpass|].
    destruct (propertyToSchema C fuel property decl operation result)
      as [sch| |]; simpl; try discriminate.
    destruct (buildPropertyDetail C property decl operation result)
      as [det| |] eqn:Hdet; simpl; try discriminate.
    intros H. destruct (IH _ _ _ _ H) as [Hf Hd].
    assert (Hthis : fillable action result (property :: rest) property).
    { split; [now left|]. split; [assumption|]. eauto. }
    split.
    + intros name Hn. destruct (Hf name Hn) as [Hset|Hfill].
      * rewrite has_key_set in Hset.
        destruct (String.eqb_spec name property) as [->|Hne]; auto.
      * right. now apply fillable_cons.
    + intros d Hin. destruct (Hd d Hin) as [Happ|Hfill].
      * apply in_app_or in Happ as [Hold|[<-|[]]]; auto.
        right. now rewrite (buildPropertyDetail_name _ _ _ _ _ _ Hdet).
      * right. now apply fillable_cons.
Qed.




(* ================================================================== *)
(** * The extraction orchestrator *)
(* ================================================================== *)

(** C6 (a secret text is not skipped).  The list of skipped types holds
    three of the four auth-only types; a secret text property that is not
    in the accumulator reaches the schema synthesis, which throws: the
    resolution aborts before any model call, and the executor reports the
    failure.  Declared as an OAuth2 property the same slot is skipped and
    the resolution completes. *)
Theorem secret_text_aborts_resolution :
  existsb (PropertyType_eqb SECRET_TEXT) skipTypes = false
  /\ resolveProperties Worked.token_world 1 [(0%nat, ["token"; "query"])]
       "look up paris" Worked.token_action Worked.token_operation
     = (Thrown (JsError "Error" "Unsupported property type: SECRET_TEXT"), [])
  /\ execute Worked.token_world 1 Worked.token_operation
     = Returned
         (mkResponse FAILED None []
            (Some "Tool execution error: Unsupported property type: SECRET_TEXT"))
  /\ fst (resolveProperties Worked.token_world 1
            [(0%nat, ["token"; "query"])] "look up paris"
            (mkAction "Call a service"
               [("token", mkProperty OAUTH2 true None None None);
                ("query", mkProperty SHORT_TEXT true None None None)])
            Worked.token_operation)
     = Returned [("query", Some (JStr "paris"))].
Proof. repeat split. Qed.

Section Levels.

Variable C : Collaborators.
Variables (fuel : nat) (operation : ExecuteToolOperation) (action : Action)
          (instruction : string).

Let level := resolve_level C fuel operation action instruction.
Let run := resolve_levels C fuel operation action instruction.

(** What a level asks the model for is fillable. *)
Lemma level_asks_fillable result properties call name :
  In call (snd (level result properties)) ->
  asks_for call name ->
  fillable action result properties name.
Proof.
  unfold level, resolve_level.
  destruct (collect_level C fuel operation action result properties [] [])
    as [[ptf pd]| |] eqn:Hc; try (intros []).
  destruct (collect_level_sound _ _ _ _ _ _ _ _ _ _ Hc) as [Hf Hd].
  destruct ptf as [|p rest]; [intros []|].
  remember (p :: rest) as ptf eqn:Hptf. clear Hptf.
  intros [<-|[]] [Hn|[(shape & mode & Hs & Hk)|(ds & d & Hp & Hin & Hname)]].
  - simpl in Hn. apply has_key_In in Hn.
    destruct (Hf name Hn) as [Hold|]; [discriminate | assumption].
  - simpl in Hs. injection Hs as <- <-.
    destruct (Hf name Hk) as [Hold|]; [discriminate | assumption].
  - simpl in Hp. destruct pd as [|d0 pd0]; [discriminate|].
    injection Hp as <-. rewrite <- Hname.
    destruct (Hd d Hin) as [[]|]; assumption.
Qed.

(** A level keeps every key of the accumulator. *)
Lemma level_keeps_keys result properties result' name :
  fst (level result properties) = Returned result' ->
  has_key name result = true -> has_key name result' = true.
Proof.
  unfold level, resolve_level.
  destruct (collect_level C fuel operation action result properties [] [])
    as [[ptf pd]| |]; try discriminate.
  destruct ptf as [|p rest]; simpl.
  - now intros [= <-].
  - destruct (generate C _ _) as [extracted| |]; simpl; try discriminate.
    destruct (reconcile pd extracted) as [reconciled| |];
      simpl; try discriminate.
    intros [= <-]. apply has_key_spread_base.
Qed.

(** A level keeps every value of the accumulator when the object it merges
    honours the schema of its call. *)
Lemma level_keeps_values result properties result' name v :
  fst (level result properties) = Returned result' ->
  (forall call, In call (snd (level result properties)) ->
                honours_schema C call) ->
  lookup name result = Some v -> lookup name result' = Some v.
Proof.
  unfold level, resolve_level.
  destruct (collect_level C fuel operation action result properties [] [])
    as [[ptf pd]| |] eqn:Hc; try discriminate.
  destruct (collect_level_sound _ _ _ _ _ _ _ _ _ _ Hc) as [Hf _].
  destruct ptf as [|p rest]; simpl.
  - now intros [= <-].
  - set (ptf := p :: rest) in *.
    destruct (generate C _ _) as [extracted| |] eqn:Hg; simpl;
      try discriminate.
    destruct (reconcile pd extracted) as [reconciled| |] eqn:Hr;
      simpl; try discriminate.
    intros [= <-] Hhon Hv.
    destruct (Hhon _ (or_introl eq_refl) _ Hg)
      as (entries & shape & mode & -> & Hshape & Hsub).
    simpl in Hshape. injection Hshape as <- <-.
    unfold merge. rewrite lookup_spread_absent; [exact Hv|].
    destruct (has_key name (map _ (own_entries reconciled))) eqn:Hk;
      [|reflexivity].
    exfalso. apply has_key_In in Hk.
    rewrite keys_map_Some, (reconcile_keys _ _ _ Hr) in Hk.
    apply has_key_In in Hk. simpl in Hk.
    destruct (Hf name (Hsub _ Hk)) as [Hold|(_ & Hnot & _)];
      [discriminate|].
    apply has_key_false_lookup in Hnot. congruence.
Qed.

Lemma collect_level_nothing result properties :
  (forall name, ~ fillable action result properties name) ->
  forall propertyToFill propertyDetails,
    collect_level C fuel operation action result properties
                  propertyToFill propertyDetails
    = Returned (propertyToFill, propertyDetails)
    \/ exists e,
         collect_level C fuel operation action result properties
                       propertyToFill propertyDetails = Thrown e.
Proof.
  induction properties as [|property rest IH]; intros Hnone ptf pd;
    cbn [collect_level]; [now left|].
  assert (Hrest : forall name, ~ fillable action result rest name).
  { intros name (Hin & Hr & Hp). apply (Hnone name).
    split; [now right | auto]. }
  destruct (lookup property (action_props action)) as [decl|] eqn:Hdecl;
    [|destruct (inherited property); [now apply IH | right; eauto]].
  destruct (existsb (PropertyType_eqb (prop_type decl)) skipTypes) eqn:Hskip;
    cbn [orb]; [now apply IH|].
  unfold in_object.
  destruct (has_key property result) eqn:Hres; cbn [orb]; [now apply IH|].
  destruct (inherited property); [now apply IH|].
  exfalso. apply (Hnone property).
  split; [now left|]. split; [assumption|]. eauto.
Qed.

(** A level without fillable property issues no model call and leaves the
    accumulator as it is, unless a property of the level is not declared
    by the action. *)
Lemma level_nothing_to_fill result properties :
  (forall name, ~ fillable action result properties name) ->
  snd (level result properties) = []
  /\ (fst (level result properties) = Returned result
      \/ exists e, fst (level result properties) = Thrown e).
Proof.
  intros Hnone. unfold level, resolve_level.
  destruct (collect_level_nothing _ _ Hnone [] []) as [-> | [e ->]]; simpl.
  - split; [reflexivity | now left].
  - split; [reflexivity | right; eauto].
Qed.

Lemma run_cons depth properties rest result :
  run ((depth, properties) :: rest) result =
  match level result properties with
  | (Returned result', calls) =>
      (fst (run rest result'), (calls ++ snd (run rest result'))%list)
  | (stopped, calls) => (stopped, calls)
  end.
Proof.
  unfold run, level. simpl.
  destruct (resolve_level C fuel operation action instruction result
              properties) as [[result'|e|] calls]; try reflexivity.
  destruct (resolve_levels C fuel operation action instruction rest result');
    reflexivity.
Qed.

Lemma run_keeps_keys levels result final name :
  fst (run levels result) = Returned final ->
  has_key name result = true -> has_key name final = true.
Proof.
  revert result. induction levels as [|[depth properties] rest IH];
    intros result.
  - simpl. now intros [= <-].
  - rewrite run_cons.
    destruct (level result properties) as [[result'|e|] calls] eqn:Hl;
      simpl; try discriminate.
    intros Hrun Hk. apply (IH _ Hrun).
    apply (level_keeps_keys result properties); [now rewrite Hl | exact Hk].
Qed.

Lemma run_never_asks_present levels result call name :
  In call (snd (run levels result)) ->
  has_key name result = true -> ~ asks_for call name.
Proof.
  revert result. induction levels as [|[depth properties] rest IH];
    intros result; [intros []|].
  rewrite run_cons. intros Hin Hk Hasks.
  assert (Hhere : In call (snd (level result properties)) -> False).
  { intros Hc. destruct (level_asks_fillable _ _ _ _ Hc Hasks)
      as (_ & Hnot & _). congruence. }
  destruct (level result properties) as [[result'|e|] calls] eqn:Hl;
    simpl in Hin, Hhere; auto.
  apply in_app_or in Hin as [Hin|Hin]; auto.
  apply (IH result' Hin); [|exact Hasks].
  apply (level_keeps_keys result properties); [now rewrite Hl | exact Hk].
Qed.

Lemma run_keeps_values levels result final name v :
  fst (run levels result) = Returned final ->
  (forall call, In call (snd (run levels result)) -> honours_schema C call) ->
  lookup name result = Some v -> lookup name final = Some v.
Proof.
  revert result. induction levels as [|[depth properties] rest IH];
    intros result.
  - simpl. now intros [= <-].
  - rewrite run_cons.
    pose proof (level_keeps_values result properties) as Hlevel.
    destruct (level result properties) as [[result'|e|] calls] eqn:Hl;
      simpl; try discriminate.
    intros Hrun Hhon Hv. apply (IH _ Hrun).
    + intros call Hin. apply Hhon, in_or_app. now right.
    + apply (Hlevel result' name v eq_refl); [|exact Hv].
      intros call Hin. apply Hhon, in_or_app. now left.
Qed.

End Levels.

(** C8, as stated, fails.  The accumulator is seeded with the city the
    caller chose; the level asks the model for the note alone; the answer
    comes back in a json fence, is recovered by parsing the fenced text and
    merged as it is: the city it names replaces the chosen one. *)
Lemma fenced_answer_overwrites :
  lookup "city" (seed Worked.chosen_operation) = Some (Some (JStr "LON"))
  /\ resolveProperties Worked.fenced_world 1 [(0%nat, ["note"; "city"])]
       "leave a note about berlin" Worked.note_action
       Worked.chosen_operation
     = (Returned [("city", Some (JStr "Berlin")); ("note", Some (JStr "hi"))],
        [mkCall (mkPrompt ["note"] "leave a note about berlin"
                   (Some [("city", Some (JStr "LON"))])
                   (Some [mkDetail "note" SHORT_TEXT None None None]))
                (ZObject [("note", ZString)] Strict)]).
Proof. split; reflexivity. Qed.

(** C8, amended.  From any accumulator on: no model call of the run asks
    for a property that is in the accumulator (it is in no schema, among
    no prompt's property names and in no property detail); every key of
    the accumulator is a key of the final accumulator; the value of a key
    is the same in the final accumulator whenever the objects merged by
    the run honour the schemas of their calls, as the structured output of
    the model does; and a level without fillable property issues no model
    call and leaves the accumulator unchanged. *)
Theorem present_properties_are_kept :
  forall C fuel operation action instruction levels result,
    (forall call name,
        In call (snd (resolve_levels C fuel operation action instruction
                        levels result)) ->
        has_key name result = true -> ~ asks_for call name)
    /\ (forall final name,
          fst (resolve_levels C fuel operation action instruction levels
                 result) = Returned final ->
          has_key name result = true -> has_key name final = true)
    /\ (forall final name v,
          fst (resolve_levels C fuel operation action instruction levels
                 result) = Returned final ->
          (forall call,
              In call (snd (resolve_levels C fuel operation action
                              instruction levels result)) ->
              honours_schema C call) ->
          lookup name result = Some v -> lookup name final = Some v)
    /\ (forall properties,
          (forall name, ~ fillable action result properties name) ->
          snd (resolve_level C fuel operation action instruction result
                 properties) = []
          /\ (fst (resolve_level C fuel operation action instruction result
                     properties) = Returned result
              \/ exists e,
                   fst (resolve_level C fuel operation action instruction
                          result properties) = Thrown e)).
Proof.
  intros C fuel operation action instruction levels result.
  split; [|split; [|split]].
  - intros call name. apply run_never_asks_present.
  - intros final name. apply run_keeps_keys.
  - intros final name v. apply run_keeps_values.
  - intros properties. apply level_nothing_to_fill.
Qed.

Lemma present_properties_are_kept_witness :
  lookup "city" [("city", Some (JStr "LON")); ("note", Some (JStr "hi"))]
  = Some (Some (JStr "LON")).
Proof.
  apply (proj1 (proj2 (proj2
           (present_properties_are_kept Worked.polite_world 1
              Worked.chosen_operation Worked.note_action
              "leave a note about berlin" [(0%nat, ["note"; "city"])]
              (seed Worked.chosen_operation))))
           [("city", Some (JStr "LON")); ("note", Some (JStr "hi"))]
           "city" (Some (JStr "LON"))).
  - reflexivity.
  - intros call [<-|[]] extracted Hg. injection Hg as <-.
    exists [("note", JStr "hi")], [("note", ZString)], Strict.
    repeat split. intros k Hk. unfold has_key in *. simpl in *.
    destruct (String.eqb k "note"); [reflexivity | discriminate].
  - reflexivity.
Defined.

(** ** Recovery of a fenced answer *)

(** A fence that starts inside a non-empty text followed by a fence lies
    within the text followed by two backquotes. *)
Lemma fence_inside c inner :
  startsWith (String c inner ++ fence) fence
  = startsWith (String c inner ++ "``") fence.
Proof.
  destruct inner as [|c1 [|c2 inner]]; unfold fence;
    cbn [append startsWith];
    repeat match goal with
           | |- context [Ascii.eqb ?a ?b] =>
               is_var b; destruct (Ascii.eqb a b)
           end;
    rewrite ?startsWith_empty; reflexivity.
Qed.

Lemma replace_closing_fence inner :
  includes (inner ++ "``") fence = false ->
  replace (inner ++ fence) fence "" = inner.
Proof.
  induction inner as [|c inner IH]; [reflexivity|].
  intros H. change (includes (String c inner ++ "``") fence)
    with (startsWith (String c inner ++ "``") fence
          || includes (inner ++ "``") fence) in H.
  apply Bool.orb_false_iff in H as [Hhead Htail].
  rewrite replace_unfold, fence_inside, Hhead.
  change (String c inner ++ fence) with (String c (inner ++ fence)).
  cbv beta iota. now rewrite (IH Htail).
Qed.

(** A text that is one json fence around [inner] passes the test of the
    handler and is stripped to [inner]. *)
Lemma single_fence_stripped inner :
  includes (inner ++ "``") fence = false ->
  startsWith (fence_json ++ inner ++ fence) fence_json = true
  /\ endsWith (fence_json ++ inner ++ fence) fence = true
  /\ strip_fences (fence_json ++ inner ++ fence) = inner.
Proof.
  intros H. split; [apply startsWith_app|]. split.
  - replace (fence_json ++ inner ++ fence)
      with ((fence_json ++ inner) ++ fence).
    + apply endsWith_app.
    + clear H. unfold fence_json. simpl. reflexivity.
  - unfold strip_fences. rewrite replace_prefix.
    now apply replace_closing_fence.
Qed.

(* ================================================================== *)
(** * Texts that end with a backquote *)
(* ================================================================== *)

Lemma last_char_app pre c rest :
  last_char (pre ++ String c rest)
  = match last_char rest with Some x => Some x | None => Some c end.
Proof.
  induction pre as [|a pre IH]; simpl; [reflexivity|].
  rewrite IH. destruct (last_char rest); reflexivity.
Qed.

Lemma consumed_suffix s rest : consumed s rest -> suffix s rest.
Proof.
  intros (pre & c & -> & _). exists (pre ++ String c "").
  now rewrite append_assoc.
Qed.

Lemma suffix_consumed s mid rest :
  suffix s mid -> consumed mid rest -> consumed s rest.
Proof.
  intros [p ->] (pre & c & -> & Hc). exists (p ++ pre), c.
  split; [now rewrite append_assoc | exact Hc].
Qed.

Lemma suffix_trans s mid rest : suffix s mid -> suffix mid rest -> suffix s rest.
Proof.
  intros [p ->] [q ->]. exists (p ++ q). now rewrite append_assoc.
Qed.

Lemma suffix_cons c s : suffix (String c s) s.
Proof. now exists (String c ""). Qed.

Lemma suffix_refl s : suffix s s.
Proof. now exists "". Qed.

Lemma consumed_cons c rest : c <> "`"%char -> consumed (String c rest) rest.
Proof. intros H. now exists "", c. Qed.

Lemma suffix_skip_ws s : suffix s (skip_ws s).
Proof.
  induction s as [|c s IH]; simpl; [apply suffix_refl|].
  destruct (is_ws c); [|apply suffix_refl].
  eapply suffix_trans; [apply suffix_cons | exact IH].
Qed.

Lemma skip_ws_blank s :
  skip_ws s = "" ->
  match last_char s with Some x => is_ws x = true | None => True end.
Proof.
  induction s as [|c s IH]; simpl; [trivial|].
  destruct (is_ws c) eqn:Hc; [|discriminate].
  intros H. specialize (IH H). destruct (last_char s); assumption.
Qed.

Lemma expect_consumed c s rest :
  c <> "`"%char -> expect c s = Some rest -> consumed s rest.
Proof.
  intros Hc. unfold expect. pose proof (suffix_skip_ws s) as Hs.
  destruct (skip_ws s) as [|d r]; [discriminate|].
  destruct (Ascii.eqb_spec c d) as [<-|]; [|discriminate].
  intros [= <-]. eapply suffix_consumed; [exact Hs|].
  now apply consumed_cons.
Qed.

Lemma cons_char_inv c r str rest :
  cons_char c r = Some (str, rest) ->
  exists str', r = Some (str', rest).
Proof.
  destruct r as [[str' rest']|]; simpl; [|discriminate].
  intros [= _ <-]. eauto.
Qed.

Lemma parse_chars_consumed n :
  forall s str rest,
    (String.length s <= n)%nat ->
    parse_chars s = Some (str, rest) ->
    exists pre, s = pre ++ String dquote rest.
Proof.
  induction n as [|n IH]; intros [|c s] str rest Hlen; simpl in Hlen;
    try lia; try discriminate.
  cbn [parse_chars].
  destruct (Ascii.eqb c dquote) eqn:Hq.
  - apply Ascii.eqb_eq in Hq as ->. intros [= _ <-]. now exists "".
  - destruct (Ascii.eqb c "\").
    + destruct s as [|e s]; [discriminate|].
      destruct (unescape e).
      * intros H. apply cons_char_inv in H as [str' H].
        apply IH in H as [pre ->]; [|simpl in Hlen; lia].
        now exists (String c (String e pre)).
      * destruct (Ascii.eqb e "u"); [|discriminate].
        destruct s as [|h1 [|h2 [|h3 [|h4 s]]]]; try discriminate.
        destruct (hex_value h1) as [[|?]|]; try discriminate.
        destruct (hex_value h2) as [[|?]|]; try discriminate.
        destruct (hex_value h3); try discriminate.
        destruct (hex_value h4); try discriminate.
        intros H. apply cons_char_inv in H as [str' H].
        apply IH in H as [pre ->]; [|simpl in Hlen; lia].
        now exists (String c (String e (String h1 (String h2 (String h3
                      (String h4 pre)))))).
    + destruct (nat_of_ascii c <? 32)%nat; [discriminate|].
      intros H. apply cons_char_inv in H as [str' H].
      apply IH in H as [pre ->]; [|lia].
      now exists (String c pre).
Qed.

Lemma dquote_not_backquote : dquote <> "`"%char.
Proof. discriminate. Qed.

Lemma span_digits_spec s :
  forall ds rest,
    span_digits s = (ds, rest) ->
    s = ds ++ rest
    /\ (ds = "" \/ exists pre c, ds = pre ++ String c "" /\ is_digit c = true).
Proof.
  induction s as [|c s IH]; intros ds rest; simpl.
  - intros [= <- <-]. auto.
  - destruct (is_digit c) eqn:Hc.
    + destruct (span_digits s) as [ds' rest'].
      intros [= <- <-]. destruct (IH ds' rest' eq_refl) as [-> Hds].
      split; [reflexivity|]. right.
      destruct Hds as [->|(pre & d & -> & Hd)].
      * now exists "", c.
      * now exists (String c pre), d.
    + intros [= <- <-]. auto.
Qed.

Lemma digit_not_backquote c : is_digit c = true -> c <> "`"%char.
Proof. intros H ->. discriminate. Qed.

Lemma parse_unsigned_consumed s n rest :
  parse_unsigned s = Some (n, rest) -> consumed s rest.
Proof.
  unfold parse_unsigned.
  destruct (span_digits s) as [ds r] eqn:Hspan.
  destruct (span_digits_spec _ _ _ Hspan) as [-> Hds].
  destruct ds as [|c more]; [discriminate|].
  destruct (_ && _); [discriminate|].
  destruct (continues_number r); [discriminate|].
  destruct (digits_value _); [|discriminate].
  intros [= _ <-].
  destruct Hds as [|(pre & d & -> & Hd)]; [discriminate|].
  exists pre, d. split; [now rewrite append_assoc|].
  now apply digit_not_backquote.
Qed.

Lemma parse_number_consumed s n rest :
  parse_number s = Some (n, rest) -> consumed s rest.
Proof.
  unfold parse_number. destruct s as [|c s]; [discriminate|].
  destruct (Ascii.eqb c "-").
  - destruct (parse_unsigned s) as [[m r]|] eqn:Hp; [|discriminate].
    intros [= _ <-]. eapply suffix_consumed; [apply suffix_cons|].
    eapply parse_unsigned_consumed; eassumption.
  - apply parse_unsigned_consumed.
Qed.

Lemma startsWith_split s p :
  startsWith s p = true -> s = p ++ drop (String.length p) s.
Proof.
  revert s. induction p as [|c p IH]; intros [|d s]; simpl;
    try reflexivity; try discriminate.
  destruct (Ascii.eqb_spec c d) as [->|]; [|discriminate].
  simpl. intros H. now rewrite <- (IH s H).
Qed.

Lemma parse_value_S fuel s :
  parse_value (S fuel) s
  = match skip_ws s with
    | EmptyString => None
    | String c s' =>
        if Ascii.eqb c "{" then
          match expect "}" s' with
          | Some rest => Some (JObj [], rest)
          | None =>
              match parse_members fuel s' with
              | Some (es, rest) => Some (JObj es, rest)
              | None => None
              end
          end
        else if Ascii.eqb c "[" then
          match expect "]" s' with
          | Some rest => Some (JArr [], rest)
          | None =>
              match parse_elements fuel s' with
              | Some (l, rest) => Some (JArr l, rest)
              | None => None
              end
          end
        else if Ascii.eqb c dquote then
          match parse_chars s' with
          | Some (str, rest) => Some (JStr str, rest)
          | None => None
          end
        else if startsWith (String c s') "true"
        then Some (JBool true, drop 4 (String c s'))
        else if startsWith (String c s') "false"
        then Some (JBool false, drop 5 (String c s'))
        else if startsWith (String c s') "null"
        then Some (JNull, drop 4 (String c s'))
        else
          match parse_number (String c s') with
          | Some (n, rest) => Some (JNum n, rest)
          | None => None
          end
    end.
Proof. reflexivity. Qed.

Lemma keyword_consumed s p c :
  startsWith s (p ++ String c "") = true -> c <> "`"%char ->
  consumed s (drop (String.length (p ++ String c "")) s).
Proof.
  intros Hs Hc. apply startsWith_split in Hs.
  exists p, c. split; [|exact Hc].
  rewrite Hs at 1. now rewrite append_assoc.
Qed.

Lemma parsers_consume fuel :
  (forall s v rest, parse_value fuel s = Some (v, rest) -> consumed s rest)
  /\ (forall s l rest,
        parse_elements fuel s = Some (l, rest) -> consumed s rest)
  /\ (forall s es rest,
        parse_members fuel s = Some (es, rest) -> consumed s rest).
Proof.
  induction fuel as [|fuel (IHv & IHe & IHm)];
    [repeat split; intros; discriminate|].
  split; [|split].
  - intros s v rest. rewrite parse_value_S.
    pose proof (suffix_skip_ws s) as Hws.
    destruct (skip_ws s) as [|c s']; [discriminate|].
    intros H. eapply suffix_consumed; [exact Hws|]. clear Hws.
    destruct (Ascii.eqb c "{").
    { eapply suffix_consumed; [apply suffix_cons|].
      destruct (expect "}" s') as [r|] eqn:He.
      - injection H as _ <-. eapply expect_consumed; [|exact He].
        discriminate.
      - destruct (parse_members fuel s') as [[es r]|] eqn:Hm;
          [|discriminate].
        injection H as _ <-. eapply IHm; eassumption. }
    destruct (Ascii.eqb c "[").
    { eapply suffix_consumed; [apply suffix_cons|].
      destruct (expect "]" s') as [r|] eqn:He.
      - injection H as _ <-. eapply expect_consumed; [|exact He].
        discriminate.
      - destruct (parse_elements fuel s') as [[l r]|] eqn:Hm;
          [|discriminate].
        injection H as _ <-. eapply IHe; eassumption. }
    destruct (Ascii.eqb c dquote).
    { eapply suffix_consumed; [apply suffix_cons|].
      destruct (parse_chars s') as [[str r]|] eqn:Hp; [|discriminate].
      injection H as _ <-.
      destruct (parse_chars_consumed _ _ _ _ (le_n _) Hp) as [pre ->].
      exists pre, dquote. split; [reflexivity | apply dquote_not_backquote]. }
    destruct (startsWith (String c s') "true") eqn:Ht.
    { injection H as _ <-.
      apply (keyword_consumed (String c s') "tru" "e" Ht). discriminate. }
    destruct (startsWith (String c s') "false") eqn:Hf.
    { injection H as _ <-.
      apply (keyword_consumed (String c s') "fals" "e" Hf). discriminate. }
    destruct (startsWith (String c s') "null") eqn:Hn.
    { injection H as _ <-.
      apply (keyword_consumed (String c s') "nul" "l" Hn). discriminate. }
    destruct (parse_number (String c s')) as [[n r]|] eqn:Hnum;
      [|discriminate].
    injection H as _ <-. eapply parse_number_consumed; eassumption.
  - intros s l rest. rewrite parse_elements_S.
    destruct (parse_value fuel s) as [[v r1]|] eqn:Hv; [|discriminate].
    pose proof (consumed_suffix _ _ (IHv _ _ _ Hv)) as Hs1.
    pose proof (suffix_skip_ws r1) as Hws.
    destruct (skip_ws r1) as [|c r2]; [discriminate|].
    destruct (Ascii.eqb c ",").
    + destruct (parse_elements fuel r2) as [[vs r]|] eqn:He; [|discriminate].
      intros [= _ <-].
      eapply suffix_consumed; [|eapply IHe; eassumption].
      eapply suffix_trans; [exact Hs1|].
      eapply suffix_trans; [exact Hws | apply suffix_cons].
    + destruct (Ascii.eqb_spec c "]") as [->|]; [|discriminate].
      intros [= _ <-].
      eapply suffix_consumed;
        [eapply suffix_trans; [exact Hs1 | exact Hws]|].
      apply consumed_cons. discriminate.
  - intros s es rest. rewrite parse_members_S.
    destruct (expect dquote s) as [s1|] eqn:H1; [|discriminate].
    pose proof (consumed_suffix _ _
                  (expect_consumed _ _ _ dquote_not_backquote H1)) as S1.
    destruct (parse_chars s1) as [[k s2]|] eqn:H2; [|discriminate].
    destruct (parse_chars_consumed _ _ _ _ (le_n _) H2) as [pre Hpre].
    assert (S2 : suffix s1 s2).
    { rewrite Hpre. eapply suffix_trans; [eexists; reflexivity|].
      apply suffix_cons. }
    destruct (expect ":" s2) as [s3|] eqn:H3; [|discriminate].
    assert (S3 : suffix s2 s3).
    { apply consumed_suffix. eapply expect_consumed; [|exact H3].
      discriminate. }
    destruct (parse_value fuel s3) as [[v r1]|] eqn:Hv; [|discriminate].
    pose proof (consumed_suffix _ _ (IHv _ _ _ Hv)) as S4.
    pose proof (suffix_skip_ws r1) as Hws.
    assert (Sall : suffix s (skip_ws r1)).
    { repeat (eapply suffix_trans; [eassumption|]). apply suffix_refl. }
    destruct (skip_ws r1) as [|c r2]; [discriminate|].
    destruct (Ascii.eqb c ",").
    + destruct (parse_members fuel r2) as [[es' r]|] eqn:He; [|discriminate].
      intros [= _ <-].
      eapply suffix_consumed; [|eapply IHm; eassumption].
      eapply suffix_trans; [exact Sall | apply suffix_cons].
    + destruct (Ascii.eqb_spec c "}") as [->|]; [|discriminate].
      intros [= _ <-].
      eapply suffix_consumed; [exact Sall|].
      apply consumed_cons. discriminate.
Qed.

(** No JSON text ends with a backquote. *)
Theorem parse_text_backquote s : parse_text (s ++ "`") = None.
Proof.
  unfold parse_text, parse_tree.
  destruct (parse_value _ (s ++ "`")) as [[v rest]|] eqn:Hp; [|reflexivity].
  destruct (skip_ws rest) eqn:Hws; [|reflexivity].
  exfalso.
  destruct (proj1 (parsers_consume _) _ _ _ Hp) as (pre & c & Hs & Hc).
  assert (Hlast : last_char (s ++ "`") = Some "`"%char)
    by (rewrite last_char_app; reflexivity).
  rewrite Hs, last_char_app in Hlast.
  pose proof (skip_ws_blank _ Hws) as Hblank.
  destruct (last_char rest) as [x|].
  - injection Hlast as ->. discriminate.
  - congruence.
Qed.

Lemma drop_two_before_fence x : exists s, drop 2 (x ++ fence) = s ++ "`".
Proof.
  destruct x as [|a [|b x]].
  - now exists "".
  - now exists "`".
  - exists (x ++ "``"). simpl. now rewrite append_assoc.
Qed.

(** When the inner text holds a fence of its own, the closing fence
    survives the stripping: the stripped text ends with a backquote. *)
Lemma replace_inner_fence inner :
  includes (inner ++ "``") fence = true ->
  exists s, replace (inner ++ fence) fence "" = s ++ "`".
Proof.
  induction inner as [|c inner IH]; [discriminate|].
  intros H. change (includes (String c inner ++ "``") fence)
    with (startsWith (String c inner ++ "``") fence
          || includes (inner ++ "``") fence) in H.
  rewrite replace_unfold, fence_inside.
  destruct (startsWith (String c inner ++ "``") fence).
  - apply (drop_two_before_fence inner).
  - destruct (IH H) as [s Hs].
    change (String c inner ++ fence) with (String c (inner ++ fence)).
    cbv beta iota. rewrite Hs. now exists (String c s).
Qed.

Lemma recoverable_text error text :
  recoverable error = Some text ->
  exists message,
    error = NoObjectGeneratedError message true (Some text)
    /\ startsWith text fence_json = true /\ endsWith text fence = true.
Proof.
  destruct error as [n m|m [|] [t|]|sf]; simpl; try discriminate.
  destruct (startsWith t fence_json) eqn:Hs; simpl; [|discriminate].
  destruct (endsWith t fence) eqn:He; [|discriminate].
  intros [= ->]. eauto.
Qed.

(** C7 (the fence that is stripped is not the closing one).  The handler
    tests that the raw text starts with the json fence and ends with a
    fence, and then removes the json fence and the first fence that is
    left.  When the inner text holds no fence, that is the closing fence:
    the level goes on with the parse of the inner text.  A failure the
    handler does not recover, that is any failure that is not of that
    kind, has no text or whose text does not start with the json fence or
    does not end with a fence, is thrown again, ends the level and the
    whole resolution with that exception; the two examples of the
    specification follow.  But when the inner text holds a fence, the
    fence inside is removed and the closing fence stays: the text that is
    parsed ends with a backquote, the platform parser refuses it, and the
    level ends with a syntax error instead of the parse of the inner text.
    This is so for a single block whose object holds a fence inside a
    text, where the parse of the inner text is the object. *)
Theorem fenced_answer_recovery :
  (forall C prompt schemaObject message inner,
      generateText C prompt schemaObject
      = Thrown (NoObjectGeneratedError message true
                  (Some (fence_json ++ inner ++ fence))) ->
      includes (inner ++ "``") fence = false ->
      generate C prompt schemaObject = JSON_parse C inner)
  /\ (forall C prompt schemaObject error,
        generateText C prompt schemaObject = Thrown error ->
        (forall message text,
            error = NoObjectGeneratedError message true (Some text) ->
            startsWith text fence_json = false
            \/ endsWith text fence = false) ->
        generate C prompt schemaObject = Thrown error)
  /\ (forall C fuel operation action instruction result depth properties
             rest propertyToFill propertyDetails error,
        collect_level C fuel operation action result properties [] []
        = Returned (propertyToFill, propertyDetails) ->
        propertyToFill <> [] ->
        generate C (constructExtractionPrompt instruction propertyToFill
                      propertyDetails result)
                 (ZObject propertyToFill Strict) = Thrown error ->
        fst (resolve_levels C fuel operation action instruction
               ((depth, properties) :: rest) result) = Thrown error)
  /\ (forall prompt schemaObject,
        generate (Worked.failing_with Worked.fenced_a1) prompt schemaObject
        = Returned (JObj [("a", JNum 1)]))
  /\ (forall prompt schemaObject,
        generate (Worked.failing_with "not json at all") prompt schemaObject
        = Thrown (NoObjectGeneratedError "No object generated" true
                    (Some "not json at all")))
  /\ (forall C prompt schemaObject message inner,
        JSON_parse C = JSON_parse_text ->
        generateText C prompt schemaObject
        = Thrown (NoObjectGeneratedError message true
                    (Some (fence_json ++ inner ++ fence))) ->
        includes (inner ++ "``") fence = true ->
        exists m,
          generate C prompt schemaObject = Thrown (JsError "SyntaxError" m))
  /\ (Worked.noted_block = fence_json ++ Worked.noted_inner ++ fence
      /\ JSON_parse_text Worked.noted_inner
         = Returned (JObj [("note", JStr "use ```code``` here")])
      /\ forall prompt schemaObject,
         exists m,
           generate (Worked.failing_with Worked.noted_block) prompt
                    schemaObject
           = Thrown (JsError "SyntaxError" m)).
Proof.
  split; [|split; [|split; [|split; [|split; [|split]]]]].
  - intros C prompt schemaObject message inner Hg Hin.
    destruct (single_fence_stripped inner Hin) as (Hs & He & Hstrip).
    unfold generate. rewrite Hg. cbv beta iota delta [recoverable].
    rewrite Hs, He. cbv beta iota delta [andb]. now rewrite Hstrip.
  - intros C prompt schemaObject error Hg Hno.
    unfold generate. rewrite Hg.
    destruct (recoverable error) as [text|] eqn:Hr; [|reflexivity].
    destruct (recoverable_text _ _ Hr) as (m & -> & Hs & He).
    destruct (Hno m text eq_refl); congruence.
  - intros C fuel operation action instruction result depth properties rest
           ptf pd error Hc Hne Hg.
    simpl. unfold resolve_level. rewrite Hc.
    destruct ptf as [|p ptf']; [congruence|]. rewrite Hg. reflexivity.
  - reflexivity.
  - reflexivity.
  - intros C prompt schemaObject message inner Hparse Hg Hin.
    assert (Hs : startsWith (fence_json ++ inner ++ fence) fence_json = true)
      by apply startsWith_app.
    assert (He : endsWith (fence_json ++ inner ++ fence) fence = true)
      by (rewrite <- append_assoc; apply endsWith_app).
    unfold generate. rewrite Hg. cbv beta iota delta [recoverable].
    rewrite Hs, He. cbv beta iota delta [andb].
    unfold strip_fences. rewrite replace_prefix.
    destruct (replace_inner_fence inner Hin) as [s ->].
    rewrite Hparse. unfold JSON_parse_text.
    rewrite parse_text_backquote. eauto.
  - split; [reflexivity|]. split; [vm_compute; reflexivity|].
    intros prompt schemaObject. eexists. vm_compute. reflexivity.
Qed.

Lemma fenced_answer_recovery_witness :
  generate (Worked.failing_with Worked.fenced_a1)
           (mkPrompt ["a"] "set a" None None) (ZObject [("a", ZNumber)] Strict)
  = JSON_parse (Worked.failing_with Worked.fenced_a1)
      (Worked.newline ++ "{" ++ quote "a" ++ ":1}" ++ Worked.newline)
  /\ generate (Worked.failing_with "not json at all")
              (mkPrompt ["a"] "set a" None None)
              (ZObject [("a", ZNumber)] Strict)
     = Thrown (NoObjectGeneratedError "No object generated" true
                 (Some "not json at all")).
Proof.
  split.
  - apply (proj1 fenced_answer_recovery
             (Worked.failing_with Worked.fenced_a1)
             (mkPrompt ["a"] "set a" None None)
             (ZObject [("a", ZNumber)] Strict) "No object generated"
             (Worked.newline ++ "{" ++ quote "a" ++ ":1}" ++ Worked.newline));
      reflexivity.
  - apply (proj1 (proj2 fenced_answer_recovery)
             (Worked.failing_with "not json at all")
             (mkPrompt ["a"] "set a" None None)
             (ZObject [("a", ZNumber)] Strict)).
    + reflexivity.
    + intros message text [= _ <-]. left. reflexivity.
Defined.

(** ** Termination without dynamic properties *)

Section Termination.

Variable C : Collaborators.
Hypothesis Hresponsive : responsive C.

Lemma propertyToSchema_static fuel name property operation result :
  prop_type property <> DYNAMIC ->
  propertyToSchema C (S fuel) name property operation result <> OutOfFuel.
Proof.
  destruct Hresponsive as (_ & _ & Hdrop & _).
  intros Hdyn. simpl.
  destruct (prop_type property) eqn:Ht; try discriminate; try congruence;
    unfold loadDropdownLabels, loadOptions; rewrite Ht; simpl;
    try discriminate;
    specialize (Hdrop operation name result);
    destruct (executeProps_dropdown C operation name result)
      as [[|o os]| |]; simpl; try discriminate; try congruence;
    destruct (filter _ _); discriminate.
Qed.

Lemma buildPropertyDetail_responsive name property operation result :
  buildPropertyDetail C name property operation result <> OutOfFuel.
Proof.
  destruct Hresponsive as (_ & _ & Hdrop & _).
  unfold buildPropertyDetail, loadOptions.
  specialize (Hdrop operation name result).
  destruct (prop_type property); try discriminate;
    destruct (executeProps_dropdown C operation name result);
    simpl; try discriminate; congruence.
Qed.

Lemma collect_level_static fuel operation action result properties :
  static_action action ->
  forall propertyToFill propertyDetails,
    collect_level C (S fuel) operation action result properties
                  propertyToFill propertyDetails <> OutOfFuel.
Proof.
  intros Hstatic.
  induction properties as [|property rest IH]; intros ptf pd;
    cbn [collect_level]; [discriminate|].
  destruct (lookup property (action_props action)) as [decl|] eqn:Hdecl;
    [|destruct (inherited property); [apply IH | discriminate]].
  destruct (existsb _ skipTypes || in_object property result); [apply IH|].
  pose proof (propertyToSchema_static fuel property decl operation result
                (Hstatic _ _ Hdecl)) as Hs.
  pose proof (buildPropertyDetail_responsive property decl operation result)
    as Hd.
  destruct (propertyToSchema C (S fuel) property decl operation result)
    as [sch|e|]; cbn [Js.bind]; [|discriminate|congruence].
  destruct (buildPropertyDetail C property decl operation result)
    as [det|e|]; cbn [Js.bind]; [|discriminate|congruence].
  apply IH.
Qed.

Lemma generate_responsive prompt schemaObject :
  generate C prompt schemaObject <> OutOfFuel.
Proof.
  destruct Hresponsive as (_ & _ & _ & _ & Hgen & Hparse & _).
  unfold generate. specialize (Hgen prompt schemaObject).
  destruct (generateText C prompt schemaObject) as [o|e|];
    try discriminate; try congruence.
  destruct (recoverable e); [apply Hparse | discriminate].
Qed.

Lemma reconcile_terminates details extracted :
  reconcile details extracted <> OutOfFuel.
Proof.
  revert extracted. induction details as [|d rest IH]; intros e;
    [discriminate|].
  rewrite reconcile_step.
  destruct (detail_options d) as [[|o os]|]; auto.
  destruct (is_object e); [|discriminate].
  destruct (lookup (detail_name d) (own_entries e)); auto.
Qed.

Lemma resolve_levels_static fuel operation action instruction levels :
  static_action action ->
  forall result,
    fst (resolve_levels C (S fuel) operation action instruction levels result)
    <> OutOfFuel.
Proof.
  intros Hstatic.
  induction levels as [|[depth properties] rest IH]; intros result;
    [discriminate|].
  rewrite run_cons.
  assert (Hlevel : fst (resolve_level C (S fuel) operation action instruction
                          result properties) <> OutOfFuel).
  { unfold resolve_level.
    pose proof (collect_level_static fuel operation action result properties
                  Hstatic [] []) as Hc.
    destruct (collect_level C (S fuel) operation action result properties
                [] []) as [[ptf pd]| |]; try discriminate; try congruence.
    destruct ptf as [|p ptf']; [discriminate|]. cbn [fst].
    pose proof (generate_responsive
                  (constructExtractionPrompt instruction (p :: ptf') pd result)
                  (ZObject (p :: ptf') Strict)) as Hg.
    destruct (generate C _ _) as [extracted| |];
      simpl; try discriminate; try congruence.
    pose proof (reconcile_terminates pd extracted) as Hr.
    destruct (reconcile pd extracted); simpl;
      try discriminate; congruence. }
  destruct (resolve_level C (S fuel) operation action instruction result
              properties) as [[result'|e|] calls];
    cbn [fst] in *; [apply IH | discriminate | congruence].
Qed.

End Termination.

(** With collaborators that answer and an action without dynamic
    property, [execute] returns a response as soon as the budget is not
    empty. *)
Theorem execute_returns :
  forall C fuel operation,
    responsive C ->
    (forall action,
        getPieceAndActionOrThrow C (pieceName operation)
          (pieceVersion operation) (actionName operation) = Returned action ->
        static_action action) ->
    exists r, execute C (S fuel) operation = Returned r.
Proof.
  intros C fuel operation Hresp Hstatic.
  pose proof (execute_cases C (S fuel) operation) as Hc.
  destruct (execute_body C (S fuel) operation) as [r|e|] eqn:Hbody; eauto.
  exfalso. unfold execute_body in Hbody.
  pose proof Hresp as Hresp'.
  destruct Hresp as (Hget & Hsort & _ & _ & _ & _ & Hrun).
  specialize (Hget (pieceName operation) (pieceVersion operation)
                   (actionName operation)).
  destruct (getPieceAndActionOrThrow C _ _ _) as [action| |] eqn:Ha;
    simpl in Hbody; try discriminate; try congruence.
  specialize (Hsort (action_props action)).
  destruct (sortPropertiesByDependencies C _) as [levels| |];
    simpl in Hbody; try discriminate; try congruence.
  pose proof (resolve_levels_static C Hresp' fuel operation action
                (instruction operation) levels (Hstatic action eq_refl)
                (seed operation)) as Hres.
  unfold resolveProperties in Hbody.
  destruct (fst (resolve_levels C (S fuel) operation action
                   (instruction operation) levels (seed operation)))
    as [resolved| |]; simpl in Hbody; try discriminate; try congruence.
  specialize (Hrun operation (step_of operation resolved)).
  destruct (handle C operation _) as [steps| |];
    simpl in Hbody; try discriminate; try congruence.
  destruct (lookup (actionName operation) steps); discriminate.
Qed.

Lemma execute_returns_witness :
  exists r, execute Worked.note_world 1 Worked.note_operation = Returned r.
Proof.
  apply (execute_returns Worked.note_world 0 Worked.note_operation).
  - repeat split; try discriminate.
    intros text. simpl. unfold JSON_parse_text.
    destruct (parse_text text); discriminate.
  - intros action [= <-] name property.
    simpl. unfold lookup.
    destruct (String.eqb name "note"); [intros [= <-]; discriminate|].
    destruct (String.eqb name "city"); [intros [= <-]|]; discriminate.
Defined.

(** What a level asks the model for is never a property of a skipped
    type, nor a property that is already in the accumulator. *)
Theorem skipped_and_present_never_asked :
  forall C fuel operation action instruction result properties call name,
    In call (snd (resolve_level C fuel operation action instruction result
                    properties)) ->
    asks_for call name ->
    has_key name result = false
    /\ exists property,
         lookup name (action_props action) = Some property
         /\ ~ In (prop_type property)
                 [BASIC_AUTH; OAUTH2; CUSTOM_AUTH; CUSTOM; MARKDOWN].
Proof.
  intros C fuel operation action instruction result properties call name
         Hin Hasks.
  destruct (level_asks_fillable C fuel operation action instruction result
              properties call name Hin Hasks)
    as (_ & Hnot & property & Hdecl & Hskip).
  split; [exact Hnot|]. exists property. split; [exact Hdecl|].
  intros Hin'. unfold skipTypes in Hskip.
  destruct Hin' as [H|[H|[H|[H|[H|[]]]]]]; rewrite <- H in Hskip;
    discriminate.
Qed.

Lemma skipped_and_present_never_asked_witness :
  has_key "query" ([] : resolved) = false
  /\ exists property,
       lookup "query" (action_props Worked.token_action) = Some property
       /\ ~ In (prop_type property)
               [BASIC_AUTH; OAUTH2; CUSTOM_AUTH; CUSTOM; MARKDOWN].
Proof.
  apply (skipped_and_present_never_asked Worked.token_world 1
           Worked.token_operation
           (mkAction "Call a service"
              [("token", mkProperty OAUTH2 true None None None);
               ("query", mkProperty SHORT_TEXT true None None None)])
           "look up paris" [] ["token"; "query"]
           (mkCall (mkPrompt ["query"] "look up paris" None
                      (Some [mkDetail "query" SHORT_TEXT None None None]))
                   (ZObject [("query", ZString)] Strict))
           "query").
  - left. reflexivity.
  - left. simpl. now left.
Defined.


(** ** The seed, the prompts and the calls of a run *)

Section Seed.

(** The body of the loop over the predefined fields. *)
Let seed_field (result : resolved) (entry : string * PredefinedField)
  : resolved :=
  match field_mode (snd entry) with
  | CHOOSE_YOURSELF => set (fst entry) (field_value (snd entry)) result
  | LEAVE_EMPTY => set (fst entry) None result
  | AGENT_DECIDE => result
  end.



Lemma seed_fields_keep_value fs : forall acc name v,
  (forall field, In (name, field) fs -> field_mode field = AGENT_DECIDE) ->
  lookup name acc = Some v ->
  lookup name (fold_left seed_field fs acc) = Some v.
Proof.
  induction fs as [|[n f] rest IH]; intros acc name v Hno Hv; [exact Hv|].
  cbn [fold_left]. apply IH; [intros field Hin; apply Hno; now right|].
  unfold seed_field. cbn [fst snd].
  destruct (String.eqb_spec name n) as [->|Hne].
  - now rewrite (Hno f (or_introl eq_refl)).
  - destruct (field_mode f); rewrite ?lookup_set_other; auto.
Qed.

End Seed.



(** The calls of a level. *)
Lemma level_calls C fuel operation action instruction result properties call :
  In call (snd (resolve_level C fuel operation action instruction result
                  properties)) ->
  exists p propertyToFill propertyDetails,
    call = mkCall (constructExtractionPrompt instruction (p :: propertyToFill)
                     propertyDetails result)
                  (ZObject (p :: propertyToFill) Strict)
    /\ snd (resolve_level C fuel operation action instruction result
              properties) = [call].
Proof.
  unfold resolve_level.
  destruct (collect_level C fuel operation action result properties [] [])
    as [[ptf pd]| |]; try (intros []).
  destruct ptf as [|p ptf]; [intros []|].
  cbn [snd]. intros [<-|[]]. eauto.
Qed.

Lemma run_prompts_keep C fuel operation action instruction levels :
  forall result call k v,
    (forall c, In c (snd (resolve_levels C fuel operation action instruction
                            levels result)) -> honours_schema C c) ->
    lookup k result = Some v ->
    In call (snd (resolve_levels C fuel operation action instruction levels
                    result)) ->
    exists existing,
      prompt_existingValues (call_prompt call) = Some existing
      /\ lookup k existing = Some v.
Proof.
  induction levels as [|[depth properties] rest IH];
    intros result call k v Hhon Hv Hin; [destruct Hin|].
  rewrite run_cons in Hin, Hhon.
  pose proof (level_calls C fuel operation action instruction result
                properties) as Hcalls.
  pose proof (level_keeps_values C fuel operation action instruction result
                properties) as Hkeep.
  assert (Hhere : In call (snd (resolve_level C fuel operation action
                                  instruction result properties)) ->
                  exists existing,
                    prompt_existingValues (call_prompt call) = Some existing
                    /\ lookup k existing = Some v).
  { intros Hc. destruct (Hcalls call Hc) as (p & ptf & pd & -> & _).
    exists result. split; [|exact Hv].
    cbn. destruct result; [discriminate | reflexivity]. }
  destruct (resolve_level C fuel operation action instruction result
              properties) as [[result'|e|] calls];
    cbn [fst snd] in *; auto.
  apply in_app_or in Hin as [Hin|Hin]; auto.
  apply (IH result' call k v); auto.
  - intros c Hc. apply Hhon, in_or_app. now right.
  - apply (Hkeep result' k v eq_refl); auto.
    intros c Hc. apply Hhon, in_or_app. now left.
Qed.

(** The predefined connection goes to the model: when the calls of the
    run end with objects that honour their schemas, the already filled
    values of every prompt hold the auth value as it was given. *)
Theorem auth_is_sent_to_the_model
  C fuel levels instruction action operation predefined a call :
  predefinedInput operation = Some predefined ->
  auth predefined = Some a ->
  truthy a = true ->
  (forall field, In ("auth", field) (fields predefined) ->
                 field_mode field = AGENT_DECIDE) ->
  (forall c, In c (snd (resolveProperties C fuel levels instruction action
                          operation)) -> honours_schema C c) ->
  In call (snd (resolveProperties C fuel levels instruction action
                  operation)) ->
  exists existing,
    prompt_existingValues (call_prompt call) = Some existing
    /\ lookup "auth" existing = Some (Some a).
Proof.
  intros Hp Ha Ht Hno Hhon Hin. unfold resolveProperties in *.
  apply (run_prompts_keep C fuel operation action instruction levels
           (seed operation) call "auth" (Some a) Hhon); [|exact Hin].
  unfold seed. rewrite Hp, Ha, Ht.
  apply seed_fields_keep_value; [exact Hno | reflexivity].
Qed.

Lemma auth_is_sent_to_the_model_witness :
  exists existing,
    prompt_existingValues
      (call_prompt
         (mkCall (mkPrompt ["note"; "city"] "leave a note about paris"
                    (Some [("auth", Some Worked.secret)])
                    (Some [mkDetail "note" SHORT_TEXT None None None;
                           mkDetail "city" STATIC_DROPDOWN None
                                    (Some Worked.cities) None]))
                 (ZObject [("note", ZString);
                           ("city", ZEnum ["Paris"; "London"])] Strict)))
    = Some existing
    /\ lookup "auth" existing = Some (Some Worked.secret).
Proof.
  apply (auth_is_sent_to_the_model Worked.note_world 1
           [(0%nat, ["note"; "city"])] "leave a note about paris"
           Worked.note_action Worked.secret_operation
           (mkPredefined (Some Worked.secret) []) Worked.secret).
  - reflexivity.
  - reflexivity.
  - reflexivity.
  - intros field [].
  - intros c [<-|[]] extracted Hg. injection Hg as <-.
    exists [("note", JStr "paris"); ("city", JStr "paris")],
           [("note", ZString); ("city", ZEnum ["Paris"; "London"])], Strict.
    repeat split. intros k Hk. unfold has_key in *. simpl in *.
    destruct (String.eqb k "note"); [reflexivity|].
    destruct (String.eqb k "city"); [reflexivity | discriminate].
  - left. reflexivity.
Defined.

(** A run issues at most one model call per level, each for a closed
    object schema with at least one field, named in the prompt. *)
Theorem model_calls_of_a_run C fuel operation action instruction levels :
  forall result,
    (length (snd (resolve_levels C fuel operation action instruction levels
                    result)) <= length levels)%nat
    /\ forall call,
         In call (snd (resolve_levels C fuel operation action instruction
                         levels result)) ->
         exists shape,
           shape <> []
           /\ call_schema call = ZObject shape Strict
           /\ prompt_propertyNames (call_prompt call) = keys shape
           /\ prompt_instruction (call_prompt call) = instruction.
Proof.
  induction levels as [|[depth properties] rest IH]; intros result.
  - split; [apply Nat.le_refl | intros call []].
  - rewrite run_cons.
    pose proof (level_calls C fuel operation action instruction result
                  properties) as Hcalls.
    assert (Hlen : (length (snd (resolve_level C fuel operation action
                                   instruction result properties)) <= 1)%nat).
    { destruct (snd (resolve_level C fuel operation action instruction result
                       properties)) as [|c cs] eqn:E; [auto|].
      destruct (Hcalls c (or_introl eq_refl)) as (_ & _ & _ & _ & [= ->]).
      auto. }
    assert (Hshape : forall call,
               In call (snd (resolve_level C fuel operation action
                               instruction result properties)) ->
               exists shape,
                 shape <> []
                 /\ call_schema call = ZObject shape Strict
                 /\ prompt_propertyNames (call_prompt call) = keys shape
                 /\ prompt_instruction (call_prompt call) = instruction).
    { intros call Hc. destruct (Hcalls call Hc) as (p & ptf & pd & -> & _).
      exists (p :: ptf). repeat split. discriminate. }
    destruct (resolve_level C fuel operation action instruction result
                properties) as [[result'|e|] calls]; cbn [fst snd] in *.
    + destruct (IH result') as [IHlen IHshape]. split.
      * rewrite length_app. cbn [length]. lia.
      * intros call Hin. apply in_app_or in Hin as [Hin|Hin]; auto.
    + split; [cbn [length]; lia | exact Hshape].
    + split; [cbn [length]; lia | exact Hshape].
Qed.

Lemma model_calls_of_a_run_witness :
  exists shape,
    shape <> []
    /\ call_schema
         (mkCall (mkPrompt ["note"; "city"] "leave a note about paris" None
                    (Some [mkDetail "note" SHORT_TEXT None None None;
                           mkDetail "city" STATIC_DROPDOWN None
                                    (Some Worked.cities) None]))
                 (ZObject [("note", ZString);
                           ("city", ZEnum ["Paris"; "London"])] Strict))
       = ZObject shape Strict
    /\ prompt_propertyNames
         (call_prompt
            (mkCall (mkPrompt ["note"; "city"] "leave a note about paris" None
                       (Some [mkDetail "note" SHORT_TEXT None None None;
                              mkDetail "city" STATIC_DROPDOWN None
                                       (Some Worked.cities) None]))
                    (ZObject [("note", ZString);
                              ("city", ZEnum ["Paris"; "London"])] Strict)))
       = keys shape
    /\ prompt_instruction
         (call_prompt
            (mkCall (mkPrompt ["note"; "city"] "leave a note about paris" None
                       (Some [mkDetail "note" SHORT_TEXT None None None;
                              mkDetail "city" STATIC_DROPDOWN None
                                       (Some Worked.cities) None]))
                    (ZObject [("note", ZString);
                              ("city", ZEnum ["Paris"; "London"])] Strict)))
       = "leave a note about paris".
Proof.
  apply (proj2 (model_calls_of_a_run Worked.note_world 1
                  Worked.note_operation Worked.note_action
                  "leave a note about paris" [(0%nat, ["note"; "city"])] [])).
  left. reflexivity.
Defined.

Lemma collect_level_undeclared C fuel operation action result properties p :
  In p properties -> lookup p (action_props action) = None ->
  inherited p = false ->
  forall propertyToFill propertyDetails r,
    collect_level C fuel operation action result properties
                  propertyToFill propertyDetails <> Returned r.
Proof.
  induction properties as [|q rest IH]; [intros []|].
  intros Hin Hnone Hplain ptf pd r. cbn [collect_level].
  destruct (lookup q (action_props action)) as [decl|] eqn:Hq.
  - destruct Hin as [->|Hin]; [congruence|].
    destruct (existsb _ skipTypes || in_object q result); [now apply IH|].
    destruct (propertyToSchema C fuel q decl operation result);
      cbn [Js.bind]; try discriminate.
    destruct (buildPropertyDetail C q decl operation result);
      cbn [Js.bind]; try discriminate.
    now apply IH.
  - destruct (inherited q) eqn:Hinh; [|discriminate].
    destruct Hin as [->|Hin]; [congruence | now apply IH].
Qed.

(** A level that names a property the action does not declare, and whose
    name is no inherited member, issues no model call and does not return:
    reading the type of the missing declaration throws.  A property whose
    name is an inherited member is passed over, declared or not. *)
Theorem undeclared_property_aborts C fuel operation action instruction result :
  (forall properties p,
      In p properties -> lookup p (action_props action) = None ->
      inherited p = false ->
      snd (resolve_level C fuel operation action instruction result
             properties) = []
      /\ forall r,
           fst (resolve_level C fuel operation action instruction result
                  properties) <> Returned r)
  /\ (forall p rest propertyToFill propertyDetails,
        inherited p = true ->
        collect_level C fuel operation action result (p :: rest)
                      propertyToFill propertyDetails
        = collect_level C fuel operation action result rest
                        propertyToFill propertyDetails).
Proof.
  split.
  - intros properties p Hin Hnone Hplain. unfold resolve_level.
    pose proof (collect_level_undeclared C fuel operation action result
                  properties p Hin Hnone Hplain [] []) as Hc.
    destruct (collect_level C fuel operation action result properties [] [])
      as [r0| |]; [now destruct (Hc r0) | |]; split; try reflexivity;
      intros r; discriminate.
  - intros p rest ptf pd Hinh. cbn [collect_level]. unfold in_object.
    rewrite Hinh, Bool.orb_true_r.
    destruct (lookup p (action_props action)) as [decl|]; [|reflexivity].
    now rewrite Bool.orb_true_r.
Qed.

Lemma undeclared_property_aborts_witness :
  snd (resolve_level Worked.note_world 1 Worked.note_operation
         Worked.note_action "leave a note about paris" [] ["note"; "ghost"])
  = []
  /\ forall r,
       fst (resolve_level Worked.note_world 1 Worked.note_operation
              Worked.note_action "leave a note about paris" []
              ["note"; "ghost"]) <> Returned r.
Proof.
  apply (proj1 (undeclared_property_aborts Worked.note_world 1
                  Worked.note_operation Worked.note_action
                  "leave a note about paris" [])
           ["note"; "ghost"] "ghost").
  - right. now left.
  - reflexivity.
  - reflexivity.
Defined.

(** A fenced answer whose inner text holds a fence of its own is not
    recovered: the first of the remaining fences is stripped, the text
    that is parsed still ends with a backquote, and the parse error ends
    the level. *)
Theorem nested_fence_is_not_recovered C prompt schemaObject message inner :
  JSON_parse C = JSON_parse_text ->
  generateText C prompt schemaObject
  = Thrown (NoObjectGeneratedError message true
              (Some (fence_json ++ inner ++ fence))) ->
  includes (inner ++ "``") fence = true ->
  exists m, generate C prompt schemaObject = Thrown (JsError "SyntaxError" m).
Proof.
  intros Hparse Hg Hin.
  assert (Hs : startsWith (fence_json ++ inner ++ fence) fence_json = true)
    by apply startsWith_app.
  assert (He : endsWith (fence_json ++ inner ++ fence) fence = true)
    by (rewrite <- append_assoc; apply endsWith_app).
  unfold generate. rewrite Hg. cbv beta iota delta [recoverable].
  rewrite Hs, He. cbv beta iota delta [andb].
  unfold strip_fences. rewrite replace_prefix.
  destruct (replace_inner_fence inner Hin) as [s ->].
  rewrite Hparse. unfold JSON_parse_text.
  rewrite parse_text_backquote. eauto.
Qed.

Lemma nested_fence_is_not_recovered_witness :
  exists m,
    generate (Worked.failing_with (fence_json ++ Worked.two_blocks ++ fence))
             (mkPrompt ["a"] "set a" None None)
             (ZObject [("a", ZNumber)] Strict)
    = Thrown (JsError "SyntaxError" m).
Proof.
  apply (nested_fence_is_not_recovered
           (Worked.failing_with (fence_json ++ Worked.two_blocks ++ fence))
           (mkPrompt ["a"] "set a" None None)
           (ZObject [("a", ZNumber)] Strict)
           "No object generated" Worked.two_blocks).
  - reflexivity.
  - reflexivity.
  - reflexivity.
Defined.

(** ** The tool set *)

Lemma has_key_spread {A : Type} k (base extra : list (string * A)) :
  has_key k (spread base extra) = has_key k base || has_key k extra.
Proof.
  unfold spread. revert base.
  induction extra as [|[k' v'] rest IH]; intros base; cbn [fold_left].
  - unfold has_key at 3. cbn. now rewrite Bool.orb_false_r.
  - rewrite IH, has_key_set. cbn [fst snd].
    unfold has_key at 4. cbn [lookup].
    destruct (String.eqb k k'); cbn;
      [now rewrite Bool.orb_true_r|].
    reflexivity.
Qed.

Lemma In_update {A : Type} kv k (v : A) m :
  In kv (update k v m) -> kv = (k, v) \/ In kv m.
Proof.
  induction m as [|[k' v'] rest IH]; cbn [update]; [intros []|].
  destruct (String.eqb_spec k k') as [->|Hne]; cbn [In].
  - intros [<-|H]; auto.
  - intros [<-|H]; auto. destruct (IH H); auto.
Qed.

Lemma In_insert_index {A : Type} kv i k (v : A) m :
  In kv (insert_index i k v m) -> kv = (k, v) \/ In kv m.
Proof.
  induction m as [|[k' v'] rest IH]; cbn [insert_index In].
  - intros [<-|[]]. now left.
  - destruct (array_index k') as [j|]; [destruct (j <? i)%Z|]; cbn [In].
    + intros [<-|H]; auto. destruct (IH H); auto.
    + intros [<-|[<-|H]]; auto.
    + intros [<-|[<-|H]]; auto.
Qed.

Lemma In_set {A : Type} kv k (v : A) m :
  In kv (set k v m) -> kv = (k, v) \/ In kv m.
Proof.
  unfold set. destruct (has_key k m); [apply In_update|].
  destruct (array_index k); [apply In_insert_index|].
  intros H. apply in_app_or in H as [H|[<-|[]]]; auto.
Qed.

Lemma In_spread {A : Type} kv (base extra : list (string * A)) :
  In kv (spread base extra) -> In kv base \/ In kv extra.
Proof.
  unfold spread. revert base.
  induction extra as [|[k v] rest IH]; intros base; cbn [fold_left];
    [auto|].
  intros H. destruct (IH _ H) as [Hs|Hr]; [|right; now right].
  cbn [fst snd] in Hs. destruct (In_set _ _ _ _ Hs) as [->|Hb]; auto.
  right. now left.
Qed.

Lemma Promise_all_returned {A B : Type} (f : A -> outcome B) l xs :
  Promise_all (map f l) = Returned xs ->
  Forall2 (fun a x => f a = Returned x) l xs.
Proof.
  revert xs. induction l as [|a l IH]; intros xs; cbn [map Promise_all].
  - intros [= <-]. constructor.
  - destruct (f a) as [x| |] eqn:Hf; cbn [Js.bind]; try discriminate.
    destruct (Promise_all (map f l)) as [ys| |]; cbn [Js.bind];
      try discriminate.
    intros [= <-]. constructor; auto.
Qed.

Lemma Promise_all_all {A B : Type} (f : A -> outcome B) l :
  (forall a, In a l -> exists x, f a = Returned x) ->
  exists xs, Promise_all (map f l) = Returned xs.
Proof.
  induction l as [|a l IH]; intros H; cbn [map Promise_all]; [eauto|].
  destruct (H a (or_introl eq_refl)) as [x ->]. cbn [Js.bind].
  destruct IH as [xs ->]; [intros b Hb; apply H; now right|].
  cbn [Js.bind]. eauto.
Qed.

Lemma Promise_all_rejected {A B : Type} (f : A -> outcome B) l a :
  In a l -> (forall x, f a <> Returned x) ->
  forall xs, Promise_all (map f l) <> Returned xs.
Proof.
  intros Hin Hno xs H. apply Promise_all_returned in H.
  induction H as [|b x l xs Hb _ IH]; [contradiction|].
  destruct Hin as [->|Hin]; [now apply (Hno x) | auto].
Qed.
(** The tool set handed to the agent is all or nothing: one piece that
    cannot be loaded makes the construction fail, and it succeeds when
    every piece loads.  The set then has one entry per tool name; an entry
    carries the description of the action of a tool of that name, and runs
    [execute] on that tool's piece, action and predefined input with the
    instruction it is given. *)
Theorem tools_all_or_nothing C fuel pieceTools :
  (forall tool e,
      In tool pieceTools ->
      getPieceAndActionOrThrow C (apt_pieceName tool) (apt_pieceVersion tool)
                               (apt_actionName tool) = Thrown e ->
      forall r, tools C fuel pieceTools <> Returned r)
  /\ ((forall tool, In tool pieceTools ->
         exists action,
           getPieceAndActionOrThrow C (apt_pieceName tool)
             (apt_pieceVersion tool) (apt_actionName tool) = Returned action) ->
      exists r, tools C fuel pieceTools = Returned r)
  /\ (forall r, tools C fuel pieceTools = Returned r ->
        (forall name, has_key name r = true <->
                      exists tool, In tool pieceTools
                                   /\ apt_toolName tool = name)
        /\ (forall name made,
              In (name, made) r ->
              exists tool action,
                In tool pieceTools
                /\ apt_toolName tool = name
                /\ getPieceAndActionOrThrow C (apt_pieceName tool)
                     (apt_pieceVersion tool) (apt_actionName tool)
                   = Returned action
                /\ ai_name made = name
                /\ ai_description made = action_description action
                /\ forall instruction,
                     ai_execute made instruction
                     = execute C fuel (operation_of tool instruction))).
Proof.
  split; [|split].
  - intros tool e Hin Hthrown r. unfold tools.
    destruct (Promise_all (map (piece_tool C fuel) pieceTools))
      as [xs| |] eqn:Hall; cbn [Js.bind]; try discriminate.
    exfalso. revert Hall.
    apply (Promise_all_rejected (piece_tool C fuel) pieceTools tool Hin).
    intros x. unfold piece_tool. rewrite Hthrown. discriminate.
  - intros Hall. unfold tools.
    destruct (Promise_all_all (piece_tool C fuel) pieceTools) as [xs ->];
      [|cbn [Js.bind]; eauto].
    intros tool Hin. destruct (Hall tool Hin) as [action Ha].
    unfold piece_tool. rewrite Ha. cbn [Js.bind]. eauto.
  - intros r. unfold tools.
    destruct (Promise_all (map (piece_tool C fuel) pieceTools))
      as [xs| |] eqn:Hall; cbn [Js.bind]; try discriminate.
    intros [= <-]. apply Promise_all_returned in Hall.
    assert (Hmade : forall made, In made xs ->
              exists tool action,
                In tool pieceTools
                /\ getPieceAndActionOrThrow C (apt_pieceName tool)
                     (apt_pieceVersion tool) (apt_actionName tool)
                   = Returned action
                /\ ai_name made = apt_toolName tool
                /\ ai_description made = action_description action
                /\ forall instruction,
                     ai_execute made instruction
                     = execute C fuel (operation_of tool instruction)).
    { clear - Hall. induction Hall as [|tool made l xs Hm _ IH];
        intros made' [].
      - subst made'. unfold piece_tool in Hm.
        destruct (getPieceAndActionOrThrow C _ _ _) as [action| |] eqn:Ha;
          cbn [Js.bind] in Hm; try discriminate.
        injection Hm as <-. exists tool, action.
        split; [now left|]. repeat split; assumption.
      - destruct (IH made' H) as (tool' & action & Hin & Hrest).
        exists tool', action. split; [now right | exact Hrest]. }
    assert (Htool : forall tool, In tool pieceTools ->
              exists made, In made xs /\ ai_name made = apt_toolName tool).
    { clear - Hall. induction Hall as [|tool made l xs Hm _ IH];
        intros tool' [].
      - subst tool'. exists made. split; [now left|].
        unfold piece_tool in Hm.
        destruct (getPieceAndActionOrThrow C _ _ _); cbn [Js.bind] in Hm;
          try discriminate.
        now injection Hm as <-.
      - destruct (IH tool' H) as (made' & Hin & Hn). exists made'.
        split; [now right | exact Hn]. }
    split.
    + intros name. unfold fromEntries. rewrite !has_key_spread.
      change (has_key name (@nil (string * Tool))) with false.
      cbn [orb]. rewrite has_key_In. unfold keys. rewrite map_map.
      cbn [fst]. rewrite in_map_iff. split.
      * intros (made & Hn & Hin).
        destruct (Hmade made Hin) as (tool & action & Ht & _ & Hname & _).
        exists tool. split; [exact Ht | congruence].
      * intros (tool & Hin & Hn).
        destruct (Htool tool Hin) as (made & Hm & Hname).
        exists made. split; [congruence | exact Hm].
    + intros name made Hin. unfold fromEntries in Hin.
      apply In_spread in Hin as [[]|Hin].
      apply In_spread in Hin as [[]|Hin].
      apply in_map_iff in Hin as (made' & [= <- <-] & Hin).
      destruct (Hmade made' Hin) as (tool & action & Ht & Ha & Hn & Hd & He).
      exists tool, action. repeat split; auto.
Qed.

Lemma tools_all_or_nothing_witness :
  exists r, tools Worked.note_world 1 [Worked.note_tool] = Returned r.
Proof.
  apply (proj1 (proj2 (tools_all_or_nothing Worked.note_world 1
                         [Worked.note_tool]))).
  intros tool [<-|[]]. eexists. reflexivity.
Defined.

(** ** What the resolved input holds *)

Lemma has_key_map_Some k (m : list (string * json)) :
  has_key k (map (fun kv => (fst kv, Some (snd kv))) m) = has_key k m.
Proof. unfold has_key. rewrite lookup_map_Some. now destruct (lookup k m). Qed.

Lemma level_new_keys C fuel operation action instruction result properties
  result' name :
  fst (resolve_level C fuel operation action instruction result properties)
  = Returned result' ->
  (forall call,
      In call (snd (resolve_level C fuel operation action instruction result
                      properties)) -> honours_schema C call) ->
  has_key name result' = true ->
  has_key name result = true \/ fillable action result properties name.
Proof.
  unfold resolve_level.
  destruct (collect_level C fuel operation action result properties [] [])
    as [[ptf pd]| |] eqn:Hc; try discriminate.
  destruct (collect_level_sound _ _ _ _ _ _ _ _ _ _ Hc) as [Hf _].
  destruct ptf as [|p rest]; cbn [fst snd].
  - intros [= <-] _ Hk. now left.
  - set (ptf := p :: rest) in *.
    destruct (generate C _ _) as [extracted| |] eqn:Hg; cbn [Js.bind];
      try discriminate.
    destruct (reconcile pd extracted) as [reconciled| |] eqn:Hr;
      cbn [Js.bind]; try discriminate.
    intros [= <-] Hhon Hk.
    destruct (Hhon _ (or_introl eq_refl) _ Hg)
      as (entries & shape & mode & -> & Hshape & Hsub).
    cbn [call_schema] in Hshape. injection Hshape as <- <-.
    unfold merge in Hk. rewrite has_key_spread, has_key_map_Some in Hk.
    apply Bool.orb_true_iff in Hk as [Hk|Hk]; [now left|].
    apply has_key_In in Hk. rewrite (reconcile_keys _ _ _ Hr) in Hk.
    apply has_key_In in Hk. cbn [own_entries] in Hk.
    destruct (Hf name (Hsub _ Hk)) as [Hold|Hfill]; [discriminate|].
    now right.
Qed.

Lemma run_new_keys C fuel operation action instruction levels :
  forall result final name,
    fst (resolve_levels C fuel operation action instruction levels result)
    = Returned final ->
    (forall call,
        In call (snd (resolve_levels C fuel operation action instruction
                        levels result)) -> honours_schema C call) ->
    has_key name final = true ->
    has_key name result = true
    \/ exists property,
         lookup name (action_props action) = Some property
         /\ existsb (PropertyType_eqb (prop_type property)) skipTypes = false.
Proof.
  induction levels as [|[depth properties] rest IH];
    intros result final name.
  - cbn. intros [= <-] _ Hk. now left.
  - rewrite run_cons.
    pose proof (level_new_keys C fuel operation action instruction result
                  properties) as Hlevel.
    destruct (resolve_level C fuel operation action instruction result
                properties) as [[result'|e|] calls];
      cbn [fst snd] in *; try discriminate.
    intros Hrun Hhon Hk.
    destruct (IH result' final name Hrun) as [Hk'|Hdecl]; auto.
    + intros call Hin. apply Hhon, in_or_app. now right.
    + destruct (Hlevel result' name eq_refl) as [Hold|(_ & _ & Hdecl)]; auto.
      intros call Hin. apply Hhon, in_or_app. now left.
Qed.

(** What the resolved input holds: besides the predefined values, only
    properties the action declares with a type that is not skipped, when
    the calls of the run end with objects that honour their schemas. *)
Theorem resolved_keys_are_seeded_or_extracted
  C fuel levels instruction action operation final name :
  fst (resolveProperties C fuel levels instruction action operation)
  = Returned final ->
  (forall call,
      In call (snd (resolveProperties C fuel levels instruction action
                      operation)) -> honours_schema C call) ->
  has_key name final = true ->
  has_key name (seed operation) = true
  \/ exists property,
       lookup name (action_props action) = Some property
       /\ ~ In (prop_type property)
               [BASIC_AUTH; OAUTH2; CUSTOM_AUTH; CUSTOM; MARKDOWN].
Proof.
  intros Hrun Hhon Hk. unfold resolveProperties in *.
  destruct (run_new_keys C fuel operation action instruction levels
              (seed operation) final name Hrun Hhon Hk)
    as [Hseed|(property & Hdecl & Hskip)]; [now left|].
  right. exists property. split; [exact Hdecl|].
  intros Hin. unfold skipTypes in Hskip.
  destruct Hin as [H|[H|[H|[H|[H|[]]]]]]; rewrite <- H in Hskip;
    discriminate.
Qed.

Lemma resolved_keys_are_seeded_or_extracted_witness :
  has_key "note" (seed Worked.chosen_operation) = true
  \/ exists property,
       lookup "note" (action_props Worked.note_action) = Some property
       /\ ~ In (prop_type property)
               [BASIC_AUTH; OAUTH2; CUSTOM_AUTH; CUSTOM; MARKDOWN].
Proof.
  apply (resolved_keys_are_seeded_or_extracted Worked.polite_world 1
           [(0%nat, ["note"; "city"])] "leave a note about berlin"
           Worked.note_action Worked.chosen_operation
           [("city", Some (JStr "LON")); ("note", Some (JStr "hi"))] "note").
  - reflexivity.
  - intros call [<-|[]] extracted Hg. injection Hg as <-.
    exists [("note", JStr "hi")], [("note", ZString)], Strict.
    repeat split. intros k Hk. unfold has_key in *. simpl in *.
    destruct (String.eqb k "note"); [reflexivity | discriminate].
  - reflexivity.
Defined.

(* ================================================================== *)
(** * Object and JSON properties *)
(* ================================================================== *)






Lemma fieldSchema_of_returns requiredFields fieldName fieldDef :
  fieldDef <> JNull ->
  exists fs, fieldSchema_of requiredFields fieldName fieldDef = Returned fs.
Proof.
  intros H. destruct fieldDef; try congruence; eexists; reflexivity.
Qed.

Lemma shape_of_null requiredFields properties f :
  In (f, JNull) properties ->
  forall acc,
    shape_of requiredFields properties acc
    = Thrown (TypeError "Cannot read properties of null (reading 'type')").
Proof.
  induction properties as [|[f0 def0] rest IH]; [intros []|].
  intros Hin acc. cbn [shape_of].
  destruct def0 eqn:Hdef; try reflexivity;
    (destruct Hin as [[= ]|Hin]);
    (destruct (fieldSchema_of_returns requiredFields f0 def0) as [fs Hfs];
     [rewrite Hdef; discriminate|];
     rewrite Hdef in Hfs; rewrite Hfs; cbn [Js.bind]; now apply IH).
Qed.



(** Under a dynamic property the default value of a discovered payload is
    used: a descriptor gives the derived schema, another default a hint
    in the description. *)
Example dynamic_payload_schema :
  propertyToSchema (Worked.flow_world OBJECT Worked.descriptor) 2 "flowProps"
    Worked.flowProps Worked.note_operation []
  = Returned (ZObject [("payload",
                        ZObject [("amount", ZNumber);
                                 ("memo", ZNullable ZString)] Loose)] Loose)
  /\ propertyToSchema
       (Worked.flow_world JSON (JObj [("a", JNum 1)])) 2 "flowProps"
       Worked.flowProps Worked.note_operation []
     = Returned
         (ZObject [("payload",
                    ZDescribed
                      (String.append "Expected structure: "
                         (JSON_stringify (JObj [("a", JNum 1)])))
                      open_object)] Loose).
Proof. split; reflexivity. Qed.


(** ** Further properties of the schema synthesizer *)

Lemma propertyToSchema_post_processed_witness :
  description_of (ZNullable (ZDescribed "Tags to attach" ZNumber))
  = declared_description (prop_description Worked.count_property)
  /\ is_nullable (ZNullable (ZDescribed "Tags to attach" ZNumber))
     = negb (prop_required Worked.count_property).
Proof.
  apply (propertyToSchema_post_processed Worked.note_world 1 "count"
           Worked.count_property Worked.note_operation []).
  - discriminate.
  - reflexivity.
Defined.

(** When the options of a dropdown cannot be loaded, its schema is the
    permissive union: the synthesis does not fail.  The property detail
    loads the options again, outside any handler, so the level that
    reaches the property (which is declared and not [in] the accumulator)
    still ends with the exception of the loader. *)
Theorem dropdown_loader_failure C fuel name property operation result e :
  prop_type property = DROPDOWN ->
  executeProps_dropdown C operation name result = Thrown e ->
  propertyToSchema C (S fuel) name property operation result
  = Returned (post_process property (ZUnion [ZString; ZNumber; open_object]))
  /\ buildPropertyDetail C name property operation result = Thrown e
  /\ forall action rest propertyToFill propertyDetails,
       lookup name (action_props action) = Some property ->
       in_object name result = false ->
       collect_level C (S fuel) operation action result (name :: rest)
                     propertyToFill propertyDetails = Thrown e.
Proof.
  intros Ht He.
  assert (Hs : propertyToSchema C (S fuel) name property operation result
               = Returned (post_process property
                             (ZUnion [ZString; ZNumber; open_object]))).
  { cbn [propertyToSchema]. rewrite Ht.
    unfold loadDropdownLabels, loadOptions. rewrite Ht, He. reflexivity. }
  assert (Hd : buildPropertyDetail C name property operation result = Thrown e).
  { unfold buildPropertyDetail, loadOptions. rewrite Ht, He. reflexivity. }
  split; [exact Hs|]. split; [exact Hd|].
  intros action rest ptf pd Hdecl Habsent.
  cbn [collect_level]. rewrite Hdecl, Ht, Habsent, Hs, Hd. reflexivity.
Qed.

Lemma dropdown_loader_failure_witness :
  propertyToSchema Worked.offline_world 1 "region" Worked.region_property
                   Worked.note_operation []
  = Returned (post_process Worked.region_property
                (ZUnion [ZString; ZNumber; open_object]))
  /\ buildPropertyDetail Worked.offline_world "region"
       Worked.region_property Worked.note_operation []
     = Thrown Worked.offline
  /\ forall action rest propertyToFill propertyDetails,
       lookup "region" (action_props action) = Some Worked.region_property ->
       in_object "region" ([] : resolved) = false ->
       collect_level Worked.offline_world 1 Worked.note_operation action []
                     ("region" :: rest) propertyToFill propertyDetails
       = Thrown Worked.offline.
Proof.
  apply (dropdown_loader_failure Worked.offline_world 0 "region"
           Worked.region_property Worked.note_operation [] Worked.offline);
    reflexivity.
Defined.

(** The schema of a static dropdown with at least one non-empty label
    accepts the non-empty labels of its options and, when the property is
    optional, [null]; it accepts nothing else, not even an absent value. *)
Theorem static_dropdown_accepts_labels C fuel name property operation result :
  prop_type property = STATIC_DROPDOWN ->
  choice_labels property <> [] ->
  exists s,
    propertyToSchema C (S fuel) name property operation result = Returned s
    /\ accepts s None = false
    /\ forall v,
         accepts s (Some v) = true <->
         (exists l, v = JStr l /\ l <> ""
                    /\ In l (map label (static_options property)))
         \/ (v = JNull /\ prop_required property = false).
Proof.
  intros Ht Hne. cbn [propertyToSchema]. rewrite Ht.
  unfold loadDropdownLabels. rewrite Ht. cbn [is_static_choice Js.bind].
  fold (choice_labels property).
  destruct (choice_labels property) as [|l0 ls] eqn:Hl; [congruence|].
  rewrite <- Hl. clear Hne.
  eexists. split; [reflexivity|].
  assert (Henum : forall v,
             accepts (ZEnum (choice_labels property)) (Some v) = true <->
             exists l, v = JStr l /\ l <> ""
                       /\ In l (map label (static_options property))).
  { intros v. cbn [accepts]. destruct v as [| | |x| |];
      try (split; [discriminate | intros (l & H & _); discriminate]).
    rewrite existsb_exists. unfold choice_labels. split.
    - intros (l & Hin & Heq). apply String.eqb_eq in Heq as <-.
      apply filter_In in Hin as [Hin Hnz].
      exists x. split; [reflexivity|]. split; [|exact Hin].
      intros ->. discriminate.
    - intros (l & [= <-] & Hnz & Hin). exists x.
      split; [|apply String.eqb_refl].
      apply filter_In. split; [exact Hin|].
      apply String.eqb_neq in Hnz. now rewrite Hnz. }
  assert (Hnull : forall s v,
             accepts (ZNullable s) (Some v) = true <->
             v = JNull \/ accepts s (Some v) = true).
  { intros s v. cbn [accepts]. destruct v; split; auto;
      intros [H|H]; auto; discriminate. }
  unfold post_process.
  destruct (declared_description (prop_description property)) as [d|];
    destruct (prop_required property); cbn [nullable];
    (split; [cbn [accepts]; rewrite ?accepts_describe; reflexivity|]);
    intros v; rewrite ?Hnull, ?accepts_describe, Henum.
  - split; [auto | intros [H|[_ H]]; [exact H | discriminate]].
  - split; [intros [H|H]; auto | intros [H|[H _]]; auto].
  - split; [auto | intros [H|[_ H]]; [exact H | discriminate]].
  - split; [intros [H|H]; auto | intros [H|[H _]]; auto].
Qed.

Lemma static_dropdown_accepts_labels_witness :
  exists s,
    propertyToSchema Worked.note_world 1 "city" Worked.city_property
                     Worked.note_operation [] = Returned s
    /\ accepts s None = false
    /\ forall v,
         accepts s (Some v) = true <->
         (exists l, v = JStr l /\ l <> ""
                    /\ In l (map label (static_options Worked.city_property)))
         \/ (v = JNull /\ prop_required Worked.city_property = false).
Proof.
  apply (static_dropdown_accepts_labels Worked.note_world 0 "city"
           Worked.city_property Worked.note_operation []).
  - reflexivity.
  - discriminate.
Defined.




(** A descriptor that gives [null] as the definition of a field cannot be
    turned into a schema: reading the type of the definition throws. *)
Theorem null_field_definition_throws dv properties f :
  is_object dv = true ->
  lookup "type" (own_entries dv) = Some (JStr "object") ->
  lookup "properties" (own_entries dv) = Some properties ->
  is_object properties = true ->
  In (f, JNull) (own_entries properties) ->
  tryBuildSchemaFromDefault dv
  = Thrown (TypeError "Cannot read properties of null (reading 'type')").
Proof.
  intros Hobj Ht Hp Hpo Hin. unfold tryBuildSchemaFromDefault.
  rewrite Hobj, Ht, Hp, Hpo.
  assert (Heq : String.eqb "object" "object" = true) by reflexivity.
  rewrite Heq. cbn [negb andb].
  now rewrite (shape_of_null _ _ f Hin).
Qed.

Lemma null_field_definition_throws_witness :
  tryBuildSchemaFromDefault Worked.null_descriptor
  = Thrown (TypeError "Cannot read properties of null (reading 'type')").
Proof.
  apply (null_field_definition_throws Worked.null_descriptor
           (JObj [("amount", JNull)]) "amount");
    try reflexivity.
  now left.
Defined.

(** The schema of a static multi-select asks for an array, and its detail
    carries the options: the loop after the model call then replaces the
    array of the answer by the value of one single option. *)
Theorem multi_select_answer_becomes_one_option
  C fuel name property operation result o os :
  prop_type property = STATIC_MULTI_SELECT_DROPDOWN ->
  prop_options property = Some (o :: os) ->
  exists s d,
    propertyToSchema C (S fuel) name property operation result = Returned s
    /\ buildPropertyDetail C name property operation result = Returned d
    /\ (forall v, accepts s (Some v) = true ->
                  v = JNull \/ exists items, v = JArr items)
    /\ forall items,
         exists r chosen,
           reconcile [d] (JObj [(name, JArr items)]) = Returned r
           /\ In chosen (o :: os)
           /\ lookup name (own_entries r) = Some (value chosen).
Proof.
  intros Ht Hopt. cbn [propertyToSchema]. unfold buildPropertyDetail.
  rewrite Ht. unfold static_options. rewrite Hopt.
  do 2 eexists. split; [reflexivity|]. split; [reflexivity|]. split.
  - intros v. unfold post_process.
    destruct (declared_description (prop_description property));
      destruct (prop_required property); cbn [nullable accepts];
      rewrite ?accepts_describe; cbn [accepts existsb];
      destruct v; try discriminate; eauto.
  - intros items. rewrite reconcile_step. cbn [detail_options detail_name].
    cbn [is_object own_entries lookup]. rewrite String.eqb_refl.
    cbn [reconcile assign].
    pose proof (matchDropdownValue_In_values (JArr items) o os) as Hin.
    apply in_map_iff in Hin as (chosen & Heq & Hin).
    exists (JObj (set name (matchDropdownValue (JArr items) (o :: os))
                      [(name, JArr items)])), chosen.
    split; [reflexivity|]. split; [exact Hin|].
    cbn [own_entries]. now rewrite lookup_set_same, <- Heq.
Qed.

Lemma multi_select_answer_becomes_one_option_witness :
  exists s d,
    propertyToSchema Worked.note_world 1 "stops" Worked.stops_property
                     Worked.note_operation [] = Returned s
    /\ buildPropertyDetail Worked.note_world "stops" Worked.stops_property
                           Worked.note_operation [] = Returned d
    /\ (forall v, accepts s (Some v) = true ->
                  v = JNull \/ exists items, v = JArr items)
    /\ forall items,
         exists r chosen,
           reconcile [d] (JObj [("stops", JArr items)]) = Returned r
           /\ In chosen Worked.cities
           /\ lookup "stops" (own_entries r) = Some (value chosen).
Proof.
  apply (multi_select_answer_becomes_one_option Worked.note_world 0 "stops"
           Worked.stops_property Worked.note_operation []
           (mkOption "Paris" (JStr "PAR")) [mkOption "London" (JStr "LON")]);
    reflexivity.
Defined.

(** The schema the agent gets for the payload of a callable flow, when the
    engine answers with what the [props] function of the action returns:
    without a chosen flow the schema has no field; without sample data the
    payload is the open object (described in the advanced mode); with
    sample data that is an object-schema descriptor the payload is the
    schema derived from it, and with other sample data the payload is
    described by the sample as a structural hint. *)
Theorem callFlow_payload_schema C fuel name operation input flow mode :
  executeProps_dynamic C operation name input
  = Returned (discovered (flowProps_props flow mode)) ->
  buildDynamicSchema C (S fuel) name operation input =
  match flow with
  | None | Some JNull => Returned (ZObject [] Loose)
  | Some castedFlowValue =>
      match payload_default (sampleData_of castedFlowValue) with
      | None => Returned (ZObject [("payload", payload_base mode)] Loose)
      | Some sampleData =>
          derived <- tryBuildSchemaFromDefault sampleData ;;
          Returned
            (ZObject
               [("payload",
                 match derived with
                 | Some s => s
                 | None =>
                     describe ("Expected structure: "
                                 ++ string_form sampleData)
                              (payload_base mode)
                 end)] Loose)
      end
  end.
Proof.
  intros Hex. unfold buildDynamicSchema, buildDynamicSchema_with.
  rewrite Hex. unfold discovered, flowProps_props, payload_base.
  assert (Hnn : forall sd d, payload_default sd = Some d -> is_null d = false).
  { intros [[]|] d; cbn; try discriminate; intros [= <-]; reflexivity. }
  destruct flow as [[]|]; cbn [Js.bind map has_key lookup]; try reflexivity;
    (destruct (is_simple mode);
     cbn [map fst snd has_key lookup String.eqb Ascii.eqb Bool.eqb
          dynamic_fields propertyToSchema prop_type prop_defaultValue
          prop_required prop_description post_process declared_description
          Js.bind is_object_or_json andb];
     match goal with
     | |- context [payload_default ?sd] =>
         destruct (payload_default sd) as [d|] eqn:Hd;
         [rewrite (Hnn _ _ Hd); cbn [negb andb];
          destruct (tryBuildSchemaFromDefault d) as [[derived|]| |];
          reflexivity
         |reflexivity]
     end).
Qed.

Lemma callFlow_payload_schema_witness :
  buildDynamicSchema Worked.callFlow_world 1 "flowProps"
                     Worked.note_operation []
  = Returned (ZObject [("payload",
                        ZObject [("amount", ZNumber);
                                 ("memo", ZNullable ZString)] Loose)] Loose).
Proof.
  apply (callFlow_payload_schema Worked.callFlow_world 0 "flowProps"
           Worked.note_operation [] (Some Worked.callable_flow)
           (Some (JStr "simple"))).
  reflexivity.
Defined.

(* ================================================================== *)
(** * The transcript of tool calls *)
(* ================================================================== *)

Module BuilderFacts.
Import AgentOutputBuilder.
Local Open Scope js_scope.

Lemma findIndex_first {A : Type} (p : A -> bool) l i x :
  nth_error l i = Some x -> p x = true ->
  (forall j y, (j < i)%nat -> nth_error l j = Some y -> p y = false) ->
  findIndex p l = Some i.
Proof.
  revert i. induction l as [|a l IH]; intros [|i]; simpl; try discriminate.
  - intros [= ->] -> _. reflexivity.
  - intros Hn Hp Hbefore.
    rewrite (Hbefore 0%nat a) by (simpl; auto with arith).
    rewrite (IH i Hn Hp); [reflexivity|].
    intros j y Hj Hy. apply (Hbefore (S j) y); simpl; auto with arith.
Qed.

Lemma findIndex_none {A : Type} (p : A -> bool) l :
  (forall x, In x l -> p x = false) -> findIndex p l = None.
Proof.
  induction l as [|a l IH]; simpl; [reflexivity|]. intros H.
  rewrite (H a) by now left. rewrite IH; [reflexivity|].
  intros x Hx. apply H. now right.
Qed.

Lemma nth_error_replace_at_same {A : Type} i (x : A) l :
  (i < length l)%nat -> nth_error (replace_at i x l) i = Some x.
Proof.
  revert i. induction l as [|a l IH]; intros [|i]; simpl; try lia; auto.
  intros H. apply IH. lia.
Qed.

Lemma nth_error_replace_at_other {A : Type} i j (x : A) l :
  j <> i -> nth_error (replace_at i x l) j = nth_error l j.
Proof.
  revert i j. induction l as [|a l IH]; intros [|i] [|j]; simpl;
    try reflexivity; try congruence.
  intros H. apply IH. congruence.
Qed.

Lemma length_replace_at {A : Type} i (x : A) l :
  length (replace_at i x l) = length l.
Proof.
  revert i. induction l as [|a l IH]; intros [|i]; simpl; auto.
Qed.

Lemma call_ids_In l t :
  In (ToolCallBlock t) l -> In (toolCallId t) (call_ids l).
Proof.
  induction l as [|[m|t'] l IH]; simpl; [tauto| |].
  - intros [H|H]; [discriminate | auto].
  - intros [[= ->]|H]; [now left | right; auto].
Qed.

(** With pairwise distinct call ids, the block of a call is the only block
    that matches its id. *)
Lemma unique_id_single_match l i t :
  NoDup (call_ids l) ->
  nth_error l i = Some (ToolCallBlock t) ->
  forall j block, j <> i -> nth_error l j = Some block ->
                  is_call (toolCallId t) block = false.
Proof.
  revert i. induction l as [|a l IH]; intros [|i] Hnd Hi [|j] block Hj Hb;
    simpl in *; try discriminate; try congruence.
  - injection Hi as ->. simpl in Hnd. inversion Hnd as [|? ? Hnot _]; subst.
    destruct block as [m|t']; simpl; [reflexivity|].
    destruct (String.eqb_spec (toolCallId t') (toolCallId t)) as [E|];
      [|reflexivity].
    exfalso. apply Hnot. rewrite <- E. apply call_ids_In.
    now apply nth_error_In with j.
  - injection Hb as ->. destruct block as [m|t']; simpl; [reflexivity|].
    simpl in Hnd. inversion Hnd as [|? ? Hnot _]; subst.
    destruct (String.eqb_spec (toolCallId t') (toolCallId t)) as [E|];
      [|reflexivity].
    exfalso. apply Hnot. rewrite E. apply call_ids_In.
    now apply nth_error_In with i.
  - apply (IH i) with j; auto.
    destruct a; simpl in Hnd; [assumption | now inversion Hnd].
Qed.

Lemma complete_call_at now id o b i t :
  nth_error (steps b) i = Some (ToolCallBlock t) ->
  toolCallId t = id ->
  (forall j block, (j < i)%nat -> nth_error (steps b) j = Some block ->
                   is_call id block = false) ->
  complete_call now id o b
  = Returned (mkBuilder (task_status b)
                (replace_at i (ToolCallBlock (complete now o t)) (steps b))
                (structuredOutput b) (prompt b)).
Proof.
  intros Hi Hid Hbefore. unfold complete_call.
  rewrite (findIndex_first (is_call id) (steps b) i (ToolCallBlock t) Hi).
  - unfold tool_at. rewrite Hi. reflexivity.
  - simpl. rewrite Hid. apply String.eqb_refl.
  - exact Hbefore.
Qed.

Lemma complete_call_unknown now id o b :
  (forall block, In block (steps b) -> is_call id block = false) ->
  complete_call now id o b
  = Thrown (JsError "Error"
              "Last block must be a tool call is null or undefined").
Proof.
  intros H. unfold complete_call. rewrite (findIndex_none _ _ H).
  reflexivity.
Qed.

(** C9, as stated, fails.  A tool is called, its call is finished, and
    the same call id is used for a second call: finishing that id again
    does not touch the block in progress; it completes the first block once
    more, replacing its output and its end timestamp. *)
Lemma repeated_id_completes_first_block :
  (b1 <- startToolCall "09:00" "send" "call-1" (JObj [("to", JStr "ann")])
                       [send_tool] (agentOutputBuilder "mail ann and bob") ;;
   b2 <- finishToolCall "09:01" "call-1" (JObj [("sent", JBool true)]) b1 ;;
   b3 <- startToolCall "09:02" "send" "call-1" (JObj [("to", JStr "bob")])
                       [send_tool] b2 ;;
   finishToolCall "09:03" "call-1" (JObj [("sent", JBool false)]) b3)
  = Returned
      (mkBuilder TASK_IN_PROGRESS
         [ToolCallBlock
            (mkToolCall "send" "call-1" COMPLETED (JObj [("to", JStr "ann")])
               (Some (JObj [("sent", JBool false)])) "09:00" (Some "09:03")
               (PieceCall "mail" "1.0.0" "send_mail"));
          ToolCallBlock second_call]
         None "mail ann and bob")
  /\ status second_call = IN_PROGRESS
  /\ toolCallId second_call = "call-1".
Proof. repeat split. Qed.

(** C9, amended.  [startToolCall] appends one tool-call block, in
    progress, without output or end timestamp.  [finishToolCall] and
    [failToolCall] act on the first tool-call block whose id is the given
    one, whatever its status: that block becomes completed, with the given
    timestamp as end and the given output (the fixed failure output for
    [failToolCall]), and every other block stays as it is; when the call
    ids of the transcript are pairwise distinct, that block is the only
    block of that id.  With no tool-call block of the given id both
    operations throw. *)
Theorem tool_call_lifecycle :
  (forall now name id input tools b b',
      startToolCall now name id input tools b = Returned b' ->
      exists t,
        steps b' = (steps b ++ [ToolCallBlock t])%list
        /\ status t = IN_PROGRESS /\ toolCallId t = id /\ toolName t = name
        /\ AgentOutputBuilder.input t = input /\ startTime t = now
        /\ output t = None /\ endTime t = None)
  /\ (forall now id o b i t,
        nth_error (steps b) i = Some (ToolCallBlock t) ->
        toolCallId t = id ->
        (forall j block, (j < i)%nat -> nth_error (steps b) j = Some block ->
                         is_call id block = false) ->
        exists b' fb t' ft,
          finishToolCall now id o b = Returned b'
          /\ failToolCall now id b = Returned fb
          /\ nth_error (steps b') i = Some (ToolCallBlock t')
          /\ nth_error (steps fb) i = Some (ToolCallBlock ft)
          /\ status t' = COMPLETED /\ endTime t' = Some now
          /\ output t' = Some o
          /\ status ft = COMPLETED /\ endTime ft = Some now
          /\ output ft = Some failure_output
          /\ toolCallId t' = id /\ startTime t' = startTime t
          /\ AgentOutputBuilder.input t' = AgentOutputBuilder.input t
          /\ length (steps b') = length (steps b)
          /\ (forall j, j <> i ->
                nth_error (steps b') j = nth_error (steps b) j
                /\ nth_error (steps fb) j = nth_error (steps b) j))
  /\ (forall b i t,
        NoDup (call_ids (steps b)) ->
        nth_error (steps b) i = Some (ToolCallBlock t) ->
        forall j block, j <> i -> nth_error (steps b) j = Some block ->
                        is_call (toolCallId t) block = false)
  /\ (forall now id o b,
        (forall block, In block (steps b) -> is_call id block = false) ->
        exists e,
          finishToolCall now id o b = Thrown e
          /\ failToolCall now id b = Thrown e).
Proof.
  split; [|split; [|split]].
  - intros now name id input tools b b'. unfold startToolCall.
    destruct (getToolMetadata now name id input tools) as [t| |] eqn:Hm;
      simpl; try discriminate.
    intros [= <-]. exists t. split; [reflexivity|].
    unfold getToolMetadata in Hm.
    destruct (assertNotNullOrUndefined (findMatchingTool name tools) _)
      as [tool| |]; simpl in Hm; try discriminate.
    destruct (tool_type tool);
      [destruct (assertNotNullOrUndefined (tool_pieceMetadata tool) _)
      |destruct (assertNotNullOrUndefined (tool_externalFlowId tool) _)
      |destruct (assertNotNullOrUndefined (tool_serverUrl tool) _)];
      simpl in Hm; try discriminate; injection Hm as <-; repeat split.
  - intros now id o b i t Hi Hid Hbefore.
    assert (Hlen : (i < length (steps b))%nat)
      by (apply nth_error_Some; congruence).
    unfold finishToolCall, failToolCall.
    rewrite !(complete_call_at now id _ b i t Hi Hid Hbefore).
    do 4 eexists. split; [reflexivity|]. split; [reflexivity|]. simpl.
    rewrite !nth_error_replace_at_same by assumption.
    split; [reflexivity|]. split; [reflexivity|].
    repeat (split; [first [reflexivity | assumption]|]).
    split; [apply length_replace_at|].
    intros j Hj. now rewrite !nth_error_replace_at_other.
  - intros b i t. apply unique_id_single_match.
  - intros now id o b Hnone. eexists.
    unfold finishToolCall, failToolCall.
    rewrite !(complete_call_unknown _ _ _ _ Hnone). split; reflexivity.
Qed.

Lemma tool_call_lifecycle_witness :
  exists b' fb t' ft,
    finishToolCall "09:01" "call-1" (JObj [("sent", JBool true)])
      (mkBuilder TASK_IN_PROGRESS [MarkdownBlock "Sending."; ToolCallBlock first_call]
                 None "mail ann") = Returned b'
    /\ failToolCall "09:01" "call-1"
         (mkBuilder TASK_IN_PROGRESS
            [MarkdownBlock "Sending."; ToolCallBlock first_call]
            None "mail ann") = Returned fb
    /\ nth_error (steps b') 1 = Some (ToolCallBlock t')
    /\ nth_error (steps fb) 1 = Some (ToolCallBlock ft)
    /\ status t' = COMPLETED /\ endTime t' = Some "09:01"
    /\ output t' = Some (JObj [("sent", JBool true)])
    /\ status ft = COMPLETED /\ endTime ft = Some "09:01"
    /\ output ft = Some failure_output
    /\ toolCallId t' = "call-1" /\ startTime t' = startTime first_call
    /\ AgentOutputBuilder.input t' = AgentOutputBuilder.input first_call
    /\ length (steps b') = 2%nat
    /\ (forall j, j <> 1%nat ->
          nth_error (steps b') j
          = nth_error [MarkdownBlock "Sending."; ToolCallBlock first_call] j
          /\ nth_error (steps fb) j
             = nth_error [MarkdownBlock "Sending."; ToolCallBlock first_call]
                         j).
Proof.
  apply (proj1 (proj2 tool_call_lifecycle) "09:01" "call-1"
           (JObj [("sent", JBool true)])
           (mkBuilder TASK_IN_PROGRESS
              [MarkdownBlock "Sending."; ToolCallBlock first_call]
              None "mail ann")
           1%nat first_call).
  - reflexivity.
  - reflexivity.
  - intros [|j] block Hj; [|lia]. intros [= <-]. reflexivity.
Defined.

(** ** Markdown blocks *)

Lemma append_to_last_cons m x y rest :
  append_to_last m (x :: y :: rest) = x :: append_to_last m (y :: rest).
Proof. destruct x; reflexivity. Qed.

Lemma append_to_last_nonempty m l : append_to_last m l <> [].
Proof.
  destruct l as [|[x|t] [|y rest]]; try discriminate.
Qed.

Lemma append_to_last_twice a b l :
  append_to_last b (append_to_last a l) = append_to_last (a ++ b) l.
Proof.
  induction l as [|x rest IH]; [reflexivity|].
  destruct rest as [|y rest].
  - destruct x as [m|t]; cbn; [now rewrite append_assoc | reflexivity].
  - rewrite !append_to_last_cons.
    destruct (append_to_last a (y :: rest)) as [|z zs] eqn:E;
      [now apply append_to_last_nonempty in E|].
    rewrite append_to_last_cons, <- IH. reflexivity.
Qed.

(** Consecutive markdown texts end up in one block. *)
Theorem addMarkdown_coalesces a b builder :
  addMarkdown b (addMarkdown a builder) = addMarkdown (a ++ b) builder.
Proof.
  unfold addMarkdown. cbn [steps task_status structuredOutput prompt].
  now rewrite append_to_last_twice.
Qed.

Lemma coalesced_append_to_last m l :
  coalesced l = true -> coalesced (append_to_last m l) = true.
Proof.
  induction l as [|x rest IH]; [reflexivity|].
  destruct rest as [|y rest].
  - destruct x; reflexivity.
  - rewrite append_to_last_cons. intros H.
    destruct (append_to_last m (y :: rest)) as [|z zs] eqn:E;
      [now apply append_to_last_nonempty in E|].
    assert (Hrest : coalesced (y :: rest) = true).
    { destruct x; [destruct y; [discriminate | exact H] | exact H]. }
    specialize (IH Hrest).
    assert (Hz : match y, z with
                 | ToolCallBlock _, MarkdownBlock _ => False
                 | _, _ => True
                 end).
    { destruct rest as [|y' rest'].
      - destruct y; cbn in E; injection E as <- _; exact I.
      - rewrite append_to_last_cons in E. injection E as <- _.
        destruct y; exact I. }
    destruct x as [mx|tx]; [|exact IH].
    destruct y as [my|ty]; [discriminate|].
    destruct z as [mz|tz]; [destruct Hz | exact IH].
Qed.

Lemma markdown_text_append_to_last m l :
  markdown_text (append_to_last m l) = markdown_text l ++ m.
Proof.
  induction l as [|x rest IH]; [cbn; now rewrite append_empty_r|].
  destruct rest as [|y rest].
  - destruct x; cbn; rewrite ?append_empty_r; reflexivity.
  - rewrite append_to_last_cons. destruct x; cbn [markdown_text];
      rewrite IH; [now rewrite append_assoc | reflexivity].
Qed.

Lemma tool_calls_append_to_last m l :
  tool_calls (append_to_last m l) = tool_calls l.
Proof.
  induction l as [|x rest IH]; [reflexivity|].
  destruct rest as [|y rest].
  - destruct x; reflexivity.
  - rewrite append_to_last_cons. destruct x; cbn [tool_calls];
      now rewrite IH.
Qed.

(** [addMarkdown] adds the text at the end of the transcript's text and
    leaves the tool calls alone. *)
Theorem addMarkdown_appends_text m builder :
  markdown_text (steps (addMarkdown m builder))
  = markdown_text (steps builder) ++ m
  /\ tool_calls (steps (addMarkdown m builder)) = tool_calls (steps builder)
  /\ (length (steps builder) <= length (steps (addMarkdown m builder))
      <= S (length (steps builder)))%nat.
Proof.
  unfold addMarkdown. cbn [steps].
  split; [apply markdown_text_append_to_last|].
  split; [apply tool_calls_append_to_last|].
  induction (steps builder) as [|x rest IH]; [cbn; lia|].
  destruct rest as [|y rest].
  - destruct x; cbn; lia.
  - rewrite append_to_last_cons. cbn [length] in *. lia.
Qed.

(** ** Invariants of the transcript *)

Lemma coalesced_app_tool l t :
  coalesced l = true -> coalesced (l ++ [ToolCallBlock t]) = true.
Proof.
  induction l as [|x rest IH]; [reflexivity|].
  destruct x as [m|t']; cbn [app coalesced]; [|exact IH].
  destruct rest as [|[m'|t''] rest']; cbn [app]; auto; discriminate.
Qed.

Lemma coalesced_replace_tool i t l :
  coalesced l = true -> coalesced (replace_at i (ToolCallBlock t) l) = true.
Proof.
  revert i. induction l as [|x rest IH]; intros i H; [destruct i; reflexivity|].
  assert (Hrest : coalesced rest = true).
  { destruct x; [|exact H]. destruct rest as [|[|] ?];
      [reflexivity | discriminate | exact H]. }
  destruct i as [|i]; cbn [replace_at]; [exact Hrest|].
  specialize (IH i Hrest).
  destruct x as [m|t']; cbn [coalesced]; [|exact IH].
  destruct rest as [|[m'|t''] rest']; [destruct i; reflexivity | discriminate|].
  destruct i; exact IH.
Qed.

Lemma startToolCall_steps now name id input tools b b' :
  startToolCall now name id input tools b = Returned b' ->
  exists t, steps b' = (steps b ++ [ToolCallBlock t])%list
            /\ toolCallId t = id
            /\ task_status b' = task_status b
            /\ structuredOutput b' = structuredOutput b.
Proof.
  unfold startToolCall.
  destruct (getToolMetadata now name id input tools) as [t| |] eqn:Hm;
    cbn [Js.bind]; try discriminate.
  intros [= <-]. exists t. split; [reflexivity|]. split; [|split; reflexivity].
  unfold getToolMetadata in Hm.
  destruct (assertNotNullOrUndefined (findMatchingTool name tools) _)
    as [tool| |]; cbn [Js.bind] in Hm; try discriminate.
  destruct (tool_type tool);
    [destruct (assertNotNullOrUndefined (tool_pieceMetadata tool) _)
    |destruct (assertNotNullOrUndefined (tool_externalFlowId tool) _)
    |destruct (assertNotNullOrUndefined (tool_serverUrl tool) _)];
    cbn [Js.bind] in Hm; try discriminate; injection Hm as <-; reflexivity.
Qed.

Lemma complete_call_steps now id o b b' :
  complete_call now id o b = Returned b' ->
  exists i t,
    nth_error (steps b) i = Some (ToolCallBlock t)
    /\ toolCallId t = id
    /\ steps b' = replace_at i (ToolCallBlock (complete now o t)) (steps b)
    /\ task_status b' = task_status b
    /\ structuredOutput b' = structuredOutput b.
Proof.
  unfold complete_call.
  destruct (findIndex (is_call id) (steps b)) as [i|] eqn:Hi;
    [|discriminate].
  unfold tool_at.
  destruct (nth_error (steps b) i) as [[m|t]|] eqn:Hn; try discriminate.
  cbn [assertNotNullOrUndefined Js.bind]. intros [= <-].
  exists i, t. split; [exact Hn|]. split; [|repeat split].
  clear - Hi Hn. revert i Hi Hn.
  induction (steps b) as [|x rest IH]; intros i Hi Hn; [discriminate|].
  cbn [findIndex] in Hi. destruct (is_call id x) eqn:Hx.
  - injection Hi as <-. cbn in Hn. injection Hn as ->.
    cbn in Hx. now apply String.eqb_eq.
  - destruct (findIndex (is_call id) rest) as [j|]; [|discriminate].
    injection Hi as <-. cbn in Hn. now apply (IH j).
Qed.

Lemma fail_steps message b b' :
  fail message b = Returned b' ->
  task_status b' = TASK_FAILED
  /\ steps b' = match message with
                | Some m => append_to_last m (steps b)
                | None => steps b
                end.
Proof.
  unfold fail. destruct message as [m|]; [|intros [= <-]; split; reflexivity].
  unfold appendErrorToStructuredOutput.
  cbn [structuredOutput addMarkdown setStatus task_status steps prompt].
  destruct (structuredOutput b) as [so|]; [|intros [= <-]; split; reflexivity].
  destruct (match lookup "errors" so with
            | Some e =>
                if negb (truthy e) then Returned []
                else match e with
                     | JArr l => Returned l
                     | JStr str => Returned (map snd (char_entries 0 str))
                     | _ => Thrown (JsError "TypeError" "value is not iterable")
                     end
            | None => Returned []
            end) as [previous| |]; cbn [Js.bind]; try discriminate.
  intros [= <-]. split; reflexivity.
Qed.

(** The transcript never holds two markdown blocks in a row. *)
Theorem transcript_stays_coalesced :
  (forall prompt, coalesced (steps (agentOutputBuilder prompt)) = true)
  /\ (forall b, coalesced (steps b) = true ->
        (forall m, coalesced (steps (addMarkdown m b)) = true)
        /\ (forall message b', fail message b = Returned b' ->
                               coalesced (steps b') = true)
        /\ (forall now name id input tools b',
               startToolCall now name id input tools b = Returned b' ->
               coalesced (steps b') = true)
        /\ (forall now id o b',
               finishToolCall now id o b = Returned b' ->
               coalesced (steps b') = true)
        /\ (forall now id b',
               failToolCall now id b = Returned b' ->
               coalesced (steps b') = true)).
Proof.
  split; [reflexivity|]. intros b Hb.
  split; [|split; [|split; [|split]]].
  - intros m. now apply coalesced_append_to_last.
  - intros message b' Hf. destruct (fail_steps _ _ _ Hf) as [_ ->].
    destruct message; [now apply coalesced_append_to_last | exact Hb].
  - intros now name id input tools b' Hs.
    destruct (startToolCall_steps _ _ _ _ _ _ _ Hs) as (t & -> & _).
    now apply coalesced_app_tool.
  - intros now id o b' Hf. unfold finishToolCall in Hf.
    destruct (complete_call_steps _ _ _ _ _ Hf) as (i & t & _ & _ & -> & _).
    now apply coalesced_replace_tool.
  - intros now id b' Hf. unfold failToolCall in Hf.
    destruct (complete_call_steps _ _ _ _ _ Hf) as (i & t & _ & _ & -> & _).
    now apply coalesced_replace_tool.
Qed.

Lemma call_ids_app l l' : call_ids (l ++ l') = (call_ids l ++ call_ids l')%list.
Proof.
  induction l as [|[m|t] rest IH]; cbn; [reflexivity | exact IH|].
  now rewrite IH.
Qed.

Lemma call_ids_replace_at i t t' l :
  nth_error l i = Some (ToolCallBlock t) -> toolCallId t' = toolCallId t ->
  call_ids (replace_at i (ToolCallBlock t') l) = call_ids l.
Proof.
  revert i. induction l as [|x rest IH]; intros [|i]; cbn; try discriminate.
  - intros [= ->] ->. reflexivity.
  - intros Hn Hid. destruct x; cbn; now rewrite (IH i).
Qed.

Lemma call_ids_append_to_last m l : call_ids (append_to_last m l) = call_ids l.
Proof.
  induction l as [|x rest IH]; [reflexivity|].
  destruct rest as [|y rest].
  - destruct x; reflexivity.
  - rewrite append_to_last_cons. destruct x; cbn [call_ids]; now rewrite IH.
Qed.

(** The call ids of the transcript: completing a call and adding text keep
    them as they are, starting a call adds its id at the end; so ids that
    are fresh at every start stay pairwise distinct. *)
Theorem call_ids_of_the_transcript b :
  (forall m, call_ids (steps (addMarkdown m b)) = call_ids (steps b))
  /\ (forall now id o b',
        finishToolCall now id o b = Returned b' ->
        call_ids (steps b') = call_ids (steps b))
  /\ (forall now id b',
        failToolCall now id b = Returned b' ->
        call_ids (steps b') = call_ids (steps b))
  /\ (forall now name id input tools b',
        startToolCall now name id input tools b = Returned b' ->
        call_ids (steps b') = (call_ids (steps b) ++ [id])%list
        /\ (NoDup (call_ids (steps b)) -> ~ In id (call_ids (steps b)) ->
            NoDup (call_ids (steps b')))).
Proof.
  split; [|split; [|split]].
  - intros m. apply call_ids_append_to_last.
  - intros now id o b' Hf. unfold finishToolCall in Hf.
    destruct (complete_call_steps _ _ _ _ _ Hf) as (i & t & Hn & _ & -> & _).
    now apply (call_ids_replace_at i t).
  - intros now id b' Hf. unfold failToolCall in Hf.
    destruct (complete_call_steps _ _ _ _ _ Hf) as (i & t & Hn & _ & -> & _).
    now apply (call_ids_replace_at i t).
  - intros now name id input tools b' Hs.
    destruct (startToolCall_steps _ _ _ _ _ _ _ Hs) as (t & -> & Hid & _).
    rewrite call_ids_app. cbn [call_ids]. rewrite Hid.
    split; [reflexivity|]. intros Hnd Hfresh.
    apply NoDup_app; [exact Hnd | repeat constructor; intros [] |].
    intros x Hx [<-|[]]. contradiction.
Qed.

Lemma not_called id l :
  ~ In id (call_ids l) -> forall block, In block l -> is_call id block = false.
Proof.
  intros Hnot [m|t] Hin; [reflexivity|]. cbn.
  apply String.eqb_neq. intros E. apply Hnot. rewrite <- E.
  now apply call_ids_In.
Qed.

Lemma nth_error_snoc {A : Type} (l : list A) x :
  nth_error (l ++ [x]) (length l) = Some x.
Proof. induction l; cbn; auto. Qed.

Lemma replace_at_snoc {A : Type} (l : list A) x y :
  replace_at (length l) y (l ++ [x]) = (l ++ [y])%list.
Proof. induction l as [|a l IH]; cbn; [reflexivity | now rewrite IH]. Qed.

(** A call started under a fresh id and then finished (or failed) is the
    last block of the transcript, completed; the blocks before it are as
    they were. *)
Theorem start_then_finish now now' name id input o tools b b1 :
  ~ In id (call_ids (steps b)) ->
  startToolCall now name id input tools b = Returned b1 ->
  exists t,
    steps b1 = (steps b ++ [ToolCallBlock t])%list
    /\ status t = IN_PROGRESS
    /\ finishToolCall now' id o b1
       = Returned (mkBuilder (task_status b)
                     (steps b ++ [ToolCallBlock (complete now' o t)])
                     (structuredOutput b) (prompt b))
    /\ failToolCall now' id b1
       = Returned (mkBuilder (task_status b)
                     (steps b ++ [ToolCallBlock
                                    (complete now' failure_output t)])
                     (structuredOutput b) (prompt b)).
Proof.
  intros Hfresh Hs.
  pose proof Hs as Hs'. unfold startToolCall in Hs'.
  destruct (getToolMetadata now name id input tools) as [t| |] eqn:Hm;
    cbn [Js.bind] in Hs'; try discriminate.
  injection Hs' as <-.
  destruct (startToolCall_steps _ _ _ _ _ _ _ Hs) as (t' & Ht' & Hid & _).
  cbn [steps] in Ht'. apply app_inj_tail in Ht' as [_ [= <-]].
  assert (Hst : status t = IN_PROGRESS).
  { unfold getToolMetadata in Hm.
    destruct (assertNotNullOrUndefined (findMatchingTool name tools) _)
      as [tool| |]; cbn [Js.bind] in Hm; try discriminate.
    destruct (tool_type tool);
      [destruct (assertNotNullOrUndefined (tool_pieceMetadata tool) _)
      |destruct (assertNotNullOrUndefined (tool_externalFlowId tool) _)
      |destruct (assertNotNullOrUndefined (tool_serverUrl tool) _)];
      cbn [Js.bind] in Hm; try discriminate; injection Hm as <-;
      reflexivity. }
  exists t. split; [reflexivity|]. split; [exact Hst|].
  unfold finishToolCall, failToolCall.
  rewrite !(complete_call_at now' id _ _ (length (steps b)) t);
    cbn [steps task_status structuredOutput prompt];
    rewrite ?replace_at_snoc; try (split; reflexivity);
    try apply nth_error_snoc; try exact Hid;
    (intros j block Hj Hb; apply (not_called id (steps b) Hfresh);
     rewrite nth_error_app1 in Hb by exact Hj;
     now apply nth_error_In with j).
Qed.

Lemma transcript_stays_coalesced_witness :
  coalesced (steps (addMarkdown "Done."
                      (mkBuilder TASK_IN_PROGRESS
                         [MarkdownBlock "Sending."; ToolCallBlock first_call]
                         None "mail ann"))) = true.
Proof.
  apply (proj1 (proj2 transcript_stays_coalesced
                  (mkBuilder TASK_IN_PROGRESS
                     [MarkdownBlock "Sending."; ToolCallBlock first_call]
                     None "mail ann")
                  eq_refl)).
Defined.

Lemma call_ids_of_the_transcript_witness :
  call_ids (steps (mkBuilder TASK_IN_PROGRESS
                     [ToolCallBlock first_call] None "mail ann"))
  = (call_ids (steps (agentOutputBuilder "mail ann")) ++ ["call-1"])%list
  /\ (NoDup (call_ids (steps (agentOutputBuilder "mail ann"))) ->
      ~ In "call-1" (call_ids (steps (agentOutputBuilder "mail ann"))) ->
      NoDup (call_ids (steps (mkBuilder TASK_IN_PROGRESS
                                [ToolCallBlock first_call] None "mail ann")))).
Proof.
  apply (proj2 (proj2 (proj2 (call_ids_of_the_transcript
                                (agentOutputBuilder "mail ann"))))
           "09:00" "send" "call-1" (JObj [("to", JStr "ann")]) [send_tool]).
  reflexivity.
Defined.

Lemma start_then_finish_witness :
  exists t,
    steps (mkBuilder TASK_IN_PROGRESS
             [MarkdownBlock "Sending."; ToolCallBlock first_call]
             None "mail ann")
    = ([MarkdownBlock "Sending."] ++ [ToolCallBlock t])%list
    /\ status t = IN_PROGRESS
    /\ finishToolCall "09:01" "call-1" (JObj [("sent", JBool true)])
         (mkBuilder TASK_IN_PROGRESS
            [MarkdownBlock "Sending."; ToolCallBlock first_call]
            None "mail ann")
       = Returned (mkBuilder TASK_IN_PROGRESS
                     ([MarkdownBlock "Sending."]
                      ++ [ToolCallBlock
                            (complete "09:01" (JObj [("sent", JBool true)])
                                      t)])
                     None "mail ann")
    /\ failToolCall "09:01" "call-1"
         (mkBuilder TASK_IN_PROGRESS
            [MarkdownBlock "Sending."; ToolCallBlock first_call]
            None "mail ann")
       = Returned (mkBuilder TASK_IN_PROGRESS
                     ([MarkdownBlock "Sending."]
                      ++ [ToolCallBlock (complete "09:01" failure_output t)])
                     None "mail ann").
Proof.
  apply (start_then_finish "09:00" "09:01" "send" "call-1"
           (JObj [("to", JStr "ann")]) (JObj [("sent", JBool true)])
           [send_tool]
           (mkBuilder TASK_IN_PROGRESS [MarkdownBlock "Sending."] None
                      "mail ann")).
  - intros [].
  - reflexivity.
Defined.

(** ** Finding the tool of a call *)

(** The tool found for a name: a registered tool that answers to the name;
    a tool registered under the very name comes before every MCP tool that
    matches by suffix; no tool is found exactly when none answers. *)
Theorem findMatchingTool_spec toolName tools :
  (forall tool, findMatchingTool toolName tools = Some tool ->
                In tool tools
                /\ (exact_match toolName tool = true
                    \/ mcp_match toolName tool = true))
  /\ (forall tool, In tool tools -> exact_match toolName tool = true ->
                   exists found,
                     findMatchingTool toolName tools = Some found
                     /\ exact_match toolName found = true)
  /\ (findMatchingTool toolName tools = None <->
      forall tool, In tool tools ->
                   exact_match toolName tool = false
                   /\ mcp_match toolName tool = false).
Proof.
  unfold findMatchingTool. fold (exact_match toolName) (mcp_match toolName).
  change (fun tool : AgentTool =>
            AgentToolType_eqb (tool_type tool) MCP
            && endsWith toolName ("_" ++ tool_toolName tool))
    with (mcp_match toolName).
  change (fun tool : AgentTool => String.eqb (tool_toolName tool) toolName)
    with (exact_match toolName).
  split; [|split].
  - intros tool.
    destruct (find (exact_match toolName) tools) as [e|] eqn:He.
    + intros [= <-]. apply find_some in He as [Hin Hm]. auto.
    + intros Hm. apply find_some in Hm as [Hin Hm]. auto.
  - intros tool Hin Hex.
    destruct (find (exact_match toolName) tools) as [e|] eqn:He.
    + exists e. split; [reflexivity|]. now apply find_some in He.
    + apply (find_none _ _ He) in Hin. congruence.
  - destruct (find (exact_match toolName) tools) as [e|] eqn:He.
    + split; [discriminate|]. intros Hnone.
      apply find_some in He as [Hin Hm]. destruct (Hnone e Hin). congruence.
    + split.
      * intros Hm tool Hin. split.
        -- exact (find_none _ _ He tool Hin).
        -- exact (find_none _ _ Hm tool Hin).
      * intros Hnone.
        destruct (find (mcp_match toolName) tools) as [m|] eqn:Hm;
          [|reflexivity].
        apply find_some in Hm as [Hin Hm]. destruct (Hnone m Hin). congruence.
Qed.

Lemma slice_to_app s rest : slice_to (s ++ rest) (String.length s) = s.
Proof. induction s as [|c s IH]; cbn; [now destruct rest | now rewrite IH]. Qed.

(** The display name of an MCP call is the composite name without the
    underscore and the server's tool name. *)
Theorem mcp_display_name now base id input tools tool url :
  findMatchingTool (base ++ "_" ++ tool_toolName tool) tools = Some tool ->
  tool_type tool = MCP ->
  tool_serverUrl tool = Some url ->
  getToolMetadata now (base ++ "_" ++ tool_toolName tool) id input tools
  = Returned (baseTool now (base ++ "_" ++ tool_toolName tool) id input
                (McpCall base url)).
Proof.
  intros Hfind Ht Hurl. unfold getToolMetadata. rewrite Hfind.
  cbn [assertNotNullOrUndefined Js.bind]. rewrite Ht, Hurl.
  cbn [assertNotNullOrUndefined Js.bind].
  rewrite endsWith_app.
  replace (String.length (base ++ "_" ++ tool_toolName tool)
           - (String.length (tool_toolName tool) + 1))%nat
    with (String.length base)
    by (rewrite string_length_app; cbn [append String.length]; lia).
  now rewrite slice_to_app.
Qed.
(** A call is recorded exactly when a tool answers to its name and carries
    the member its kind requires; otherwise [startToolCall] throws. *)
Theorem startToolCall_needs_a_tool now toolName id input tools b :
  match findMatchingTool toolName tools with
  | Some tool =>
      if has_required_member tool
      then exists t, startToolCall now toolName id input tools b
                     = Returned (mkBuilder (task_status b)
                                   (steps b ++ [ToolCallBlock t])
                                   (structuredOutput b) (prompt b))
      else exists e, startToolCall now toolName id input tools b = Thrown e
  | None => exists e, startToolCall now toolName id input tools b = Thrown e
  end.
Proof.
  unfold startToolCall, getToolMetadata, has_required_member.
  destruct (findMatchingTool toolName tools) as [tool|];
    cbn [assertNotNullOrUndefined Js.bind]; [|eauto].
  destruct (tool_type tool);
    [destruct (tool_pieceMetadata tool)
    |destruct (tool_externalFlowId tool)
    |destruct (tool_serverUrl tool)];
    cbn [assertNotNullOrUndefined Js.bind]; eauto.
Qed.

Lemma findMatchingTool_spec_witness :
  exists found,
    findMatchingTool "zendesk" [send_tool; zendesk_tool] = Some found
    /\ exact_match "zendesk" found = true.
Proof.
  apply (proj1 (proj2 (findMatchingTool_spec "zendesk"
                         [send_tool; zendesk_tool]))
           zendesk_tool).
  - right. now left.
  - reflexivity.
Defined.

Lemma mcp_display_name_witness :
  getToolMetadata "09:00" ("list_tickets" ++ "_" ++ "zendesk") "call-2"
                  (JObj []) [send_tool; zendesk_tool]
  = Returned (baseTool "09:00" ("list_tickets" ++ "_" ++ "zendesk") "call-2"
                (JObj [])
                (McpCall "list_tickets" "https://mcp.example/zendesk")).
Proof.
  apply (mcp_display_name "09:00" "list_tickets" "call-2" (JObj [])
           [send_tool; zendesk_tool] zendesk_tool
           "https://mcp.example/zendesk"); reflexivity.
Defined.

(** ** Failures and recorded errors *)

(** Two errors appended to a structured output that holds none yet are
    recorded in that order; every other member of the structured output,
    the transcript and the status stay as they are. *)
Theorem errors_accumulate e1 e2 b so :
  structuredOutput b = Some so ->
  lookup "errors" so = None ->
  exists b2 so2,
    (b1 <- appendErrorToStructuredOutput e1 b ;;
     appendErrorToStructuredOutput e2 b1) = Returned b2
    /\ structuredOutput b2 = Some so2
    /\ lookup "errors" so2 = Some (JArr [e1; e2])
    /\ (forall k, k <> "errors" -> lookup k so2 = lookup k so)
    /\ steps b2 = steps b /\ task_status b2 = task_status b.
Proof.
  intros Hso Hnone. unfold appendErrorToStructuredOutput.
  rewrite Hso, Hnone. cbn [Js.bind structuredOutput app].
  rewrite lookup_set_same. cbn [truthy negb Js.bind app].
  do 2 eexists. split; [reflexivity|]. cbn [structuredOutput steps task_status].
  split; [reflexivity|]. split; [apply lookup_set_same|].
  split; [|split; reflexivity].
  intros k Hk. now rewrite !lookup_set_other.
Qed.

(** Without structured output nothing is recorded. *)
Theorem no_structured_output_no_errors e message b :
  structuredOutput b = None ->
  appendErrorToStructuredOutput e b = Returned b
  /\ exists b', fail message b = Returned b'
                /\ structuredOutput b' = None
                /\ task_status b' = TASK_FAILED
                /\ markdown_text (steps b')
                   = markdown_text (steps b)
                     ++ match message with Some m => m | None => "" end.
Proof.
  intros Hnone. unfold fail, appendErrorToStructuredOutput.
  rewrite Hnone. split; [reflexivity|].
  destruct message as [m|];
    cbn [structuredOutput addMarkdown setStatus steps task_status prompt];
    rewrite ?Hnone; eexists; (split; [reflexivity|]);
    cbn [structuredOutput steps task_status addMarkdown setStatus];
    rewrite ?markdown_text_append_to_last, ?append_empty_r;
    repeat split; assumption.
Qed.

(** A failure with a message: the task is failed, the message is added to
    the transcript's text and recorded as the last error of the structured
    output. *)
Theorem fail_records_the_message m b so previous :
  structuredOutput b = Some so ->
  lookup "errors" so = Some (JArr previous) ->
  exists b' so',
    fail (Some m) b = Returned b'
    /\ task_status b' = TASK_FAILED
    /\ steps b' = steps (addMarkdown m b)
    /\ structuredOutput b' = Some so'
    /\ lookup "errors" so'
       = Some (JArr (previous ++ [JObj [("message", JStr m)]]))
    /\ forall k, k <> "errors" -> lookup k so' = lookup k so.
Proof.
  intros Hso Herr. unfold fail, appendErrorToStructuredOutput.
  cbn [structuredOutput addMarkdown setStatus steps task_status prompt].
  rewrite Hso, Herr. cbn [truthy negb Js.bind].
  do 2 eexists. split; [reflexivity|].
  cbn [structuredOutput steps task_status].
  repeat split; try apply lookup_set_same.
  intros k Hk. now rewrite lookup_set_other.
Qed.

Lemma errors_accumulate_witness :
  exists b2 so2,
    (b1 <- appendErrorToStructuredOutput (JStr "timeout") reporting ;;
     appendErrorToStructuredOutput (JStr "refused") b1) = Returned b2
    /\ structuredOutput b2 = Some so2
    /\ lookup "errors" so2 = Some (JArr [JStr "timeout"; JStr "refused"])
    /\ (forall k, k <> "errors" ->
                  lookup k so2 = lookup k [("sent", JBool false)])
    /\ steps b2 = steps reporting
    /\ task_status b2 = task_status reporting.
Proof.
  apply (errors_accumulate (JStr "timeout") (JStr "refused") reporting
           [("sent", JBool false)]); reflexivity.
Defined.

Lemma no_structured_output_no_errors_witness :
  appendErrorToStructuredOutput (JStr "timeout")
    (agentOutputBuilder "mail ann")
  = Returned (agentOutputBuilder "mail ann")
  /\ exists b',
       fail (Some "Could not send.") (agentOutputBuilder "mail ann")
       = Returned b'
       /\ structuredOutput b' = None
       /\ task_status b' = TASK_FAILED
       /\ markdown_text (steps b')
          = markdown_text (steps (agentOutputBuilder "mail ann"))
            ++ "Could not send.".
Proof.
  apply (no_structured_output_no_errors (JStr "timeout")
           (Some "Could not send.") (agentOutputBuilder "mail ann")).
  reflexivity.
Defined.

Lemma fail_records_the_message_witness :
  exists b' so',
    fail (Some "Could not send.") reporting_again = Returned b'
    /\ task_status b' = TASK_FAILED
    /\ steps b' = steps (addMarkdown "Could not send." reporting_again)
    /\ structuredOutput b' = Some so'
    /\ lookup "errors" so'
       = Some (JArr ([JStr "timeout"]
                     ++ [JObj [("message", JStr "Could not send.")]]))
    /\ forall k, k <> "errors" ->
                 lookup k so'
                 = lookup k [("sent", JBool false);
                             ("errors", JArr [JStr "timeout"])].
Proof.
  apply (fail_records_the_message "Could not send." reporting_again
           [("sent", JBool false); ("errors", JArr [JStr "timeout"])]
           [JStr "timeout"]); reflexivity.
Defined.

End BuilderFacts.
